(** * PublicTradeBot: the feature-engineering and labelling pipeline

    A shallow embedding of the pandas code of
    [3_sentiment_analysis.py], [4_technical_indicators.py] and
    [5_feature_engineering.py], and the properties of the specification
    checked against it.

    Numbers.  A pandas float64 is modelled by [float]: an exact rational, one
    of the two infinities, or NaN.  Arithmetic follows IEEE-754 on the special
    values (x/0, inf-inf, comparisons with NaN); rounding and the sign of zero
    are not modelled, and finite results are kept in lowest terms.  The square root, the only irrational operation the
    code uses, is a parameter [sqrtF] of the development.

    Tables.  A DataFrame is a list of rows under a positional index (the
    [RangeIndex] the tables have when read from CSV).  The eight columns of
    the uniform price schema are typed fields of [Row]; every other column
    lives in the finite map [cols] of the row, and [columns] keeps the order
    of those names. *)

From Stdlib Require Import QArith Qabs Qround Lqa ZArith.
From Stdlib Require OrderedTypeEx.
From stdpp Require Import gmap strings list pretty sorting.

(** ** Idealised floats *)

Inductive float : Type :=
  | Fin (q : Q)
  | PInf
  | NInf
  | NaN.

Definition Qlt_bool (a b : Q) : bool := negb (Qle_bool b a).

Definition isnan (x : float) : bool :=
  match x with NaN => true | _ => false end.

Definition notna (x : float) : bool := negb (isnan x).

(** [np.isfinite] *)
Definition isfinite (x : float) : bool :=
  match x with Fin _ => true | _ => false end.

Definition fneg (x : float) : float :=
  match x with
  | Fin q => Fin (- q)
  | PInf => NInf
  | NInf => PInf
  | NaN => NaN
  end.

Definition fadd (x y : float) : float :=
  match x, y with
  | NaN, _ | _, NaN => NaN
  | Fin a, Fin b => Fin (Qred (a + b))
  | PInf, NInf | NInf, PInf => NaN
  | PInf, _ | _, PInf => PInf
  | NInf, _ | _, NInf => NInf
  end.

Definition fsub (x y : float) : float := fadd x (fneg y).

(** [inf * 0] is NaN, otherwise the sign rule. *)
Definition scale_inf (inf : float) (a : Q) : float :=
  match (Qnum a ?= 0)%Z with
  | Eq => NaN
  | Gt => inf
  | Lt => fneg inf
  end.

Definition fmul (x y : float) : float :=
  match x, y with
  | NaN, _ | _, NaN => NaN
  | Fin a, Fin b => Fin (Qred (a * b))
  | Fin a, PInf | PInf, Fin a => scale_inf PInf a
  | Fin a, NInf | NInf, Fin a => scale_inf NInf a
  | PInf, PInf | NInf, NInf => PInf
  | PInf, NInf | NInf, PInf => NInf
  end.

(** Division: [x/0] is an infinity of the sign of [x], [0/0] and [inf/inf]
    are NaN, a finite value over an infinity is 0. *)
Definition fdiv (x y : float) : float :=
  match x, y with
  | NaN, _ | _, NaN => NaN
  | Fin a, Fin b =>
      if Qeq_bool b 0 then scale_inf PInf a else Fin (Qred (a / b))
  | Fin _, (PInf | NInf) => Fin 0
  | (PInf | NInf), (PInf | NInf) => NaN
  | PInf, Fin b => if Qle_bool 0 b then PInf else NInf
  | NInf, Fin b => if Qle_bool 0 b then NInf else PInf
  end.

Definition flt (x y : float) : bool :=
  match x, y with
  | NaN, _ | _, NaN => false
  | Fin a, Fin b => Qlt_bool a b
  | NInf, NInf | PInf, _ | _, NInf => false
  | NInf, _ | _, PInf => true
  end.

Definition fgt (x y : float) : bool := flt y x.

Definition feqb (x y : float) : bool :=
  match x, y with
  | Fin a, Fin b => Qeq_bool a b
  | PInf, PInf | NInf, NInf => true
  | _, _ => false
  end.

Definition fabs (x : float) : float :=
  match x with
  | Fin q => Fin (Qabs q)
  | PInf | NInf => PInf
  | NaN => NaN
  end.

(** [np.sign] *)
Definition fsign (x : float) : float :=
  match x with
  | Fin q => Fin (inject_Z (Z.sgn (Qnum q)))
  | PInf => Fin 1
  | NInf => Fin (-1)
  | NaN => NaN
  end.

Definition of_Z (n : Z) : float := Fin (inject_Z n).
Definition of_nat (n : nat) : float := of_Z (Z.of_nat n).

(** Equality of values (rationals up to [Qeq]). *)
Definition float_eq (x y : float) : Prop :=
  match x, y with
  | Fin a, Fin b => (a == b)%Q
  | PInf, PInf | NInf, NInf | NaN, NaN => True
  | _, _ => False
  end.


(** A square root to nine decimal places, to run the development on concrete
    tables. *)
Definition sqrt_approx (q : Q) : Q :=
  Z.sqrt (Qnum q * 1000000000000000000 / Z.pos (Qden q)) # 1000000000.
Section Pipeline.

(** The floating-point square root ([np.sqrt], and the one inside pandas'
    [std]). *)
Variable sqrtF : Q → Q.

(** ** Series: a column of floats under a positional index *)

Definition get (xs : list float) (i : Z) : float :=
  if (i <? 0)%Z then NaN else default NaN (xs !! Z.to_nat i).

(** [Series.shift(n)]: the value at [t] is the one that was at [t - n]. *)
Definition shift (n : Z) (xs : list float) : list float :=
  imap (λ t _, get xs (Z.of_nat t - n)) xs.

Fixpoint ffill_from (last : float) (xs : list float) : list float :=
  match xs with
  | [] => []
  | x :: xs' =>
      if isnan x then last :: ffill_from last xs'
      else x :: ffill_from x xs'
  end.

(** [Series.fillna(method="ffill")] *)
Definition ffill (xs : list float) : list float := ffill_from NaN xs.

(** [Series.pct_change(periods)], with its default [fill_method="pad"]:
    [data / data.shift(periods) - 1]. *)
Definition pct_change (periods : Z) (xs : list float) : list float :=
  let data := ffill xs in
  zip_with (λ a b, fsub (fdiv a b) (Fin 1)) data (shift periods data).

(** [Series.diff(n)] *)
Definition diff (n : Z) (xs : list float) : list float :=
  zip_with fsub xs (shift n xs).

(** [Series.where(cond, other)] *)
Definition where_ (cond : float → bool) (other : float) (xs : list float)
  : list float :=
  map (λ x, if cond x then x else other) xs.

Definition dropna (xs : list float) : list float := filter (λ x, notna x) xs.

Definition fsum (xs : list float) : float := foldl fadd (Fin 0) xs.

Definition fmean (xs : list float) : float :=
  fdiv (fsum xs) (of_nat (length xs)).

Definition fmin2 (x y : float) : float := if flt y x then y else x.
Definition fmax2 (x y : float) : float := if flt x y then y else x.

Definition fmin (xs : list float) : float :=
  match xs with [] => NaN | x :: xs' => foldl fmin2 x xs' end.
Definition fmax (xs : list float) : float :=
  match xs with [] => NaN | x :: xs' => foldl fmax2 x xs' end.

(** The rows [max(0, t-w+1) .. t] of a series. *)
Definition window (w : nat) (xs : list float) (t : nat) : list float :=
  drop (t + 1 - w) (take (t + 1) xs).

(** The window routines of pandas first turn the infinities of the series
    into missing values ([_prep_values]) and then skip what is missing: the
    observations of a window are its finite values. *)
Definition observations (xs : list float) : list float :=
  filter (λ x, isfinite x) xs.

(** [Series.rolling(w, min_periods=minp).agg()]: NaN until the window holds
    [minp] observations, then the aggregate of the observations in it. *)
Definition rolling (w minp : nat) (agg : list float → float)
    (xs : list float) : list float :=
  imap (λ t _, let obs := observations (window w xs t) in
               if (length obs <? minp)%nat then NaN else agg obs) xs.


(** [Series.fillna(v)] *)
Definition fillna (v : float) (xs : list float) : list float :=
  map (λ x, if isnan x then v else x) xs.

Fixpoint cumsum_from (acc : float) (xs : list float) : list float :=
  match xs with
  | [] => []
  | x :: xs' =>
      if isnan x then NaN :: cumsum_from acc xs'
      else fadd acc x :: cumsum_from (fadd acc x) xs'
  end.

(** [Series.cumsum()] *)
Definition cumsum (xs : list float) : list float := cumsum_from (Fin 0) xs.

Definition fsqrt (x : float) : float :=
  match x with
  | Fin q => if Qlt_bool q 0 then NaN else Fin (sqrtF q)
  | PInf => PInf
  | NInf | NaN => NaN
  end.

(** Sample variance ([ddof=1]) of the observations. *)
Definition fvar (xs : list float) : float :=
  if (length xs <=? 1)%nat then NaN
  else
    let m := fmean xs in
    fdiv (fsum ((λ x, fmul (fsub x m) (fsub x m)) <$> xs))
         (of_nat (length xs - 1)).

Definition fstd (xs : list float) : float := fsqrt (fvar xs).

(** Aggregations of a whole series skip NaN ([skipna=True]). *)
Definition smean (xs : list float) : float := fmean (dropna xs).
Definition sstd (xs : list float) : float := fstd (dropna xs).
Definition smin (xs : list float) : float := fmin (dropna xs).
Definition smax (xs : list float) : float := fmax (dropna xs).

Definition fle (x y : float) : bool := flt x y || feqb x y.

(** Linear-interpolation quantile of the observations (numpy's default). *)
Definition quantile_obs (q : Q) (obs : list float) : float :=
  match obs with
  | [] => NaN
  | _ =>
      let v := merge_sort (λ x y, Is_true (fle x y)) obs in
      let pos := (q * inject_Z (Z.of_nat (length v - 1)))%Q in
      let lo := Qfloor pos in
      let vlo := get v lo in
      if Qeq_bool (inject_Z lo) pos then vlo
      else fadd vlo (fmul (fsub (get v (lo + 1)) vlo)
                          (Fin (pos - inject_Z lo)))
  end.

(** [Series.quantile(q)] *)
Definition quantile (q : Q) (xs : list float) : float :=
  quantile_obs q (dropna xs).

(** [Series.ewm(span, adjust=False).mean()]: pandas' recurrence, with its
    treatment of missing observations ([ignore_na=False]). *)
Fixpoint ewm_go (alpha : Q) (weighted : float) (old_wt : Q)
    (xs : list float) : list float :=
  match xs with
  | [] => []
  | cur :: xs' =>
      let '(weighted', old_wt') :=
        if notna weighted then
          let old_wt1 := (old_wt * (1 - alpha))%Q in
          if notna cur then
            (if feqb weighted cur then weighted
             else fdiv (fadd (fmul (Fin old_wt1) weighted)
                             (fmul (Fin alpha) cur))
                       (Fin (old_wt1 + alpha)),
             1%Q)
          else (weighted, old_wt1)
        else if notna cur then (cur, old_wt)
        else (weighted, old_wt) in
      weighted' :: ewm_go alpha weighted' old_wt' xs'
  end.

(** An infinity counts as a missing observation here too. *)
Definition inf_to_nan (x : float) : float := if isfinite x then x else NaN.

Definition ewm_mean (span : Z) (xs : list float) : list float :=
  match inf_to_nan <$> xs with
  | [] => []
  | x :: xs' => x :: ewm_go (2 / (inject_Z span + 1))%Q x 1%Q xs'
  end.

(** [Series.unique()]: the distinct values in order of first appearance. *)
Fixpoint unique {A} `{EqDecision A} (l : list A) : list A :=
  match l with
  | [] => []
  | x :: l' => x :: filter (λ y, y ≠ x) (unique l')
  end.

(** A stable sort by insertion: [sort_values] on several keys (a lexsort,
    which keeps the input order of rows with equal keys) and the sorted
    keys of a [groupby]. *)
Fixpoint insert_sorted {A} (le : A → A → bool) (x : A) (l : list A)
  : list A :=
  match l with
  | [] => [x]
  | y :: l' => if le x y then x :: l else y :: insert_sorted le x l'
  end.

Definition sort_by {A} (le : A → A → bool) (l : list A) : list A :=
  foldr (insert_sorted le) [] l.
(** ** Tables *)

Inductive cell : Type :=
  | Num (x : float)
  | Int (n : Z)
  | Str (s : string)
  | NA.

Definition is_na (c : cell) : bool :=
  match c with
  | Num x => isnan x
  | NA => true
  | _ => false
  end.

Definition cell_float (c : cell) : float :=
  match c with
  | Num x => x
  | Int n => of_Z n
  | _ => NaN
  end.

Record Row : Type := mkRow {
  date : Z;
  asset : string;
  asset_type : string;
  open : float;
  high : float;
  low : float;
  close : float;
  volume : float;
  cols : gmap string cell
}.

Record DataFrame : Type := mkDataFrame {
  columns : list string;
  rows : list Row
}.

Definition cellof (c : string) (r : Row) : cell := default NA (cols r !! c).

Definition set_cell (c : string) (v : cell) (r : Row) : Row :=
  mkRow (date r) (asset r) (asset_type r) (open r) (high r) (low r)
        (close r) (volume r) (<[c := v]> (cols r)).

(** [df[c]] *)
Definition column (c : string) (df : DataFrame) : list cell :=
  cellof c <$> rows df.

(** [df[c] = vals] *)
Definition set_column (c : string) (vals : list cell) (df : DataFrame)
  : DataFrame :=
  {| columns := if bool_decide (c ∈ columns df) then columns df
                else columns df ++ [c];
     rows := zip_with (set_cell c) vals (rows df) |}.

(** The values of the rows whose key is [k], in row order. *)
Definition group_of {K A} `{EqDecision K} (k : K) (keys : list K)
    (xs : list A) : list A :=
  snd <$> filter (λ p, p.1 = k) (zip keys xs).

(** Position of row [i] inside its group. *)
Definition rank {K} `{EqDecision K} (k : K) (keys : list K) (i : nat) : nat :=
  length (filter (λ k', k' = k) (take i keys)).

(** [df.groupby(keys)[col].transform(f)] *)
Definition groupby_transform {K} `{EqDecision K} (keys : list K)
    (xs : list float) (f : list float → list float) : list float :=
  imap (λ i k, get (f (group_of k keys xs)) (Z.of_nat (rank k keys i))) keys.


Definition set_num (c : string) (vals : list float) (df : DataFrame)
  : DataFrame :=
  set_column c (Num <$> vals) df.

(** A boolean series stored with [.astype(int)]. *)
Definition set_flag (c : string) (vals : list bool) (df : DataFrame)
  : DataFrame :=
  set_column c ((λ b : bool, Int (Z.b2z b)) <$> vals) df.

(** The numeric values of a column. *)
Definition num_column (c : string) (df : DataFrame) : list float :=
  cell_float <$> column c df.

(** [df[c]] for a column that may be absent ([KeyError]). *)
Definition getcol (c : string) (df : DataFrame) : option (list float) :=
  if bool_decide (c ∈ columns df) then Some (num_column c df) else None.

(** ** [3_sentiment_analysis.py]: [calculate_market_sentiment] *)

(** Timestamps count seconds; a calendar date is represented by the timestamp
    of its midnight, which is also what [pd.to_datetime] reads back from the
    CSV file the daily table is written to. *)
Definition timedelta (days : Z) : Z := (days * 86400)%Z.

(** [Timestamp.date()] *)
Definition dt_date (ts : Z) : Z := (86400 * (ts `div` 86400))%Z.

(** A row of the article table [df]: its index label and its parsed date
    (the loader drops the rows without a date and keeps the labels of the
    others, so the labels need not be consecutive). *)
Record Article : Type := mkArticle {
  art_index : nat;
  art_date : Z
}.

(** A row of [sentiment_df], which has a fresh [RangeIndex]. *)
Record Sentiment : Type := mkSentiment {
  sentiment_score : float;
  sentiment_label : string
}.

(** A dated row of [pd.concat([df, sentiment_df], axis=1)]. *)
Record Event : Type := mkEvent {
  ev_date : Z;
  ev_score : float;
  ev_label : option string
}.

Record DailySentiment : Type := mkDailySentiment {
  ms_date : Z;
  sentiment_mean : float;
  sentiment_std : float;
  sentiment_min : float;
  sentiment_max : float;
  sentiment_balance : Z;
  stress_index : float
}.

(** The concatenation joins the two tables on their index labels; the rows
    that come from [sentiment_df] alone have no date and are left out by the
    [groupby]. *)
Definition df_with_sentiment (df : list Article) (sentiment_df : list Sentiment)
  : list Event :=
  (λ a, match sentiment_df !! art_index a with
        | Some s => mkEvent (art_date a) (sentiment_score s)
                            (Some (sentiment_label s))
        | None => mkEvent (art_date a) NaN None
        end) <$> df.

Definition events_on (d : Z) (evs : list Event) : list Event :=
  filter (λ e, dt_date (ev_date e) = d) evs.

Definition count_label (l : string) (g : list Event) : Z :=
  Z.of_nat (length (filter (λ e, ev_label e = Some l) g)).

(** The aggregation of one group; [stress_index] is filled in afterwards. *)
Definition aggregate_day (d : Z) (g : list Event) : DailySentiment :=
  let scores := ev_score <$> g in
  {| ms_date := d;
     sentiment_mean := smean scores;
     sentiment_std := sstd scores;
     sentiment_min := smin scores;
     sentiment_max := smax scores;
     sentiment_balance := (count_label "positive" g - count_label "negative" g)%Z;
     stress_index := NaN |}.

Definition with_stress_index (r : DailySentiment) : DailySentiment :=
  {| ms_date := ms_date r;
     sentiment_mean := sentiment_mean r;
     sentiment_std := sentiment_std r;
     sentiment_min := sentiment_min r;
     sentiment_max := sentiment_max r;
     sentiment_balance := sentiment_balance r;
     stress_index :=
       fmul (if isnan (sentiment_std r) then Fin 0 else sentiment_std r)
            (Fin 100) |}.

Definition calculate_market_sentiment (df : list Article)
    (sentiment_df : list Sentiment) : list DailySentiment :=
  let evs := df_with_sentiment df sentiment_df in
  let days := sort_by Z.leb (unique ((λ e, dt_date (ev_date e)) <$> evs)) in
  let daily_sentiment := (λ d, aggregate_day d (events_on d evs)) <$> days in
  with_stress_index <$> daily_sentiment.

(** ** [3_sentiment_analysis.py]: the keyword scorer and the asset detector *)

Section text.

(** [str.lower()], which depends on the Unicode tables of the interpreter.
    Strings are held as their UTF-8 bytes. *)
Variable lower : string → string.

(** [kw in text]: some suffix of [text] starts with [kw].  (On valid UTF-8
    a match on the bytes is a match on the characters.) *)
Fixpoint str_in (kw text : string) : bool :=
  String.prefix kw text
  || match text with
     | EmptyString => false
     | String _ text' => str_in kw text'
     end.

Definition ASSETS : list (string * list string) :=
  [("BTC", ["bitcoin"; "btc"; "crypto"; "cryptomonnaie"]);
   ("ETH", ["ethereum"; "eth"; "ether"]);
   ("MC.PA", ["lvmh"; "louis vuitton"; "luxe"]);
   ("RMS.PA", ["hermès"; "hermes"]);
   ("TTE.PA", ["totalenergies"; "total"; "énergie"; "pétrole"]);
   ("ENGI.PA", ["engie"; "gaz"; "électricité"]);
   ("BNP.PA", ["bnp"; "bnp paribas"; "banque"]);
   ("GLE.PA", ["société générale"; "socgen"; "societe generale"]);
   ("CAP.PA", ["capgemini"; "tech"; "technologie"]);
   ("SU.PA", ["schneider"; "schneider electric"; "industrie"])].

Definition POSITIVE_KEYWORDS : list string :=
  ["hausse"; "progression"; "rebond"; "optimisme"; "croissance"; "record";
   "succès"; "performance"; "dynamique"; "confiance"].

Definition NEGATIVE_KEYWORDS : list string :=
  ["baisse"; "chute"; "recul"; "inquiétude"; "crise"; "correction";
   "volatilité"; "incertitude"; "panique"; "ralentissement"].

(** [sum(1 for kw in keywords if kw in text)] *)
Definition count_keywords (keywords : list string) (text : string) : Z :=
  Z.of_nat (length (filter (λ kw, str_in kw text = true) keywords)).

Definition analyze_sentiment_simple (text : string) : float :=
  let text_lower := lower text in
  let positive_count := count_keywords POSITIVE_KEYWORDS text_lower in
  let negative_count := count_keywords NEGATIVE_KEYWORDS text_lower in
  let total := (positive_count + negative_count)%Z in
  if (total =? 0)%Z then Fin 0
  else fdiv (of_Z (positive_count - negative_count)) (of_Z total).

(** ["positive" if score > 0.2 else "negative" if score < -0.2 else
    "neutral"] *)
Definition label_of_score (score : float) : string :=
  if fgt score (Fin (2 # 10)) then "positive"
  else if flt score (Fin (- (2 # 10))) then "negative"
  else "neutral".

(** [df["title"].fillna("") + " " + df["description"].fillna("")] *)
Definition full_text (title description : option string) : string :=
  default "" title +:+ " " +:+ default "" description.

(** [analyze_sentiment_transformer(df, use_transformer=False)]: the keyword
    branch, one row per article, under a fresh [RangeIndex].  (The
    [confidence] column, the constant 0.6, is read by no later step.) *)
Definition analyze_sentiment_keywords
    (df : list (option string * option string)) : list Sentiment :=
  (λ a, let score := analyze_sentiment_simple (full_text a.1 a.2) in
        mkSentiment score (label_of_score score)) <$> df.

(** The detector over a dictionary of keywords: one 0/1 column per asset,
    in the order of the dictionary. *)
Definition detect_mentions_with (assets : list (string * list string))
    (texts : list string) : list (string * list Z) :=
  (λ entry,
     ("mentions_" +:+ entry.1,
      (λ text, Z.b2z (existsb (λ kw, str_in kw (lower text)) entry.2))
        <$> texts)) <$> assets.

Definition detect_asset_mentions (texts : list string)
  : list (string * list Z) :=
  detect_mentions_with ASSETS texts.

End text.

(** ** [4_technical_indicators.py] *)

Record Params : Type := mkParams {
  rsi_period : nat;
  macd_fast : Z;
  macd_slow : Z;
  macd_signal : Z;
  bollinger_period : nat;
  bollinger_std : Q;
  ma_short : nat;
  ma_medium : nat;
  ma_long : nat;
  volume_ma : nat
}.

Definition PARAMS : Params :=
  {| rsi_period := 14;
     macd_fast := 12;
     macd_slow := 26;
     macd_signal := 9;
     bollinger_period := 20;
     bollinger_std := 2;
     ma_short := 7;
     ma_medium := 30;
     ma_long := 90;
     volume_ma := 20 |}.

Definition calculate_rsi (series : list float) (period : nat) : list float :=
  let delta := diff 1 series in
  let gain :=
    rolling period period fmean (where_ (λ d, fgt d (Fin 0)) (Fin 0) delta) in
  let loss :=
    rolling period period fmean
      (fneg <$> where_ (λ d, flt d (Fin 0)) (Fin 0) delta) in
  let rs := zip_with fdiv gain loss in
  (λ r, fsub (Fin 100) (fdiv (Fin 100) (fadd (Fin 1) r))) <$> rs.

Definition calculate_macd (series : list float) (fast slow signal : Z)
  : list float * list float * list float :=
  let ema_fast := ewm_mean fast series in
  let ema_slow := ewm_mean slow series in
  let macd := zip_with fsub ema_fast ema_slow in
  let signal_line := ewm_mean signal macd in
  let histogram := zip_with fsub macd signal_line in
  (macd, signal_line, histogram).

Definition calculate_bollinger_bands (series : list float) (period : nat)
    (std_dev : Q) : list float * list float * list float :=
  let middle_band := rolling period period fmean series in
  let std := rolling period period fstd series in
  let upper_band :=
    zip_with (λ m s, fadd m (fmul s (Fin std_dev))) middle_band std in
  let lower_band :=
    zip_with (λ m s, fsub m (fmul s (Fin std_dev))) middle_band std in
  (upper_band, middle_band, lower_band).

Definition ma_name (period : nat) : string := "ma_" +:+ pretty period.

Definition calculate_moving_averages (series : list float)
    (periods : list nat) : list (string * list float) :=
  (λ period, (ma_name period, rolling period period fmean series)) <$> periods.

Definition calculate_volatility (series : list float) (period : nat)
  : list float :=
  let returns := pct_change 1 series in
  (λ s, fmul s (fsqrt (Fin 252))) <$> rolling period period fstd returns.

Definition calculate_volume_indicators (volume close : list float)
    (period : nat) : list (string * list float) :=
  let volume_ma := rolling period period fmean volume in
  let volume_ratio := zip_with fdiv volume volume_ma in
  let obv :=
    cumsum (fillna (Fin 0) (zip_with fmul (fsign <$> diff 1 close) volume)) in
  [("volume_ma", volume_ma); ("volume_ratio", volume_ratio); ("obv", obv)].

(** The statements of a loop body, run in order on the frame. *)
Definition run_assignments (steps : list (DataFrame → DataFrame))
    (df : DataFrame) : DataFrame :=
  foldl (λ d step, step d) df steps.

Definition set_nums (cs : list (string * list float)) (df : DataFrame)
  : DataFrame :=
  foldl (λ d m, set_num m.1 m.2 d) df cs.

(** The body of the per-asset loop: the indicator columns of one asset. *)
Definition asset_indicators (df_asset : DataFrame) : DataFrame :=
  let close_s := close <$> rows df_asset in
  let volume_s := volume <$> rows df_asset in
  let dist (ma : list float) :=
    zip_with (λ c m, fmul (fsub (fdiv c m) (Fin 1)) (Fin 100)) close_s ma in
  run_assignments [
    (* 1. RSI *)
    set_num "rsi" (calculate_rsi close_s (rsi_period PARAMS));
    (* 2. MACD *)
    (λ d, let '(macd, signal, hist) :=
            calculate_macd close_s (macd_fast PARAMS) (macd_slow PARAMS)
              (macd_signal PARAMS) in
          set_nums [("macd", macd); ("macd_signal", signal);
                    ("macd_histogram", hist)] d);
    (* 3. Bollinger Bands *)
    (λ d, let '(bb_upper, bb_middle, bb_lower) :=
            calculate_bollinger_bands close_s (bollinger_period PARAMS)
              (bollinger_std PARAMS) in
          set_nums
            [("bb_upper", bb_upper); ("bb_middle", bb_middle);
             ("bb_lower", bb_lower);
             ("bb_width",
               zip_with fdiv (zip_with fsub bb_upper bb_lower) bb_middle);
             ("bb_position",
               zip_with fdiv (zip_with fsub close_s bb_lower)
                             (zip_with fsub bb_upper bb_lower))] d);
    (* 4. Moving averages *)
    set_nums (calculate_moving_averages close_s
                [ma_short PARAMS; ma_medium PARAMS; ma_long PARAMS]);
    (* 5. MA crossovers *)
    (λ d, set_flag "ma_cross_short_medium"
            (zip_with fgt (num_column (ma_name (ma_short PARAMS)) d)
                          (num_column (ma_name (ma_medium PARAMS)) d)) d);
    (* 6. Volatility *)
    set_num "volatility" (calculate_volatility close_s 20);
    (* 7. Returns *)
    set_num "returns_1d" (pct_change 1 close_s);
    set_num "returns_7d" (pct_change 7 close_s);
    set_num "returns_30d" (pct_change 30 close_s);
    (* 8. Volume indicators *)
    set_nums (calculate_volume_indicators volume_s close_s (volume_ma PARAMS));
    (* 9. Price momentum *)
    set_num "momentum_7d" (zip_with fsub close_s (shift 7 close_s));
    set_num "momentum_30d" (zip_with fsub close_s (shift 30 close_s));
    (* 10. Distance from the moving averages, in percent *)
    (λ d, set_num "dist_from_ma_short"
            (dist (num_column (ma_name (ma_short PARAMS)) d)) d);
    (λ d, set_num "dist_from_ma_medium"
            (dist (num_column (ma_name (ma_medium PARAMS)) d)) d)
  ] df_asset.

(** [DataFrame.sort_values("date")] sorts one column with numpy's quicksort,
    which is not stable: the rows come out in the order of their dates, and
    the order it gives to rows of equal date is not specified.  The sort is
    any function with these two properties. *)
Record DateSort : Type := {
  sort_values_date :> list Row → list Row;
  sort_values_date_Permutation : ∀ rs, sort_values_date rs ≡ₚ rs;
  sort_values_date_sorted :
    ∀ rs, StronglySorted (λ r1 r2, (date r1 ≤ date r2)%Z) (sort_values_date rs)
}.

Variable quicksort : DateSort.

(** [df[df["asset"] == asset].copy().sort_values("date")] *)
Definition select_asset (a : string) (df : DataFrame) : DataFrame :=
  {| columns := columns df;
     rows := quicksort (filter (λ r, asset r = a) (rows df)) |}.

(** [pd.concat(frames, ignore_index=True)]; an empty list of frames is a
    [ValueError]. *)
Definition pd_concat (frames : list DataFrame) : option DataFrame :=
  match frames with
  | [] => None
  | _ => Some {| columns := unique (mjoin (columns <$> frames));
                 rows := mjoin (rows <$> frames) |}
  end.

(** The loop over the assets: an asset with fewer than 100 rows is skipped
    ([continue]), the others are appended to [all_features]. *)
Definition all_features (df : DataFrame) : list DataFrame :=
  foldl (λ acc a,
           let df_asset := select_asset a df in
           if (length (rows df_asset) <? 100)%nat then acc
           else acc ++ [asset_indicators df_asset])
        [] (unique (asset <$> rows df)).

Definition calculate_technical_features (df : DataFrame) : option DataFrame :=
  pd_concat (all_features df).
(** ** [5_feature_engineering.py]: [create_targets] *)

Definition FORWARD_PERIODS : list Z := [3; 7; 14]%Z.

Definition threshold (period : Z) : Q :=
  if (14 <=? period)%Z then 3 # 100
  else if (7 <=? period)%Z then 2 # 100
  else 15 # 1000.

Definition target_return_name (period : Z) : string :=
  "target_return_" +:+ pretty period +:+ "d".

Definition target_direction_name (period : Z) : string :=
  "target_direction_" +:+ pretty period +:+ "d".

Definition create_targets_step (df : DataFrame) (period : Z) : DataFrame :=
  let ret := groupby_transform (asset <$> rows df) (close <$> rows df)
               (pct_change (- period)) in
  let df1 := set_column (target_return_name period) (Num <$> ret) df in
  let thr := Fin (threshold period) in
  let df2 :=
    set_column (target_direction_name period)
      ((λ c, Int (Z.b2z (fgt (cell_float c) thr)))
         <$> column (target_return_name period) df1) df1 in
  (* df[direction][df[return] < -threshold] = 0 *)
  set_column (target_direction_name period)
    (zip_with (λ d r, if flt (cell_float r) (fneg thr) then Int 0 else d)
       (column (target_direction_name period) df2)
       (column (target_return_name period) df2)) df2.

Definition create_targets (df : DataFrame) (forward_periods : list Z)
  : DataFrame :=
  foldl create_targets_step df forward_periods.


(** ** [merge_sentiment_features], [merge_google_trends] *)

Definition SENTIMENT_LAG_DAYS : Z := 7.

Record TrendRow : Type := mkTrendRow {
  tr_date : Z;
  tr_asset : string;
  interest : float
}.

(** [.iloc[0]] and [.iloc[-1]] of a non-empty window. *)
Definition iloc_first (xs : list float) : float := default NaN (head xs).
Definition iloc_last (xs : list float) : float := default NaN (last xs).

(** [pd.concat([df, pd.DataFrame(features)], axis=1)]: the keys of the
    dictionaries become new columns, row by row. *)
Definition concat_features (df : DataFrame)
    (features : list (list (string * float))) : DataFrame :=
  {| columns := columns df ++ unique (mjoin (fmap fst <$> features));
     rows := zip_with (λ r f, foldl (λ r kv, set_cell kv.1 (Num kv.2) r) r f)
               (rows df) features |}.

Definition sentiment_lag_window (ms : list DailySentiment) (d lag : Z)
  : list DailySentiment :=
  filter (λ s, (d - timedelta lag ≤ ms_date s)%Z ∧ (ms_date s ≤ d)%Z) ms.

Definition sentiment_row_features (ms : list DailySentiment) (lag : Z)
    (row : Row) : list (string * float) :=
  let sentiment_window := sentiment_lag_window ms (date row) lag in
  if (0 <? length sentiment_window)%nat then
    [("sentiment_mean_7d", smean (sentiment_mean <$> sentiment_window));
     ("sentiment_std_7d", smean (sentiment_std <$> sentiment_window));
     ("sentiment_trend_7d",
       if (1 <? length sentiment_window)%nat
       then fsub (iloc_last (sentiment_mean <$> sentiment_window))
                 (iloc_first (sentiment_mean <$> sentiment_window))
       else Fin 0);
     ("stress_index_7d", smean (stress_index <$> sentiment_window))]
  else
    [("sentiment_mean_7d", Fin 0);
     ("sentiment_std_7d", Fin 0);
     ("sentiment_trend_7d", Fin 0);
     ("stress_index_7d", Fin 0)].

Definition merge_sentiment_features (df_technical : DataFrame)
    (df_market_sentiment : option (list DailySentiment))
    (sentiment_lag_days : Z) : DataFrame :=
  match df_market_sentiment with
  | None => df_technical
  | Some ms =>
      concat_features df_technical
        (sentiment_row_features ms sentiment_lag_days <$> rows df_technical)
  end.

Definition trends_lag_window (tr : list TrendRow) (a : string) (d lag : Z)
  : list TrendRow :=
  filter (λ t, tr_asset t = a ∧ (d - timedelta lag ≤ tr_date t)%Z
               ∧ (tr_date t ≤ d)%Z) tr.

Definition trends_row_features (tr : list TrendRow) (lag : Z) (row : Row)
  : list (string * float) :=
  let trends_window := trends_lag_window tr (asset row) (date row) lag in
  if (0 <? length trends_window)%nat then
    [("trends_interest_mean_7d", smean (interest <$> trends_window));
     ("trends_interest_max_7d", smax (interest <$> trends_window));
     ("trends_interest_min_7d", smin (interest <$> trends_window));
     ("trends_interest_std_7d", sstd (interest <$> trends_window));
     ("trends_interest_trend_7d",
       if (1 <? length trends_window)%nat
       then fsub (iloc_last (interest <$> trends_window))
                 (iloc_first (interest <$> trends_window))
       else Fin 0);
     ("trends_interest_current",
       if (0 <? length trends_window)%nat
       then iloc_last (interest <$> trends_window)
       else Fin 50)]
  else
    [("trends_interest_mean_7d", Fin 50);
     ("trends_interest_max_7d", Fin 50);
     ("trends_interest_min_7d", Fin 50);
     ("trends_interest_std_7d", Fin 0);
     ("trends_interest_trend_7d", Fin 0);
     ("trends_interest_current", Fin 50)].

Definition merge_google_trends (df_technical : DataFrame)
    (df_trends : option (list TrendRow)) (trend_lag_days : Z) : DataFrame :=
  match df_trends with
  | None => df_technical
  | Some tr =>
      concat_features df_technical
        (trends_row_features tr trend_lag_days <$> rows df_technical)
  end.

(** ** [engineer_additional_features] *)

(** Column expressions: a missing column is a [KeyError] ([None]). *)

Definition col (c : string) : (DataFrame → option (list float)) := getcol c.
Definition close_col : (DataFrame → option (list float)) := λ df, Some (close <$> rows df).
Definition volume_col : (DataFrame → option (list float)) := λ df, Some (volume <$> rows df).

Definition lift1 (f : float → float) (e : (DataFrame → option (list float))) : (DataFrame → option (list float)) :=
  λ df, xs ← e df; Some (map f xs).
Definition lift2 (f : float → float → float) (a b : (DataFrame → option (list float))) : (DataFrame → option (list float)) :=
  λ df, xs ← a df; ys ← b df; Some (zip_with f xs ys).
Definition test1 (f : float → bool) (e : (DataFrame → option (list float))) : (DataFrame → option (list bool)) :=
  λ df, xs ← e df; Some (map f xs).
Definition test2 (f : float → float → bool) (a b : (DataFrame → option (list float))) : (DataFrame → option (list bool)) :=
  λ df, xs ← a df; ys ← b df; Some (zip_with f xs ys).
Definition band (a b : (DataFrame → option (list bool))) : (DataFrame → option (list bool)) :=
  λ df, xs ← a df; ys ← b df; Some (zip_with andb xs ys).

(** [grouped[c].transform(f)] and [grouped[c].shift(n)], with
    [grouped = df.groupby("asset")] *)
Definition grouped (e : (DataFrame → option (list float))) (f : list float → list float) : (DataFrame → option (list float)) :=
  λ df, xs ← e df; Some (groupby_transform (asset <$> rows df) xs f).

(** A statistic of the whole column, broadcast to every row. *)
Definition whole (f : list float → float) (e : (DataFrame → option (list float))) : (DataFrame → option (list float)) :=
  λ df, xs ← e df; Some (replicate (length xs) (f xs)).

Definition assign (c : string) (e : (DataFrame → option (list float))) (df : DataFrame)
  : option DataFrame :=
  vals ← e df; Some (set_num c vals df).
Definition assign_flag (c : string) (e : (DataFrame → option (list bool))) (df : DataFrame)
  : option DataFrame :=
  vals ← e df; Some (set_flag c vals df).

(** The statements of a function body, run in order; the first [KeyError]
    aborts the rest. *)
Definition run_steps (steps : list (DataFrame → option DataFrame))
    (df : DataFrame) : option DataFrame :=
  foldl (λ acc step, match acc with Some d => step d | None => None end)
        (Some df) steps.

Definition has_column (c : string) (df : DataFrame) : bool :=
  bool_decide (c ∈ columns df).

(** [if c in df.columns: block] *)
Definition when_column (c : string) (block : DataFrame → option DataFrame)
    (df : DataFrame) : option DataFrame :=
  if has_column c df then block df else Some df.

Definition gt_c (q : Q) (x : float) : bool := fgt x (Fin q).
Definition lt_c (q : Q) (x : float) : bool := flt x (Fin q).
Definition div100 (x : float) : float := fdiv x (Fin 100).

(** [pd.cut(x, bins=[0, 30, 70, 100], labels=[...])]: intervals closed on
    the right; a value outside (0, 100] or missing has no category. *)
Definition pd_cut (x : float) : cell :=
  if flt (Fin 0) x && fle x (Fin 30) then Str "oversold"
  else if flt (Fin 30) x && fle x (Fin 70) then Str "neutral"
  else if flt (Fin 70) x && fle x (Fin 100) then Str "overbought"
  else NA.

Definition cell_is (s : string) (c : cell) : bool :=
  match c with Str s' => bool_decide (s' = s) | _ => false end.

Definition sentiment_interactions (df : DataFrame) : option DataFrame :=
  run_steps [
    assign "sentiment_rsi_interaction"
         (lift2 fmul (col "sentiment_mean_7d") (col "rsi"));
    assign "sentiment_volatility_interaction"
         (lift2 fmul (col "sentiment_mean_7d") (col "volatility"))
  ] df.

Definition trends_interactions (df : DataFrame) : option DataFrame :=
  run_steps [
    assign "trends_rsi_interaction"
         (lift2 fmul (lift1 div100 (col "trends_interest_mean_7d")) (col "rsi"));
    assign "trends_volatility_interaction"
         (lift2 fmul (lift1 div100 (col "trends_interest_mean_7d"))
                     (col "volatility"));
    assign "trends_momentum_interaction"
         (lift2 fmul (col "trends_interest_trend_7d") (col "returns_7d"));
    when_column "sentiment_mean_7d"
         (assign "trends_sentiment_combined"
            (lift2 fmul (lift1 div100 (col "trends_interest_mean_7d"))
                        (col "sentiment_mean_7d")));
    assign_flag "trends_spike"
         (test2 fgt (col "trends_interest_current")
            (lift1 (λ x, fmul x (Fin (3 # 2))) (col "trends_interest_mean_7d")))
  ] df.

Definition sentiment_extremes (df : DataFrame) : option DataFrame :=
  sentiment_high ←
    test2 fgt (col "sentiment_mean_7d")
      (whole (quantile (8 # 10)) (col "sentiment_mean_7d")) df;
  sentiment_low ←
    test2 flt (col "sentiment_mean_7d")
      (whole (quantile (2 # 10)) (col "sentiment_mean_7d")) df;
  assign_flag "sentiment_stress_high"
    (test2 fgt (col "stress_index_7d")
       (whole (quantile (8 # 10)) (col "stress_index_7d")))
    (set_flag "sentiment_extreme_negative" sentiment_low
       (set_flag "sentiment_extreme_positive" sentiment_high df)).

Definition market_position (df : DataFrame) : option DataFrame :=
  rsi ← col "rsi" df;
  let df := set_column "market_position" (map pd_cut rsi) df in
  let df :=
    set_flag "is_oversold"
      (cell_is "oversold" <$> column "market_position" df) df in
  Some (set_flag "is_overbought"
          (cell_is "overbought" <$> column "market_position" df) df).

Definition engineer_additional_features (df : DataFrame) : option DataFrame :=
  run_steps [
    (* 1. Interaction features *)
    when_column "sentiment_mean_7d" sentiment_interactions;
    when_column "trends_interest_mean_7d" trends_interactions;
    (* 2. Momentum patterns *)
    assign "momentum_3d" (grouped close_col (pct_change 3));
    assign "momentum_14d" (grouped close_col (pct_change 14));
    assign "momentum_21d" (grouped close_col (pct_change 21));
    (* 3. Volatility features *)
    assign "volatility_7d" (grouped (col "returns_1d") (rolling 7 1 fstd));
    assign "volatility_30d" (grouped (col "returns_1d") (rolling 30 1 fstd));
    assign_flag "volatility_regime"
         (test2 fgt (col "volatility_7d") (col "volatility_30d"));
    (* 4. Price momentum vs MA *)
    assign "price_to_ma7"
         (lift2 fdiv (lift2 fsub close_col (col "ma_7"))
            (lift1 (λ m, fadd m (Fin (1 # 100000000))) (col "ma_7")));
    assign "price_to_ma30"
         (lift2 fdiv (lift2 fsub close_col (col "ma_30"))
            (lift1 (λ m, fadd m (Fin (1 # 100000000))) (col "ma_30")));
    (* 5. RSI momentum *)
    assign "rsi_change_3d" (grouped (col "rsi") (diff 3));
    assign "rsi_ma" (grouped (col "rsi") (rolling 7 1 fmean));
    (* 6. Volume patterns *)
    assign_flag "volume_surge" (test1 (gt_c (3 # 2)) (col "volume_ratio"));
    assign "volume_trend"
         (grouped volume_col
            (λ x, zip_with fdiv (rolling 7 1 fmean x) (rolling 30 1 fmean x)));
    (* 7. Trend consistency *)
    assign_flag "returns_positive" (test1 (gt_c 0) (col "returns_1d"));
    assign "trend_days_7d"
         (grouped (col "returns_positive") (rolling 7 1 fsum));
    (* 8. Relative performance *)
    assign "return_7d_relative"
         (lift2 fsub (col "returns_7d")
            (λ df, xs ← col "returns_7d" df;
                   Some (groupby_transform
                           ((λ r, (date r, asset_type r)) <$> rows df) xs
                           (λ g, replicate (length g) (smean g)))));
    (* 9. Ratio features *)
    assign "volume_to_volatility"
         (lift2 fdiv (col "volume_ratio")
            (lift1 (λ v, fadd v (Fin (1 # 1000))) (col "volatility")));
    (* 10. Trend strength *)
    assign "trend_strength"
         (lift2 fmul (lift1 fabs (col "returns_7d"))
            (lift1 (λ v, fdiv (Fin 1) (fadd v (Fin (1 # 1000))))
               (col "volatility")));
    (* Extreme RSI conditions *)
    assign_flag "rsi_extreme_oversold" (test1 (lt_c 25) (col "rsi"));
    assign_flag "rsi_extreme_overbought" (test1 (gt_c 75) (col "rsi"));
    assign_flag "rsi_recovery"
         (band (test1 (gt_c 30) (col "rsi"))
               (test1 (lt_c 30) (grouped (col "rsi") (shift 1))));
    assign_flag "rsi_breakdown"
         (band (test1 (lt_c 70) (col "rsi"))
               (test1 (gt_c 70) (grouped (col "rsi") (shift 1))));
    (* Volume spikes *)
    assign_flag "volume_spike_2x" (test1 (gt_c 2) (col "volume_ratio"));
    assign_flag "volume_spike_3x" (test1 (gt_c 3) (col "volume_ratio"));
    assign_flag "volume_with_price_up"
         (band (test1 (gt_c (3 # 2)) (col "volume_ratio"))
               (test1 (gt_c 0) (col "returns_1d")));
    assign_flag "volume_with_price_down"
         (band (test1 (gt_c (3 # 2)) (col "volume_ratio"))
               (test1 (lt_c 0) (col "returns_1d")));
    (* Bollinger breakouts *)
    assign_flag "bb_lower_touch" (test1 (lt_c (1 # 10)) (col "bb_position"));
    assign_flag "bb_upper_touch" (test1 (gt_c (9 # 10)) (col "bb_position"));
    assign_flag "bb_squeeze_extreme"
         (test2 flt (col "bb_width")
            (λ df, rolling 20 1 (quantile_obs (2 # 10)) <$> col "bb_width" df));
    (* Sentiment extremes *)
    when_column "sentiment_mean_7d" sentiment_extremes;
    (* Lagged features *)
    assign "returns_1d_lag1" (grouped (col "returns_1d") (shift 1));
    assign "returns_1d_lag2" (grouped (col "returns_1d") (shift 2));
    assign "returns_1d_lag3" (grouped (col "returns_1d") (shift 3));
    assign "volatility_lag1" (grouped (col "volatility") (shift 1));
    assign "rsi_lag1" (grouped (col "rsi") (shift 1));
    (* Momentum divergence *)
    assign_flag "momentum_divergence"
         (band (test1 (gt_c 0) (col "returns_7d"))
               (test1 (lt_c 0) (col "momentum_7d")));
    (* Combined signals *)
    assign_flag "bullish_confluence"
         (band (band (test1 (lt_c 35) (col "rsi"))
                     (test1 (lt_c (2 # 10)) (col "bb_position")))
               (test1 (lt_c (- (5 # 100))) (col "returns_7d")));
    assign_flag "bearish_confluence"
         (band (band (test1 (gt_c 65) (col "rsi"))
                     (test1 (gt_c (8 # 10)) (col "bb_position")))
               (test1 (gt_c (5 # 100)) (col "returns_7d")));
    (* Momentum score *)
    assign "momentum_score"
         (λ df, a ← test1 (gt_c 50) (col "rsi") df;
                b ← test1 (gt_c 0) (col "macd") df;
                c ← test1 (λ x, feqb x (Fin 1)) (col "ma_cross_short_medium") df;
                Some (zip_with (λ s z, fdiv (of_Z (s + Z.b2z z)) (Fin 3))
                        (zip_with (λ x y, (Z.b2z x + Z.b2z y)%Z) a b) c));
    (* Market position *)
    market_position
  ] df.

(** ** [finalize_dataset] *)

Definition startswith (prefix s : string) : bool := String.prefix prefix s.

(** [df.dropna(subset=cs)] *)
Definition dropna_subset (cs : list string) (rs : list Row) : list Row :=
  filter (λ r, Forall (λ c, is_na (cellof c r) = false) cs) rs.

(** [fillna(method="ffill")] on one column of a frame: a missing cell takes
    the last value seen above it, if there is one. *)
Fixpoint ffill_rows (c : string) (last : option cell) (rs : list Row)
  : list Row :=
  match rs with
  | [] => []
  | r :: rs' =>
      if is_na (cellof c r) then
        match last with
        | Some v => set_cell c v r :: ffill_rows c last rs'
        | None => r :: ffill_rows c last rs'
        end
      else r :: ffill_rows c (Some (cellof c r)) rs'
  end.

Definition ffill_frame (cs : list string) (rs : list Row) : list Row :=
  foldl (λ acc c, ffill_rows c None acc) rs cs.

(** [fillna(method="bfill")]: the same from the bottom up. *)
Definition bfill_frame (cs : list string) (rs : list Row) : list Row :=
  reverse (ffill_frame cs (reverse rs)).

Definition copy_cells (cs : list string) (src dst : Row) : Row :=
  foldl (λ r c, set_cell c (cellof c src) r) dst cs.

(** [df.loc[mask, cs] = filled], with [mask = df["asset"] == a]: the masked
    rows take the cells of the columns [cs] from the filled rows, in order. *)
Fixpoint assign_masked (a : string) (cs : list string) (filled : list Row)
    (rs : list Row) : list Row :=
  match rs with
  | [] => []
  | r :: rs' =>
      if bool_decide (asset r = a) then
        match filled with
        | f :: filled' => copy_cells cs f r :: assign_masked a cs filled' rs'
        | [] => r :: assign_masked a cs [] rs'
        end
      else r :: assign_masked a cs filled rs'
  end.

Definition fill_asset (feature_cols : list string) (rs : list Row)
    (a : string) : list Row :=
  let sub := filter (λ r, asset r = a) rs in
  assign_masked a feature_cols
    (bfill_frame feature_cols (ffill_frame feature_cols sub)) rs.

(** The order of [sort_values(["asset", "date"])]. *)
Definition key_le (r1 r2 : Row) : bool :=
  String.ltb (asset r1) (asset r2)
  || (String.eqb (asset r1) (asset r2) && (date r1 <=? date r2)%Z).

Definition meta_cols : list string := ["date"; "asset"; "asset_type"].
Definition price_cols : list string :=
  ["open"; "high"; "low"; "close"; "volume"].

Definition target_cols_of (cs : list string) : list string :=
  filter (λ c, startswith "target_" c = true) cs.

Definition feature_cols_of (cs : list string) : list string :=
  filter (λ c, (c ∉ ["date"; "asset"; "asset_type"; "open"; "high"; "low";
                     "close"; "volume"; "market_position"])
               ∧ startswith "target_" c = false) cs.

Definition finalize_dataset (df : DataFrame) : DataFrame :=
  (* 1. rows with a missing target *)
  let target_cols := target_cols_of (columns df) in
  let df_final := dropna_subset target_cols (rows df) in
  (* 2. forward and backward fill of the features, asset by asset *)
  let feature_cols := feature_cols_of (columns df) in
  let df_final :=
    foldl (fill_asset feature_cols) df_final (unique (asset <$> df_final)) in
  let df_final := dropna_subset feature_cols df_final in
  (* 3. column order: meta, price, features, targets *)
  let ordered_cols :=
    meta_cols ++ price_cols
    ++ filter (λ c, c ∉ meta_cols ++ price_cols ++ target_cols) (columns df)
    ++ target_cols in
  (* 4. sort by asset and date *)
  {| columns := ordered_cols; rows := sort_by key_le df_final |}.

(** ** [main] of [5_feature_engineering.py] *)

(** The Feature Composer: the two merges and the engineered features. *)
Definition feature_composer (df : DataFrame)
    (market_sentiment : option (list DailySentiment))
    (google_trends : option (list TrendRow)) : option DataFrame :=
  let df_merged :=
    merge_sentiment_features df market_sentiment SENTIMENT_LAG_DAYS in
  let df_merged :=
    merge_google_trends df_merged google_trends SENTIMENT_LAG_DAYS in
  engineer_additional_features df_merged.

Definition main (technical : DataFrame)
    (market_sentiment : option (list DailySentiment))
    (google_trends : option (list TrendRow)) : option DataFrame :=
  let df_with_targets := create_targets technical FORWARD_PERIODS in
  finalize_dataset
    <$> feature_composer df_with_targets market_sentiment google_trends.

(** ** Concrete tables *)

Definition schema_cols : list string :=
  ["date"; "asset"; "asset_type"; "open"; "high"; "low"; "close"; "volume"].

(** A daily price row whose four prices are [c]. *)
Definition price_row (day : Z) (a : string) (c : Q) : Row :=
  mkRow (timedelta day) a "crypto" (Fin c) (Fin c) (Fin c) (Fin c) (Fin 1000) ∅.

(** One asset, four days: 100, 100, 100, then a rise to 110. *)
Definition btc_rise : DataFrame :=
  mkDataFrame schema_cols
    [price_row 0 "BTC" 100; price_row 1 "BTC" 100; price_row 2 "BTC" 100;
     price_row 3 "BTC" 110].

(** 120 days of a constant close of 100. *)
Definition constant_closes : list float := replicate 120 (Fin 100).

(** [n] days of closes that climb from 100 to 104 and fall back. *)
Definition sawtooth (a : string) (n : nat) : list Row :=
  (λ i, price_row (Z.of_nat i) a (inject_Z (100 + Z.of_nat (i mod 5))))
    <$> seq 0 n.

(** An asset with 100 observations and one with 50. *)
Definition two_assets : DataFrame :=
  mkDataFrame schema_cols (sawtooth "ETH" 100 ++ sawtooth "BTC" 50).

(** Two rows of an engineered table before [market_position] is computed:
    the RSI of the first day is still in its warm-up. *)
Definition rsi_warmup_frame : DataFrame :=
  mkDataFrame
    (schema_cols ++ ["rsi"; "target_return_3d"; "target_direction_3d"])
    [mkRow (timedelta 0) "BTC" "crypto" (Fin 100) (Fin 100) (Fin 100)
       (Fin 100) (Fin 1000)
       (<["rsi" := Num NaN]>
          (<["target_return_3d" := Num (Fin (1 # 100))]>
             (<["target_direction_3d" := Int 0]> ∅)));
     mkRow (timedelta 1) "BTC" "crypto" (Fin 101) (Fin 101) (Fin 101)
       (Fin 101) (Fin 1000)
       (<["rsi" := Num (Fin 55)]>
          (<["target_return_3d" := Num (Fin (2 # 100))]>
             (<["target_direction_3d" := Int 1]> ∅)))].

(** A daily sentiment table with one day, far from the prices above. *)
Definition distant_sentiment : list DailySentiment :=
  [mkDailySentiment (timedelta 400) (Fin (1 # 2)) NaN (Fin (1 # 2))
     (Fin (1 # 2)) 1 (Fin 0)].

Definition distant_trends : list TrendRow :=
  [mkTrendRow (timedelta 400) "BTC" (Fin 80)].

(** Two assets on one day, out of order, with every feature and target
    present. *)
Definition complete_pair : DataFrame :=
  mkDataFrame (schema_cols ++ ["rsi"; "target_return_3d"])
    [mkRow (timedelta 0) "ETH" "crypto" (Fin 10) (Fin 10) (Fin 10) (Fin 10)
       (Fin 1000)
       (<["rsi" := Num (Fin 40)]>
          (<["target_return_3d" := Num (Fin (1 # 100))]> ∅));
     mkRow (timedelta 0) "BTC" "crypto" (Fin 100) (Fin 100) (Fin 100)
       (Fin 100) (Fin 1000)
       (<["rsi" := Num (Fin 60)]>
          (<["target_return_3d" := Num (Fin (2 # 100))]> ∅))].

(** One day of sentiment and one of search interest, on the first day of
    [btc_rise]. *)
Definition same_day_sentiment : list DailySentiment :=
  [mkDailySentiment (timedelta 0) (Fin (1 # 2)) NaN (Fin (1 # 2))
     (Fin (1 # 2)) 1 (Fin 0)].

Definition same_day_trends : list TrendRow :=
  [mkTrendRow (timedelta 0) "BTC" (Fin 80)].

(** Short series of closes and volumes. *)
Definition rising_closes : list float := [Fin 1; Fin 2; Fin 3; Fin 4].
Definition falling_closes : list float := [Fin 4; Fin 3; Fin 2; Fin 1].
Definition mixed_closes : list float := [Fin 100; Fin 102; Fin 101; Fin 104].
Definition some_volumes : list float := [Fin 10; Fin 20; Fin 30; Fin 40].

(** Two articles that kept their positions as labels, and their scores. *)
Definition two_articles : list Article :=
  [mkArticle 0 (timedelta 0); mkArticle 1 (timedelta 0 + 3600)].

Definition two_sentiments : list Sentiment :=
  [mkSentiment (Fin (1 # 2)) "positive"; mkSentiment (Fin (-1)) "negative"].

(** Three articles were read and the first one had no readable date: the
    loader dropped it, and the two others kept the labels 1 and 2.  The
    first of them is of day 0, the second of day 1; the scorer gave them
    1/2 and 1/4. *)
Definition articles_after_drop : list Article :=
  [mkArticle 1 (timedelta 0 + 3600); mkArticle 2 (timedelta 1)].

Definition scores_after_drop : list Sentiment :=
  [mkSentiment (Fin (1 # 2)) "positive"; mkSentiment (Fin (1 # 4)) "positive"].

(** ** Notions used to state the properties *)

(** The thresholds in the words of the specification. *)
Definition threshold_spec (H : Z) : Q :=
  if (H <? 7)%Z then 15 # 1000
  else if (H <? 14)%Z then 2 # 100
  else 3 # 100.

(** The label a row gets from its forward return. *)
Definition direction_of (period : Z) (ret : float) : cell :=
  Int (Z.b2z (fgt ret (Fin (threshold period)))).

(** A row carries a forward return and the label computed from it. *)
Definition labelled (H : Z) (r : Row) : Prop :=
  ∃ x, cellof (target_return_name H) r = Num x
       ∧ cellof (target_direction_name H) r = direction_of H x.

(** The two trailing averages of [calculate_rsi]. *)
Definition rsi_gain (series : list float) (period : nat) : list float :=
  rolling period period fmean
    (where_ (λ d, fgt d (Fin 0)) (Fin 0) (diff 1 series)).

Definition rsi_loss (series : list float) (period : nat) : list float :=
  rolling period period fmean
    (fneg <$> where_ (λ d, flt d (Fin 0)) (Fin 0) (diff 1 series)).

Definition rsi_of_rs (rs : float) : float :=
  fsub (Fin 100) (fdiv (Fin 100) (fadd (Fin 1) rs)).

Definition is_finite (x : float) : Prop :=
  match x with Fin _ => True | _ => False end.

(** A finite value that is not negative. *)
Definition nonneg (x : float) : Prop :=
  match x with Fin q => (0 <= q)%Q | _ => False end.

(** A statement that leaves the rows of a frame of [n] rows in place. *)
Definition keeps_rows (n : nat) (step : DataFrame → DataFrame) : Prop :=
  ∀ d, length (rows d) = n → asset <$> rows (step d) = asset <$> rows d.

(** The number of price observations of an asset. *)
Definition n_obs (a : string) (df : DataFrame) : nat :=
  length (filter (λ r, asset r = a) (rows df)).

(** The assets that pass the length test, in order of first appearance. *)
Definition kept_assets (df : DataFrame) : list string :=
  filter (λ a, 100 ≤ n_obs a df) (unique (asset <$> rows df)).

(** [r'] is [r] up to the cells of the columns [cs]. *)
Definition same_outside (cs : list string) (r r' : Row) : Prop :=
  asset r' = asset r ∧ date r' = date r
  ∧ ∀ c, c ∉ cs → cellof c r' = cellof c r.

(** The sort key of a row. *)
Definition key (r : Row) : string * Z := (asset r, date r).

(** The events as the specification means them: every article with the
    score and the label computed from its own text.  The scorer goes through
    the articles in the order of their rows, so the score of the article in
    row [i] of [df] is row [i] of [sentiment_df], whatever the labels are. *)
Definition own_events (df : list Article) (sentiment_df : list Sentiment)
  : list Event :=
  zip_with (λ a s, mkEvent (art_date a) (sentiment_score s)
                           (Some (sentiment_label s)))
    df sentiment_df.

(** The columns the finalizer neither fills nor checks. *)
Definition unchecked_cols : list string :=
  ["date"; "asset"; "asset_type"; "open"; "high"; "low"; "close"; "volume";
   "market_position"].


(** The eight typed fields of a row. *)
Definition fields (r : Row)
  : Z * string * string * float * float * float * float * float :=
  (date r, asset r, asset_type r, open r, high r, low r, close r, volume r).

(** One row whose cells all come from rows of asset [a] in [src]. *)
Definition sourced_row (src : list Row) (a : string) (r' : Row) : Prop :=
  asset r' = a
  ∧ ∀ c, ∃ r0, r0 ∈ src ∧ asset r0 = a ∧ cellof c r' = cellof c r0.

(** Every cell of every row of [out] is the cell, in the same column, of a
    row of [src] of the same asset. *)
Definition sourced_by_asset (src out : list Row) : Prop :=
  Forall (λ r', ∀ c, ∃ r0, r0 ∈ src ∧ asset r0 = asset r'
                           ∧ cellof c r' = cellof c r0) out.

(** No target cell and no feature cell of the table is missing. *)
Definition complete_table (df : DataFrame) : Prop :=
  ∀ r c, r ∈ rows df →
         c ∈ target_cols_of (columns df) ++ feature_cols_of (columns df) →
         is_na (cellof c r) = false.

(** The names of the label columns, in the order they are created. *)
Definition target_names : list string :=
  FORWARD_PERIODS ≫= λ p, [target_return_name p; target_direction_name p].

(** The columns the two merges add, in the order of the dictionaries. *)
Definition sentiment_names : list string :=
  ["sentiment_mean_7d"; "sentiment_std_7d"; "sentiment_trend_7d";
   "stress_index_7d"].

Definition trends_names : list string :=
  ["trends_interest_mean_7d"; "trends_interest_max_7d";
   "trends_interest_min_7d"; "trends_interest_std_7d";
   "trends_interest_trend_7d"; "trends_interest_current"].

(** A statement that leaves the typed fields of a frame of [n] rows in
    place. *)
Definition keeps_fields (n : nat) (step : DataFrame → DataFrame) : Prop :=
  ∀ d, length (rows d) = n → fields <$> rows (step d) = fields <$> rows d.

(** A statement after which the frame has the columns [names] besides the
    ones it had. *)
Definition adds_columns (names : list string) (step : DataFrame → DataFrame)
  : Prop :=
  ∀ d c, c ∈ columns (step d) ↔ c ∈ columns d ∨ c ∈ names.

(** The columns the Indicator Engine adds, statement by statement. *)
Definition indicator_names_by_step : list (list string) :=
  [["rsi"]; ["macd"; "macd_signal"; "macd_histogram"];
   ["bb_upper"; "bb_middle"; "bb_lower"; "bb_width"; "bb_position"];
   ["ma_7"; "ma_30"; "ma_90"]; ["ma_cross_short_medium"]; ["volatility"];
   ["returns_1d"]; ["returns_7d"]; ["returns_30d"];
   ["volume_ma"; "volume_ratio"; "obv"]; ["momentum_7d"]; ["momentum_30d"];
   ["dist_from_ma_short"]; ["dist_from_ma_medium"]].

Definition indicator_names : list string := mjoin indicator_names_by_step.

(** The rows of one asset, by date. *)
Definition asset_rows_by_date (a : string) (df : DataFrame) : list Row :=
  sort_by (λ r1 r2, (date r1 <=? date r2)%Z)
    (filter (λ r, asset r = a) (rows df)).

(** A finite value between two bounds. *)
Definition within (lo hi : Q) (x : float) : Prop :=
  match x with Fin q => (lo <= q)%Q ∧ (q <= hi)%Q | _ => False end.

(** A finite value above zero. *)
Definition positive (x : float) : Prop :=
  match x with Fin q => (0 < q)%Q | _ => False end.

(** Every close is above (below) the one of the row before. *)
Definition rising (series : list float) : Prop :=
  ∀ i x y, series !! i = Some (Fin x) → series !! S i = Some (Fin y) →
           (x < y)%Q.

Definition falling (series : list float) : Prop :=
  ∀ i x y, series !! i = Some (Fin x) → series !! S i = Some (Fin y) →
           (y < x)%Q.

(** The dictionary of the detector without the keywords that contain
    another keyword of the same asset. *)
Definition ASSETS_minimal : list (string * list string) :=
  [("BTC", ["bitcoin"; "btc"; "crypto"]);
   ("ETH", ["eth"]);
   ("MC.PA", ["lvmh"; "louis vuitton"; "luxe"]);
   ("RMS.PA", ["hermès"; "hermes"]);
   ("TTE.PA", ["total"; "énergie"; "pétrole"]);
   ("ENGI.PA", ["engie"; "gaz"; "électricité"]);
   ("BNP.PA", ["bnp"; "banque"]);
   ("GLE.PA", ["société générale"; "socgen"; "societe generale"]);
   ("CAP.PA", ["capgemini"; "tech"]);
   ("SU.PA", ["schneider"; "industrie"])].

(** Whether a statement raises [KeyError], and the column names it leaves,
    are decided by the column names of the frame alone. *)
Definition cols_only (step : DataFrame → option DataFrame) : Prop :=
  ∀ d d', columns d = columns d' → columns <$> step d = columns <$> step d'.

(** The same for a total statement. *)
Definition cols_only_total (step : DataFrame → DataFrame) : Prop :=
  ∀ d d', columns d = columns d' → columns (step d) = columns (step d').

(** Whether a column expression raises [KeyError] is decided by the column
    names of the frame alone. *)
Definition defined_by_cols {A} (e : DataFrame → option A) : Prop :=
  ∀ d d', columns d = columns d' → is_Some (e d) → is_Some (e d').

(** A frame with the given column names and no row. *)
Definition empty_frame (cs : list string) : DataFrame := mkDataFrame cs [].

(** The columns [engineer_additional_features] adds, in order, with
    ([has_ms]) or without the sentiment columns and with ([has_gt]) or
    without the search-interest columns in the frame. *)
Definition engineered_names (has_ms has_gt : bool) : list string :=
  (if has_ms
   then ["sentiment_rsi_interaction"; "sentiment_volatility_interaction"]
   else [])
  ++ (if has_gt
      then ["trends_rsi_interaction"; "trends_volatility_interaction";
            "trends_momentum_interaction"]
           ++ (if has_ms then ["trends_sentiment_combined"] else [])
           ++ ["trends_spike"]
      else [])
  ++ ["momentum_3d"; "momentum_14d"; "momentum_21d"; "volatility_7d";
      "volatility_30d"; "volatility_regime"; "price_to_ma7"; "price_to_ma30";
      "rsi_change_3d"; "rsi_ma"; "volume_surge"; "volume_trend";
      "returns_positive"; "trend_days_7d"; "return_7d_relative";
      "volume_to_volatility"; "trend_strength"; "rsi_extreme_oversold";
      "rsi_extreme_overbought"; "rsi_recovery"; "rsi_breakdown";
      "volume_spike_2x"; "volume_spike_3x"; "volume_with_price_up";
      "volume_with_price_down"; "bb_lower_touch"; "bb_upper_touch";
      "bb_squeeze_extreme"]
  ++ (if has_ms
      then ["sentiment_extreme_positive"; "sentiment_extreme_negative";
            "sentiment_stress_high"]
      else [])
  ++ ["returns_1d_lag1"; "returns_1d_lag2"; "returns_1d_lag3";
      "volatility_lag1"; "rsi_lag1"; "momentum_divergence";
      "bullish_confluence"; "bearish_confluence"; "momentum_score";
      "market_position"; "is_oversold"; "is_overbought"].

(** The engineered features that are computed from a sentiment column, and
    the ones computed from a search-interest column. *)
Definition sentiment_engineered : list string :=
  ["sentiment_rsi_interaction"; "sentiment_volatility_interaction";
   "trends_sentiment_combined"; "sentiment_extreme_positive";
   "sentiment_extreme_negative"; "sentiment_stress_high"].

Definition trends_engineered : list string :=
  ["trends_rsi_interaction"; "trends_volatility_interaction";
   "trends_momentum_interaction"; "trends_sentiment_combined";
   "trends_spike"].

(** The columns of the final dataset. *)
Definition final_columns (has_ms has_gt : bool) : list string :=
  meta_cols ++ price_cols ++ indicator_names
  ++ (if has_ms then sentiment_names else [])
  ++ (if has_gt then trends_names else [])
  ++ engineered_names has_ms has_gt ++ target_names.

(** The columns of the frame the engineered features are computed on. *)
Definition merged_columns (has_ms has_gt : bool) : list string :=
  meta_cols ++ price_cols ++ indicator_names ++ target_names
  ++ (if has_ms then sentiment_names else [])
  ++ (if has_gt then trends_names else []).

(** A column expression gives one value per row. *)
Definition full_length {A} (e : DataFrame → option (list A)) : Prop :=
  ∀ d xs, e d = Some xs → length xs = length (rows d).

(** A statement that, when it does not raise, keeps the rows and their
    typed fields, writes no column outside [names] and creates no column
    outside [names]. *)
Definition step_frame (names : list string)
    (step : DataFrame → option DataFrame) : Prop :=
  ∀ d d', step d = Some d' →
    fields <$> rows d' = fields <$> rows d
    ∧ (∀ c, c ∉ names → column c d' = column c d)
    ∧ (∀ c, c ∈ columns d' → c ∈ columns d ∨ c ∈ names).

(** The statements of [engineer_additional_features], as a list. *)
Definition engineer_steps : list (DataFrame → option DataFrame) :=
  ltac:(let t := eval cbv delta [engineer_additional_features]
                 in engineer_additional_features in
        match t with
        | (fun df => run_steps ?l df) => exact l
        end).

(** The columns each of these statements can write. *)
Definition engineered_names_by_step : list (list string) :=
  [["sentiment_rsi_interaction"; "sentiment_volatility_interaction"];
   ["trends_rsi_interaction"; "trends_volatility_interaction";
    "trends_momentum_interaction"; "trends_sentiment_combined";
    "trends_spike"];
   ["momentum_3d"]; ["momentum_14d"]; ["momentum_21d"]; ["volatility_7d"];
   ["volatility_30d"]; ["volatility_regime"]; ["price_to_ma7"];
   ["price_to_ma30"]; ["rsi_change_3d"]; ["rsi_ma"]; ["volume_surge"];
   ["volume_trend"]; ["returns_positive"]; ["trend_days_7d"];
   ["return_7d_relative"]; ["volume_to_volatility"]; ["trend_strength"];
   ["rsi_extreme_oversold"]; ["rsi_extreme_overbought"]; ["rsi_recovery"];
   ["rsi_breakdown"]; ["volume_spike_2x"]; ["volume_spike_3x"];
   ["volume_with_price_up"]; ["volume_with_price_down"]; ["bb_lower_touch"];
   ["bb_upper_touch"]; ["bb_squeeze_extreme"];
   ["sentiment_extreme_positive"; "sentiment_extreme_negative";
    "sentiment_stress_high"];
   ["returns_1d_lag1"]; ["returns_1d_lag2"]; ["returns_1d_lag3"];
   ["volatility_lag1"]; ["rsi_lag1"]; ["momentum_divergence"];
   ["bullish_confluence"]; ["bearish_confluence"]; ["momentum_score"];
   ["market_position"; "is_oversold"; "is_overbought"]].

(** The value of a column expression is a function [F] of the typed fields
    and of the columns [xs] of the frame it is evaluated on. *)
Definition reads {A} (e : DataFrame → option (list A))
    (F : DataFrame → list A) (xs : list string) : Prop :=
  ∀ dk d, fields <$> rows dk = fields <$> rows d →
          (∀ x, x ∈ xs → column x dk = column x d) →
          ∀ vals, e dk = Some vals → vals = F d.


(** The numeric value of a column at a row. *)
Definition num (c : string) (r : Row) : float := cell_float (cellof c r).


(** * Properties *)

(** ** Tables: reading a cell after an assignment *)

Lemma cellof_set_cell_eq c v r : cellof c (set_cell c v r) = v.
Proof. unfold cellof, set_cell; simpl. by rewrite lookup_insert_eq. Qed.

Lemma cellof_set_cell_ne c c' v r :
  c ≠ c' → cellof c (set_cell c' v r) = cellof c r.
Proof. intros Hne. unfold cellof, set_cell; simpl. by rewrite lookup_insert_ne. Qed.

Lemma rows_set_column_length c vals df :
  length vals = length (rows df) →
  length (rows (set_column c vals df)) = length (rows df).
Proof. intros Hlen. simpl. rewrite length_zip_with. lia. Qed.

Lemma lookup_set_column c vals df i r' :
  rows (set_column c vals df) !! i = Some r' →
  ∃ v r, vals !! i = Some v ∧ rows df !! i = Some r ∧ r' = set_cell c v r.
Proof.
  simpl. intros H. apply lookup_zip_with_Some in H as (v & r & -> & Hv & Hr).
  eauto.
Qed.

Lemma length_groupby_transform {K} `{EqDecision K} (keys : list K) xs f :
  length (groupby_transform keys xs f) = length keys.
Proof. unfold groupby_transform. by rewrite length_imap. Qed.

Lemma column_set_column_eq c vals df :
  length vals = length (rows df) → column c (set_column c vals df) = vals.
Proof.
  intros Hlen. unfold column; simpl. apply list_eq; intros i.
  rewrite list_lookup_fmap, lookup_zip_with.
  destruct (vals !! i) as [v|] eqn:Hv; simpl.
  - destruct (lookup_lt_is_Some_2 (rows df) i) as [r Hr].
    { apply lookup_lt_Some in Hv. lia. }
    rewrite Hr; simpl. by rewrite cellof_set_cell_eq.
  - done.
Qed.

Lemma column_set_column_ne c c' vals df :
  c ≠ c' → length vals = length (rows df) →
  column c (set_column c' vals df) = column c df.
Proof.
  intros Hne Hlen. unfold column; simpl. apply list_eq; intros i.
  rewrite !list_lookup_fmap, lookup_zip_with.
  destruct (rows df !! i) as [r|] eqn:Hr; simpl.
  - destruct (lookup_lt_is_Some_2 vals i) as [v Hv].
    { apply lookup_lt_Some in Hr. lia. }
    rewrite Hv; simpl. by rewrite cellof_set_cell_ne.
  - by destruct (vals !! i).
Qed.

Lemma length_column c df : length (column c df) = length (rows df).
Proof. unfold column. by rewrite length_fmap. Qed.

(** ** [unique] and [sort_by] *)

Section unique.
Context {A : Type} `{EqDecision A}.
Implicit Types l : list A.

Lemma elem_of_unique l x : x ∈ unique l ↔ x ∈ l.
Proof.
  induction l as [|y l IH]; simpl; [done|].
  rewrite !elem_of_cons, list_elem_of_filter, IH.
  destruct (decide (x = y)); naive_solver.
Qed.

Lemma NoDup_unique l : NoDup (unique l).
Proof.
  induction l as [|y l IH]; simpl; constructor.
  - rewrite list_elem_of_filter. naive_solver.
  - by apply NoDup_filter.
Qed.

(** In a duplicate-free list, selecting one value gives at most it. *)
Lemma filter_eq_NoDup l x :
  NoDup l → filter (λ y, y = x) l = if decide (x ∈ l) then [x] else [].
Proof.
  induction 1 as [|y l Hy Hnd IH]; [done|].
  destruct (decide (y = x)) as [->|Hne].
  - rewrite filter_cons_True by done. rewrite IH.
    rewrite decide_False by done. rewrite decide_True by (apply elem_of_cons; by left).
    done.
  - rewrite filter_cons_False by done. rewrite IH.
    destruct (decide (x ∈ l)) as [Hin|Hin].
    + by rewrite decide_True by (apply elem_of_cons; by right).
    + rewrite decide_False; [done|]. rewrite elem_of_cons. naive_solver.
Qed.
End unique.

Lemma filter_fmap {A B} (f : A → B) (P : B → Prop) `{∀ y, Decision (P y)}
    (l : list A) :
  filter P (f <$> l) = f <$> filter (λ x, P (f x)) l.
Proof.
  induction l as [|x l IH]; [done|]. rewrite fmap_cons.
  destruct (decide (P (f x))).
  - rewrite !filter_cons_True by done. by rewrite fmap_cons, IH.
  - by rewrite !filter_cons_False by done.
Qed.

Section filter_all_none.
Context {A : Type} (P : A → Prop) `{∀ x, Decision (P x)}.

Lemma filter_all (l : list A) : Forall P l → filter P l = l.
Proof.
  induction 1 as [|x l Hx _ IH]; [done|].
  by rewrite filter_cons_True, IH.
Qed.

Lemma filter_none (l : list A) : Forall (λ x, ¬ P x) l → filter P l = [].
Proof.
  induction 1 as [|x l Hx _ IH]; [done|].
  by rewrite filter_cons_False.
Qed.
End filter_all_none.

Section sort_by.
Context {A : Type} (le : A → A → bool).
Implicit Types l : list A.

Lemma insert_sorted_Permutation x l : insert_sorted le x l ≡ₚ x :: l.
Proof.
  induction l as [|y l IH]; simpl; [done|].
  destruct (le x y); [done|]. rewrite IH. apply Permutation_swap.
Qed.

Lemma sort_by_Permutation l : sort_by le l ≡ₚ l.
Proof.
  induction l as [|x l IH]; simpl; [done|].
  by rewrite insert_sorted_Permutation, IH.
Qed.

Lemma elem_of_sort_by l x : x ∈ sort_by le l ↔ x ∈ l.
Proof. by rewrite sort_by_Permutation. Qed.

Lemma length_sort_by l : length (sort_by le l) = length l.
Proof. by rewrite sort_by_Permutation. Qed.

Hypothesis le_total : ∀ x y, le x y = true ∨ le y x = true.
Hypothesis le_trans : ∀ x y z, le x y = true → le y z = true → le x z = true.

Lemma insert_sorted_StronglySorted x l :
  StronglySorted (λ a b, le a b = true) l →
  StronglySorted (λ a b, le a b = true) (insert_sorted le x l).
Proof.
  induction 1 as [|y l Hs IH Hall]; simpl.
  - repeat constructor.
  - destruct (le x y) eqn:Hxy.
    + constructor; [by constructor|]. constructor; [done|].
      eapply Forall_impl; [done|]. simpl. eauto.
    + constructor; [done|].
      rewrite insert_sorted_Permutation. constructor; [|done].
      destruct (le_total x y); congruence.
Qed.

Lemma sort_by_StronglySorted l :
  StronglySorted (λ a b, le a b = true) (sort_by le l).
Proof.
  induction l; simpl; [constructor|]. by apply insert_sorted_StronglySorted.
Qed.
End sort_by.

Lemma StronglySorted_weaken {A} (R1 R2 : A → A → Prop) (l : list A) :
  (∀ a b, R1 a b → R2 a b) → StronglySorted R1 l → StronglySorted R2 l.
Proof.
  intros HR. induction 1 as [|a l _ IH Hall]; constructor; [exact IH|].
  eapply Forall_impl; [exact Hall|]. intros b. apply HR.
Qed.

(** The insertion sort by date is one of the sorts a [DateSort] stands
    for. *)
Lemma sort_by_date_sorted (rs : list Row) :
  StronglySorted (λ r1 r2, (date r1 ≤ date r2)%Z)
    (sort_by (λ r1 r2, (date r1 <=? date r2)%Z) rs).
Proof.
  apply (StronglySorted_weaken (λ r1 r2, (date r1 <=? date r2)%Z = true)).
  - intros r1 r2. apply Z.leb_le.
  - apply sort_by_StronglySorted.
    + intros r1 r2. rewrite !Z.leb_le. lia.
    + intros r1 r2 r3. rewrite !Z.leb_le. lia.
Qed.

Lemma sort_by_date_Permutation (rs : list Row) :
  sort_by (λ r1 r2, (date r1 <=? date r2)%Z) rs ≡ₚ rs.
Proof. apply sort_by_Permutation. Qed.

(** ** Label Generator: [create_targets] *)

Lemma threshold_spec_eq H : threshold H = threshold_spec H.
Proof.
  unfold threshold, threshold_spec.
  repeat case_match; try reflexivity; lia.
Qed.

Lemma threshold_pos H : (0 < threshold H)%Q.
Proof. unfold threshold. repeat case_match; reflexivity. Qed.

Arguments fgt : simpl never.
Arguments flt : simpl never.

Lemma flt_fgt_threshold period x :
  flt x (fneg (Fin (threshold period))) = true →
  fgt x (Fin (threshold period)) = false.
Proof.
  pose proof (threshold_pos period) as Hpos.
  unfold fgt, flt. destruct x as [q| | |]; simpl; try done.
  unfold Qlt_bool. rewrite !negb_true_iff, negb_false_iff.
  intros Hlt. apply Qle_bool_iff.
  destruct (Qlt_le_dec q (- threshold period)) as [Hq|Hq].
  - lra.
  - apply Qle_bool_iff in Hq. congruence.
Qed.

(** The second assignment, [df[direction][df[return] < -threshold] = 0],
    never changes a label. *)
Lemma chained_assignment_noop period x :
  (if flt x (fneg (Fin (threshold period))) then Int 0
   else direction_of period x) = direction_of period x.
Proof.
  destruct (flt x _) eqn:Hlt; [|done].
  unfold direction_of. by rewrite (flt_fgt_threshold _ _ Hlt).
Qed.

Lemma target_names_differ p q :
  target_return_name p ≠ target_direction_name q.
Proof. unfold target_return_name, target_direction_name. discriminate. Qed.

(** One turn of the loop: the two new cells of a row, and the rest of the
    row unchanged. *)
Lemma create_targets_step_row df period i r' :
  rows (create_targets_step df period) !! i = Some r' →
  ∃ r x,
    rows df !! i = Some r
    ∧ cellof (target_return_name period) r' = Num x
    ∧ cellof (target_direction_name period) r' = direction_of period x
    ∧ (∀ c, c ≠ target_return_name period →
            c ≠ target_direction_name period → cellof c r' = cellof c r).
Proof.
  pose proof (target_names_differ period period) as Hne.
  set (ret := groupby_transform (asset <$> rows df) (close <$> rows df)
                (pct_change (- period))).
  assert (length (Num <$> ret) = length (rows df)) as Hlen1.
  { unfold ret. by rewrite length_fmap, length_groupby_transform, length_fmap. }
  unfold create_targets_step. cbv zeta. fold ret.
  rewrite (column_set_column_eq _ _ df Hlen1).
  set (df1 := set_column (target_return_name period) (Num <$> ret) df).
  assert (length (rows df1) = length (rows df)) as Hrows1
    by by apply rows_set_column_length.
  set (v2 := _ <$> (Num <$> ret)).
  assert (length v2 = length (rows df1)) as Hlen2.
  { unfold v2. rewrite length_fmap. lia. }
  rewrite (column_set_column_eq _ _ df1 Hlen2).
  rewrite (column_set_column_ne _ _ _ df1 Hne Hlen2).
  unfold df1 at 1. rewrite (column_set_column_eq _ _ df Hlen1).
  intros H.
  apply lookup_set_column in H as (v3 & r2 & Hv3 & Hr2 & ->).
  apply lookup_set_column in Hr2 as (w2 & r1 & Hw2 & Hr1 & ->).
  apply lookup_set_column in Hr1 as (w1 & r & Hw1 & Hr & ->).
  apply lookup_zip_with_Some in Hv3 as (d & cr & -> & Hd & Hcr).
  apply list_lookup_fmap_Some in Hw1 as (x & -> & Hx).
  unfold v2 in Hd, Hw2. rewrite <- list_fmap_compose in Hd, Hw2.
  rewrite list_lookup_fmap, Hx in Hd, Hw2. rewrite list_lookup_fmap, Hx in Hcr.
  simpl in Hd, Hw2, Hcr. simplify_eq.
  exists r, x. split; [done|]. split; [|split].
  - by rewrite 2!cellof_set_cell_ne, cellof_set_cell_eq.
  - rewrite cellof_set_cell_eq. apply chained_assignment_noop.
  - intros c Hc1 Hc2. by rewrite !cellof_set_cell_ne.
Qed.

Lemma create_targets_step_labels df period i r' :
  rows (create_targets_step df period) !! i = Some r' → labelled period r'.
Proof.
  intros H. apply create_targets_step_row in H as (r & x & _ & Hret & Hdir & _).
  by exists x.
Qed.

Lemma create_targets_step_keeps df period H i r' :
  target_return_name H ≠ target_return_name period →
  target_direction_name H ≠ target_direction_name period →
  rows (create_targets_step df period) !! i = Some r' →
  ∃ r, rows df !! i = Some r ∧ (labelled H r → labelled H r').
Proof.
  intros Hret Hdir Hrow.
  apply create_targets_step_row in Hrow as (r & _ & Hr & _ & _ & Hsame).
  exists r. split; [done|]. intros (x & Hx1 & Hx2). exists x.
  pose proof (target_names_differ H period).
  pose proof (target_names_differ period H).
  split; rewrite Hsame; auto.
Qed.

Ltac names_differ :=
  vm_compute; intros Heq; discriminate Heq.

Lemma create_targets_labelled df H i r :
  H ∈ FORWARD_PERIODS →
  rows (create_targets df FORWARD_PERIODS) !! i = Some r →
  labelled H r.
Proof.
  intros HH Hrow.
  change (create_targets df FORWARD_PERIODS)
    with (create_targets_step
            (create_targets_step (create_targets_step df 3) 7) 14) in Hrow.
  assert (H = 3 ∨ H = 7 ∨ H = 14)%Z as [->|[->| ->]].
  { unfold FORWARD_PERIODS in HH.
    rewrite !elem_of_cons, elem_of_nil in HH. tauto. }
  - apply (create_targets_step_keeps _ _ 3%Z) in Hrow as (r2 & Hr2 & Hk2);
      [|names_differ..].
    apply (create_targets_step_keeps _ _ 3%Z) in Hr2 as (r1 & Hr1 & Hk1);
      [|names_differ..].
    apply Hk2, Hk1. by eapply create_targets_step_labels.
  - apply (create_targets_step_keeps _ _ 7%Z) in Hrow as (r2 & Hr2 & Hk2);
      [|names_differ..].
    apply Hk2. by eapply create_targets_step_labels.
  - by eapply create_targets_step_labels.
Qed.

Lemma fgt_irrefl_eq x y : float_eq x y → fgt x y = false.
Proof.
  unfold fgt, flt. destruct x, y; simpl; try done.
  intros Heq. unfold Qlt_bool. apply negb_false_iff, Qle_bool_iff.
  rewrite Heq. apply Qle_refl.
Qed.

Lemma fle_not_fgt x y : fle x y = true → fgt x y = false.
Proof.
  unfold fle, fgt, flt, feqb. destruct x, y; simpl; try done.
  unfold Qlt_bool. intros H. apply negb_false_iff, Qle_bool_iff.
  apply orb_true_iff in H as [H|H].
  - apply negb_true_iff in H.
    destruct (Qlt_le_dec q q0) as [Hlt|Hle]; [by apply Qlt_le_weak|].
    apply Qle_bool_iff in Hle. congruence.
  - apply Qeq_bool_iff in H. rewrite H. apply Qle_refl.
Qed.

(** C2.  For every horizon H of the pipeline and every row, the direction
    label is 1 exactly when the forward return is strictly above
    threshold(H) (0.015 below 7 days, 0.02 from 7, 0.03 from 14); a return
    equal to the threshold, a return below -threshold and a return inside
    the band [-threshold, +threshold] are all labelled 0. *)
Theorem direction_is_one_iff_return_above_threshold df H i r :
  H ∈ FORWARD_PERIODS →
  rows (create_targets df FORWARD_PERIODS) !! i = Some r →
  let ret := cell_float (cellof (target_return_name H) r) in
  let dir := cellof (target_direction_name H) r in
  let thr := Fin (threshold_spec H) in
  (dir = Int 1 ↔ fgt ret thr = true)
  ∧ (float_eq ret thr → dir = Int 0)
  ∧ (flt ret (fneg thr) = true → dir = Int 0)
  ∧ (fle (fneg thr) ret = true → fle ret thr = true → dir = Int 0).
Proof.
  intros HH Hrow.
  destruct (create_targets_labelled _ _ _ _ HH Hrow) as (x & Hret & Hdir).
  cbv zeta. rewrite Hret, Hdir, <- threshold_spec_eq. simpl cell_float.
  unfold direction_of. repeat split.
  - destruct (fgt x _); [done|discriminate].
  - by intros ->.
  - intros Heq. by rewrite fgt_irrefl_eq.
  - intros Hlt. by rewrite flt_fgt_threshold.
  - intros _ Hle. by rewrite fle_not_fgt.
Qed.

(** C10.  Every direction label is 0 or 1; a row whose forward return is
    missing (NaN) is labelled 0. *)
Theorem direction_is_binary_and_zero_on_nan df H i r :
  H ∈ FORWARD_PERIODS →
  rows (create_targets df FORWARD_PERIODS) !! i = Some r →
  let dir := cellof (target_direction_name H) r in
  (dir = Int 0 ∨ dir = Int 1)
  ∧ (is_na (cellof (target_return_name H) r) = true → dir = Int 0).
Proof.
  intros HH Hrow.
  destruct (create_targets_labelled _ _ _ _ HH Hrow) as (x & Hret & Hdir).
  cbv zeta. rewrite Hret, Hdir. unfold direction_of. split.
  - destruct (fgt x _); auto.
  - simpl. by destruct x.
Qed.

(** ** Feature Composer: the lag-window merges *)

Lemma lookup_concat_features df (g : Row → list (string * float)) i r :
  rows df !! i = Some r →
  rows (concat_features df (g <$> rows df)) !! i
  = Some (foldl (λ r kv, set_cell kv.1 (Num kv.2) r) r (g r)).
Proof.
  intros Hr. simpl. by rewrite lookup_zip_with, list_lookup_fmap, Hr.
Qed.

Ltac read_cell :=
  repeat first
    [ rewrite cellof_set_cell_eq
    | rewrite cellof_set_cell_ne by discriminate ].

Lemma sentiment_defaults ms lag r :
  sentiment_lag_window ms (date r) lag = [] →
  sentiment_row_features ms lag r
  = [("sentiment_mean_7d", Fin 0); ("sentiment_std_7d", Fin 0);
     ("sentiment_trend_7d", Fin 0); ("stress_index_7d", Fin 0)].
Proof. intros Hw. unfold sentiment_row_features. by rewrite Hw. Qed.

Lemma trends_defaults tr lag r :
  trends_lag_window tr (asset r) (date r) lag = [] →
  trends_row_features tr lag r
  = [("trends_interest_mean_7d", Fin 50); ("trends_interest_max_7d", Fin 50);
     ("trends_interest_min_7d", Fin 50); ("trends_interest_std_7d", Fin 0);
     ("trends_interest_trend_7d", Fin 0); ("trends_interest_current", Fin 50)].
Proof. intros Hw. unfold trends_row_features. by rewrite Hw. Qed.

(** C3.  When the auxiliary table is there but no point of it falls in the
    lag window [date - lag days, date] of a row, the merge gives the row the
    value 0 in every sentiment feature, and the value 50 in the mean, max,
    min and current search-interest features (0 in their std and trend):
    numbers, never NaN. *)
Theorem empty_lag_window_gets_defaults df ms tr lag i r :
  rows df !! i = Some r →
  (sentiment_lag_window ms (date r) lag = [] →
   ∃ r', rows (merge_sentiment_features df (Some ms) lag) !! i = Some r'
     ∧ cellof "sentiment_mean_7d" r' = Num (Fin 0)
     ∧ cellof "sentiment_std_7d" r' = Num (Fin 0)
     ∧ cellof "sentiment_trend_7d" r' = Num (Fin 0)
     ∧ cellof "stress_index_7d" r' = Num (Fin 0))
  ∧ (trends_lag_window tr (asset r) (date r) lag = [] →
     ∃ r', rows (merge_google_trends df (Some tr) lag) !! i = Some r'
       ∧ cellof "trends_interest_mean_7d" r' = Num (Fin 50)
       ∧ cellof "trends_interest_max_7d" r' = Num (Fin 50)
       ∧ cellof "trends_interest_min_7d" r' = Num (Fin 50)
       ∧ cellof "trends_interest_current" r' = Num (Fin 50)
       ∧ cellof "trends_interest_std_7d" r' = Num (Fin 0)
       ∧ cellof "trends_interest_trend_7d" r' = Num (Fin 0)).
Proof.
  intros Hr. split; intros Hw; eexists; (split; [by apply lookup_concat_features|]).
  - rewrite (sentiment_defaults _ _ _ Hw). simpl. by read_cell.
  - rewrite (trends_defaults _ _ _ Hw). simpl. by read_cell.
Qed.

(** ** Sentiment Aggregator: [calculate_market_sentiment] *)

Lemma ms_date_with_stress_index r : ms_date (with_stress_index r) = ms_date r.
Proof. done. Qed.

Lemma events_on_nonempty d evs :
  events_on d evs ≠ [] ↔ d ∈ (λ e, dt_date (ev_date e)) <$> evs.
Proof.
  unfold events_on. rewrite list_elem_of_fmap. split.
  - destruct (filter _ evs) as [|e g] eqn:Hg; [done|]. intros _.
    assert (e ∈ filter (λ e, dt_date (ev_date e) = d) evs) as He
      by (rewrite Hg; (apply elem_of_cons; by left)).
    apply list_elem_of_filter in He as [<- He]. eauto.
  - intros (e & -> & He) Hnil.
    by apply (filter_nil_not_elem_of _ _ e) in Hnil.
Qed.

(** A single observation has no sample deviation. *)
Lemma sstd_single_event (scores : list float) :
  length scores = 1%nat → sstd scores = NaN.
Proof.
  destruct scores as [|x [|]]; try done. intros _.
  unfold sstd, dropna. destruct (notna x) eqn:Hx.
  - rewrite filter_cons_True; [reflexivity|]. by apply Is_true_true.
  - rewrite filter_cons_False; [reflexivity|]. by apply Is_true_false.
Qed.

(** The rows of the daily table for one date. *)
Lemma daily_rows_of_date df sentiment_df d :
  let evs := df_with_sentiment df sentiment_df in
  filter (λ r, ms_date r = d) (calculate_market_sentiment df sentiment_df)
  = if decide (events_on d evs ≠ [])
    then [with_stress_index (aggregate_day d (events_on d evs))]
    else [].
Proof.
  intros evs. unfold calculate_market_sentiment. fold evs.
  rewrite <- list_fmap_compose, filter_fmap. simpl.
  set (days := sort_by Z.leb _).
  assert (NoDup days) as Hnd.
  { unfold days. rewrite sort_by_Permutation. apply NoDup_unique. }
  rewrite (filter_eq_NoDup days d Hnd).
  assert (d ∈ days ↔ events_on d evs ≠ []) as Hin.
  { unfold days. by rewrite elem_of_sort_by, elem_of_unique, events_on_nonempty. }
  destruct (decide (d ∈ days)), (decide (events_on d evs ≠ [])); naive_solver.
Qed.

(** When the labels of the articles are their positions and every article
    has a score, the concatenation pairs every article with its own score. *)
Lemma df_with_sentiment_own_events df sentiment_df :
  (∀ i a, df !! i = Some a → art_index a = i) →
  length sentiment_df = length df →
  df_with_sentiment df sentiment_df = own_events df sentiment_df.
Proof.
  intros Hlabels Hlen. apply list_eq. intros i.
  unfold df_with_sentiment, own_events.
  rewrite list_lookup_fmap, lookup_zip_with.
  destruct (df !! i) as [a|] eqn:Ha; [|done]. simpl.
  rewrite (Hlabels i a Ha).
  destruct (lookup_lt_is_Some_2 sentiment_df i) as [s ->]; [|done].
  rewrite Hlen. by eapply lookup_lt_Some.
Qed.

(** C8.  Three articles, the first without a readable date: the loader
    drops it, the two others keep the labels 1 and 2, and their scores 1/2
    and 1/4 are rows 0 and 1 of the score table.  For day 0, whose only
    article scored 1/2, the daily table holds the mean, minimum and maximum
    1/4, the score of the other article.  For day 1, whose only article
    scored 1/4 with the label positive, it holds no mean, minimum or
    maximum and the balance 0. *)
Theorem daily_sentiment_takes_scores_of_other_articles :
  calculate_market_sentiment articles_after_drop scores_after_drop
  = [mkDailySentiment (timedelta 0) (Fin (1 # 4)) NaN (Fin (1 # 4))
       (Fin (1 # 4)) 1 (Fin 0);
     mkDailySentiment (timedelta 1) NaN NaN NaN NaN 0 (Fin 0)]
  ∧ (let g := events_on (timedelta 0)
                (own_events articles_after_drop scores_after_drop) in
     ev_score <$> g = [Fin (1 # 2)]
     ∧ smean (ev_score <$> g) = Fin (1 # 2)
     ∧ smin (ev_score <$> g) = Fin (1 # 2)
     ∧ smax (ev_score <$> g) = Fin (1 # 2))
  ∧ (let g := events_on (timedelta 1)
                (own_events articles_after_drop scores_after_drop) in
     ev_score <$> g = [Fin (1 # 4)]
     ∧ smean (ev_score <$> g) = Fin (1 # 4)
     ∧ smin (ev_score <$> g) = Fin (1 # 4)
     ∧ smax (ev_score <$> g) = Fin (1 # 4)
     ∧ (count_label "positive" g - count_label "negative" g = 1)%Z).
Proof. by vm_compute. Qed.

(** ** Series operations keep the length of the series *)

Lemma length_shift n xs : length (shift n xs) = length xs.
Proof. unfold shift. by rewrite length_imap. Qed.

Lemma length_ffill_from last xs : length (ffill_from last xs) = length xs.
Proof.
  revert last. induction xs as [|x xs IH]; intros last; simpl; [done|].
  destruct (isnan x); simpl; by rewrite IH.
Qed.

Lemma length_ffill xs : length (ffill xs) = length xs.
Proof. apply length_ffill_from. Qed.

Lemma length_pct_change n xs : length (pct_change n xs) = length xs.
Proof.
  unfold pct_change. rewrite length_zip_with, length_shift, length_ffill. lia.
Qed.

Lemma length_diff n xs : length (diff n xs) = length xs.
Proof. unfold diff. rewrite length_zip_with, length_shift. lia. Qed.

Lemma length_where_ cond other xs : length (where_ cond other xs) = length xs.
Proof. unfold where_. by rewrite length_map. Qed.

Lemma length_rolling w minp agg xs : length (rolling w minp agg xs) = length xs.
Proof. unfold rolling. by rewrite length_imap. Qed.

Lemma length_fillna v xs : length (fillna v xs) = length xs.
Proof. unfold fillna. by rewrite length_map. Qed.

Lemma length_cumsum xs : length (cumsum xs) = length xs.
Proof.
  unfold cumsum. generalize (Fin 0).
  induction xs as [|x xs IH]; intros acc; simpl; [done|].
  destruct (isnan x); simpl; by rewrite IH.
Qed.

Lemma length_ewm_go alpha weighted old_wt xs :
  length (ewm_go alpha weighted old_wt xs) = length xs.
Proof.
  revert weighted old_wt.
  induction xs as [|x xs IH]; intros weighted old_wt; simpl; [done|].
  destruct (notna weighted), (notna x); simpl; by rewrite IH.
Qed.

Lemma length_ewm_mean span xs : length (ewm_mean span xs) = length xs.
Proof.
  unfold ewm_mean. destruct xs; simpl; [done|]. by rewrite length_ewm_go, length_fmap.
Qed.

Lemma length_calculate_rsi series period :
  length (calculate_rsi series period) = length series.
Proof.
  unfold calculate_rsi.
  rewrite length_fmap, length_zip_with, !length_rolling, length_fmap,
    !length_where_, length_diff.
  lia.
Qed.

Lemma length_calculate_volatility series period :
  length (calculate_volatility series period) = length series.
Proof.
  unfold calculate_volatility.
  by rewrite length_fmap, length_rolling, length_pct_change.
Qed.

Ltac series_length :=
  repeat first
    [ rewrite length_fmap | rewrite length_map | rewrite length_zip_with
    | rewrite length_shift | rewrite length_pct_change | rewrite length_diff
    | rewrite length_rolling | rewrite length_fillna | rewrite length_cumsum
    | rewrite length_ewm_mean | rewrite length_calculate_rsi
    | rewrite length_calculate_volatility | rewrite length_where_
    | rewrite length_column ];
  try lia.

(** ** Indicator Engine: assignments keep the rows of the frame *)

Lemma set_column_assets c vals d :
  length vals = length (rows d) →
  asset <$> rows (set_column c vals d) = asset <$> rows d.
Proof.
  intros Hlen. simpl. apply list_eq; intros i.
  rewrite !list_lookup_fmap, lookup_zip_with.
  destruct (rows d !! i) as [r|] eqn:Hr; simpl.
  - destruct (lookup_lt_is_Some_2 vals i) as [v Hv].
    { apply lookup_lt_Some in Hr. lia. }
    by rewrite Hv.
  - by destruct (vals !! i).
Qed.

Lemma length_rows_of_assets (d d' : DataFrame) :
  asset <$> rows d' = asset <$> rows d → length (rows d') = length (rows d).
Proof. intros H. apply (f_equal length) in H. by rewrite !length_fmap in H. Qed.

Lemma run_assignments_keeps_rows n steps d :
  Forall (keeps_rows n) steps → length (rows d) = n →
  asset <$> rows (run_assignments steps d) = asset <$> rows d.
Proof.
  intros Hsteps. revert d. induction Hsteps as [|step steps Hstep _ IH];
    intros d Hd; [done|].
  unfold run_assignments in *. simpl.
  rewrite IH; [by apply Hstep|].
  rewrite (length_rows_of_assets d); auto.
Qed.

Lemma keeps_rows_set_num n c vals :
  length vals = n → keeps_rows n (set_num c vals).
Proof.
  intros Hlen d Hd. apply set_column_assets. rewrite length_fmap. lia.
Qed.

Lemma keeps_rows_set_nums n cs :
  Forall (λ m, length m.2 = n) cs → keeps_rows n (set_nums cs).
Proof.
  intros Hcs d Hd. unfold set_nums.
  apply (run_assignments_keeps_rows n ((λ m, set_num m.1 m.2) <$> cs)) in Hd.
  - by unfold run_assignments in Hd; rewrite foldl_fmap in Hd.
  - apply Forall_fmap. eapply Forall_impl; [done|].
    intros m Hm. by apply keeps_rows_set_num.
Qed.

Lemma asset_indicators_assets d :
  asset <$> rows (asset_indicators d) = asset <$> rows d.
Proof.
  unfold asset_indicators. cbv zeta.
  apply (run_assignments_keeps_rows (length (rows d))); [|done].
  repeat apply Forall_cons_2; try apply Forall_nil_2;
    try (apply keeps_rows_set_num; by series_length);
    try (apply keeps_rows_set_nums;
         repeat apply Forall_cons_2; try apply Forall_nil_2; simpl;
         by series_length);
    try (intros d' Hd'; unfold set_flag, set_num, num_column;
         apply set_column_assets; by series_length).
Qed.

(** ** Indicator Engine: assets with too little history *)

Lemma length_select_asset a df : length (rows (select_asset a df)) = n_obs a df.
Proof.
  unfold select_asset, n_obs; simpl. by rewrite (sort_values_date_Permutation quicksort).
Qed.

Lemma select_asset_assets a df r : r ∈ rows (select_asset a df) → asset r = a.
Proof.
  unfold select_asset; simpl.
  rewrite (sort_values_date_Permutation quicksort), list_elem_of_filter.
  by intros [? _].
Qed.

Lemma asset_indicators_asset a df r :
  r ∈ rows (asset_indicators (select_asset a df)) → asset r = a.
Proof.
  intros Hr.
  assert (asset r ∈ asset <$> rows (asset_indicators (select_asset a df))) as Ha.
  { apply list_elem_of_fmap. eauto. }
  rewrite asset_indicators_assets in Ha.
  apply list_elem_of_fmap in Ha as (r0 & -> & Hr0).
  by apply select_asset_assets in Hr0.
Qed.

Lemma all_features_loop df (l : list string) (acc : list DataFrame) :
  foldl (λ acc a,
           let df_asset := select_asset a df in
           if (length (rows df_asset) <? 100)%nat then acc
           else acc ++ [asset_indicators df_asset]) acc l
  = acc ++ ((λ a, asset_indicators (select_asset a df))
              <$> filter (λ a, 100 ≤ n_obs a df) l).
Proof.
  revert acc. induction l as [|a l IH]; intros acc; cbn [foldl].
  - by rewrite app_nil_r.
  - rewrite IH. cbv zeta. rewrite length_select_asset.
    destruct (Nat.ltb_spec (n_obs a df) 100).
    + by rewrite filter_cons_False by lia.
    + rewrite filter_cons_True by lia. by rewrite fmap_cons, <- app_assoc.
Qed.

Lemma all_features_kept df :
  all_features df
  = (λ a, asset_indicators (select_asset a df)) <$> kept_assets df.
Proof. unfold all_features, kept_assets. by rewrite all_features_loop. Qed.

Lemma elem_of_kept_assets df a : a ∈ kept_assets df ↔ 100 ≤ n_obs a df.
Proof.
  unfold kept_assets. rewrite list_elem_of_filter, elem_of_unique.
  split; [by intros [? _]|]. intros Hn. split; [done|].
  unfold n_obs in Hn.
  destruct (filter (λ r, asset r = a) (rows df)) as [|r g] eqn:Hg;
    [simpl in Hn; lia|].
  assert (r ∈ filter (λ r, asset r = a) (rows df)) as Hr
    by (rewrite Hg; apply elem_of_cons; by left).
  apply list_elem_of_filter in Hr as [<- Hr].
  apply list_elem_of_fmap. eauto.
Qed.

Lemma rows_of_asset_in_join (F : string → list Row) (l : list string) a :
  NoDup l → (∀ a' r, r ∈ F a' → asset r = a') →
  filter (λ r, asset r = a) (mjoin (F <$> l)) = if decide (a ∈ l) then F a else [].
Proof.
  intros Hnd HF. induction Hnd as [|a' l Hnotin Hnd IH]; [done|].
  rewrite fmap_cons. simpl. rewrite filter_app, IH.
  destruct (decide (a' = a)) as [->|Hne].
  - rewrite decide_False by done.
    rewrite decide_True by (apply elem_of_cons; by left).
    rewrite app_nil_r. apply filter_all, Forall_forall. eauto.
  - assert (filter (λ r, asset r = a) (F a') = []) as ->.
    { apply filter_none, Forall_forall. intros r Hr Ha.
      apply HF in Hr. congruence. }
    simpl. destruct (decide (a ∈ l)).
    + by rewrite decide_True by (apply elem_of_cons; by right).
    + rewrite decide_False; [done|]. rewrite elem_of_cons. naive_solver.
Qed.

Lemma calculate_technical_features_rows df out :
  calculate_technical_features df = Some out →
  rows out
  = mjoin ((λ a, rows (asset_indicators (select_asset a df))) <$> kept_assets df).
Proof.
  unfold calculate_technical_features, pd_concat. rewrite all_features_kept.
  destruct (_ <$> kept_assets df) eqn:Hk; [done|]. intros [= <-]. cbn [rows].
  change (rows d ++ _) with (mjoin (rows <$> d :: l)).
  rewrite <- Hk. by rewrite <- list_fmap_compose.
Qed.

(** C7.  An asset with fewer than 100 observations has no row in the output
    of the Indicator Engine, and skipping it does not stop the others: an
    asset with at least 100 observations is processed, the engine returns a
    table, and the asset has all its rows in it.  (The engine returns no
    table only when no asset at all has 100 observations, where
    [pd.concat] has nothing to concatenate.) *)
Theorem short_history_assets_are_skipped df a :
  (n_obs a df < 100 →
   ∀ out, calculate_technical_features df = Some out →
          ∀ r, r ∈ rows out → asset r ≠ a)
  ∧ (100 ≤ n_obs a df →
     ∃ out, calculate_technical_features df = Some out
            ∧ length (filter (λ r, asset r = a) (rows out)) = n_obs a df)
  ∧ (calculate_technical_features df = None ↔ ∀ a', n_obs a' df < 100).
Proof.
  split; [|split].
  - intros Hn out Hout r Hr Ha.
    rewrite (calculate_technical_features_rows _ _ Hout) in Hr.
    apply list_elem_of_join in Hr as (rs & Hr & Hrs).
    apply list_elem_of_fmap in Hrs as (a' & -> & Ha').
    apply asset_indicators_asset in Hr.
    apply elem_of_kept_assets in Ha'. subst. lia.
  - intros Hn.
    assert (a ∈ kept_assets df) as Hk by by apply elem_of_kept_assets.
    destruct (calculate_technical_features df) as [out|] eqn:Hout.
    + exists out. split; [done|].
      rewrite (calculate_technical_features_rows _ _ Hout).
      rewrite (rows_of_asset_in_join
                 (λ a, rows (asset_indicators (select_asset a df)))).
      * rewrite decide_True by done.
        rewrite (length_rows_of_assets _ _ (asset_indicators_assets _)).
        apply length_select_asset.
      * unfold kept_assets. apply NoDup_filter, NoDup_unique.
      * intros a' r. apply asset_indicators_asset.
    + exfalso. unfold calculate_technical_features, pd_concat in Hout.
      rewrite all_features_kept in Hout.
      destruct (kept_assets df); [by apply elem_of_nil in Hk|done].
  - unfold calculate_technical_features, pd_concat. rewrite all_features_kept.
    split.
    + intros Hnone a'. destruct (kept_assets df) as [|k ks] eqn:Hk; [|done].
      destruct (Nat.lt_ge_cases (n_obs a' df) 100) as [|Hge]; [done|].
      apply elem_of_kept_assets in Hge. rewrite Hk in Hge.
      by apply elem_of_nil in Hge.
    + intros Hall. destruct (kept_assets df) as [|k ks] eqn:Hk; [done|].
      assert (k ∈ kept_assets df) as Hin by (rewrite Hk; apply elem_of_cons; by left).
      apply elem_of_kept_assets in Hin. specialize (Hall k). lia.
Qed.

(** ** Indicator Engine: the RSI *)

Lemma calculate_rsi_eq series period :
  calculate_rsi series period
  = rsi_of_rs <$> zip_with fdiv (rsi_gain series period) (rsi_loss series period).
Proof. reflexivity. Qed.

Lemma nonneg_notna x : nonneg x → notna x.
Proof. by destruct x. Qed.

Lemma dropna_nonneg xs : Forall nonneg xs → dropna xs = xs.
Proof.
  intros H. apply filter_all. eapply Forall_impl; [done|]. apply nonneg_notna.
Qed.

Lemma observations_finite xs : Forall is_finite xs → observations xs = xs.
Proof.
  intros H. apply filter_all. eapply Forall_impl; [done|]. by intros [| | |].
Qed.

Lemma nonneg_finite x : nonneg x → is_finite x.
Proof. by destruct x. Qed.

Lemma observations_nonneg xs : Forall nonneg xs → observations xs = xs.
Proof.
  intros H. apply observations_finite. eapply Forall_impl; [done|].
  apply nonneg_finite.
Qed.

Lemma fadd_nonneg x y : nonneg x → nonneg y → nonneg (fadd x y).
Proof.
  destruct x as [a| | |], y as [b| | |]; simpl; try done.
  rewrite Qred_correct. intros. lra.
Qed.

Lemma fsum_nonneg xs : Forall nonneg xs → nonneg (fsum xs).
Proof.
  unfold fsum. assert (nonneg (Fin 0)) as H0 by (simpl; lra).
  revert H0. generalize (Fin 0).
  induction xs as [|x xs IH]; intros acc Hacc Hxs; simpl; [done|].
  inversion Hxs; subst. apply IH; [|done]. by apply fadd_nonneg.
Qed.

Lemma fmean_nonneg xs : xs ≠ [] → Forall nonneg xs → nonneg (fmean xs).
Proof.
  intros Hne Hxs. unfold fmean. pose proof (fsum_nonneg _ Hxs) as Hs.
  destruct (fsum xs) as [s| | |]; try done. simpl in Hs.
  destruct xs as [|x xs]; [done|].
  unfold of_nat, of_Z, fdiv.
  assert (0 < inject_Z (Z.of_nat (length (x :: xs))))%Q as Hn.
  { unfold Qlt; simpl. lia. }
  destruct (Qeq_bool _ 0) eqn:Heq.
  { apply Qeq_bool_iff in Heq. lra. }
  simpl. rewrite Qred_correct. apply Qle_shift_div_l; [done|]. lra.
Qed.

(** ** Reading a rolling aggregate *)

Lemma length_window w (xs : list float) t :
  t < length xs → length (window w xs t) = (t + 1) `min` w.
Proof. intros Ht. unfold window. rewrite length_drop, length_take. lia. Qed.

Lemma Forall_window (P : float → Prop) w xs t :
  Forall P xs → Forall P (window w xs t).
Proof. intros H. unfold window. by apply Forall_drop, Forall_take. Qed.

Lemma lookup_rolling w minp agg xs t :
  t < length xs →
  rolling w minp agg xs !! t
  = Some (let obs := observations (window w xs t) in
          if (length obs <? minp)%nat then NaN else agg obs).
Proof.
  intros Ht. unfold rolling. rewrite list_lookup_imap.
  destruct (lookup_lt_is_Some_2 xs t Ht) as [x ->]. done.
Qed.

(** The rolling mean of non-negative values over a full window. *)
Lemma rolling_mean_nonneg period xs t :
  1 ≤ period → Forall nonneg xs → t < length xs →
  (t + 1 < period ∧ rolling period period fmean xs !! t = Some NaN)
  ∨ (period ≤ t + 1
     ∧ ∃ q, rolling period period fmean xs !! t = Some (Fin q) ∧ (0 <= q)%Q).
Proof.
  intros Hp Hxs Ht. rewrite lookup_rolling by done. cbv zeta.
  rewrite (observations_nonneg (window period xs t))
    by by apply Forall_window.
  rewrite length_window by done.
  destruct (Nat.ltb_spec ((t + 1) `min` period) period) as [Hlt|Hge].
  - left. split; [lia|done].
  - right. split; [lia|].
    assert (nonneg (fmean (window period xs t))) as Hm.
    { apply fmean_nonneg; [|by apply Forall_window].
      intros Hnil. apply (f_equal length) in Hnil.
      rewrite length_window in Hnil by done. simpl in Hnil. lia. }
    destruct (fmean _) as [q| | |]; try done. eauto.
Qed.

Lemma get_finite_or_nan xs i :
  Forall is_finite xs → is_finite (get xs i) ∨ get xs i = NaN.
Proof.
  intros Hxs. unfold get. destruct (i <? 0)%Z; [by right|].
  destruct (xs !! Z.to_nat i) as [x|] eqn:Hx; [|by right].
  left. simpl. eapply Forall_lookup_1 in Hxs; eauto.
Qed.

Lemma diff_finite_or_nan series :
  Forall is_finite series →
  Forall (λ d, is_finite d ∨ d = NaN) (diff 1 series).
Proof.
  intros Hs. apply Forall_lookup. intros i d Hd. unfold diff in Hd.
  apply lookup_zip_with_Some in Hd as (x & y & -> & Hx & Hy).
  unfold shift in Hy. apply list_lookup_imap_Some in Hy as (_ & _ & ->).
  eapply Forall_lookup_1 in Hx; [|done].
  destruct (get_finite_or_nan series (Z.of_nat i - 1) Hs) as [Hy| ->].
  - destruct x, (get series _); try done. by left.
  - destruct x; try done. by right.
Qed.

Lemma gains_nonneg series :
  Forall is_finite series →
  Forall nonneg (where_ (λ d, fgt d (Fin 0)) (Fin 0) (diff 1 series)).
Proof.
  intros Hs. unfold where_. apply Forall_fmap.
  eapply Forall_impl; [by apply diff_finite_or_nan|].
  intros d [Hd| ->]; simpl; [|lra].
  destruct d as [q| | |]; try done. unfold fgt, flt, Qlt_bool.
  destruct (Qle_bool q 0) eqn:Hq; simpl; [lra|].
  destruct (Qlt_le_dec 0 q) as [|Hle]; [lra|].
  apply Qle_bool_iff in Hle. congruence.
Qed.

Lemma losses_nonneg series :
  Forall is_finite series →
  Forall nonneg (fneg <$> where_ (λ d, flt d (Fin 0)) (Fin 0) (diff 1 series)).
Proof.
  intros Hs. unfold where_. rewrite <- list_fmap_compose. apply Forall_fmap.
  eapply Forall_impl; [by apply diff_finite_or_nan|].
  intros d [Hd| ->]; simpl; [|lra].
  destruct d as [q| | |]; try done. unfold flt, Qlt_bool.
  destruct (Qle_bool 0 q) eqn:Hq; simpl; [lra|].
  destruct (Qlt_le_dec q 0) as [|Hle]; [lra|].
  apply Qle_bool_iff in Hle. congruence.
Qed.

Lemma rsi_of_rs_bounds q :
  (0 <= q)%Q → ∃ v, rsi_of_rs (Fin q) = Fin v ∧ (0 <= v)%Q ∧ (v <= 100)%Q.
Proof.
  intros Hq. unfold rsi_of_rs, fsub, fadd, fdiv, fneg.
  destruct (Qeq_bool (Qred (1 + q)) 0) eqn:Heq.
  { apply Qeq_bool_iff in Heq. rewrite Qred_correct in Heq. lra. }
  eexists. split; [reflexivity|].
  rewrite !Qred_correct.
  assert (0 < 1 + q)%Q as Hpos by lra.
  assert (0 <= 100 / (1 + q))%Q as H1.
  { apply Qle_shift_div_l; [done|]. lra. }
  assert (100 / (1 + q) <= 100)%Q as H2.
  { apply Qle_shift_div_r; [done|]. nra. }
  split; lra.
Qed.

(** C5, as the code has it.  For a series of finite closes and a period of
    at least one row, the RSI is NaN on the first period-1 rows.  From row
    period-1 on, both trailing averages are numbers that are not negative
    and: when the average loss is positive the RSI is a number in [0,100];
    when the average loss is 0 and the average gain is positive the RSI is
    100; when both averages are 0, as on a constant series, the RSI is
    NaN. *)
Theorem rsi_warmup_and_bounds series period t :
  Forall is_finite series → 1 ≤ period → t < length series →
  (t < period - 1 → calculate_rsi series period !! t = Some NaN)
  ∧ (period - 1 ≤ t →
     ∃ g l,
       rsi_gain series period !! t = Some (Fin g)
       ∧ rsi_loss series period !! t = Some (Fin l)
       ∧ (0 <= g)%Q ∧ (0 <= l)%Q
       ∧ ((0 < l)%Q →
          ∃ v, calculate_rsi series period !! t = Some (Fin v)
               ∧ (0 <= v)%Q ∧ (v <= 100)%Q)
       ∧ ((l == 0)%Q → (0 < g)%Q →
          calculate_rsi series period !! t = Some (Fin 100))
       ∧ ((l == 0)%Q → (g == 0)%Q →
          calculate_rsi series period !! t = Some NaN)).
Proof.
  intros Hs Hp Ht.
  assert (t < length (where_ (λ d, fgt d (Fin 0)) (Fin 0) (diff 1 series)))
    as Htg by (rewrite length_where_, length_diff; lia).
  assert (t < length (fneg <$> where_ (λ d, flt d (Fin 0)) (Fin 0)
                                 (diff 1 series)))
    as Htl by (rewrite length_fmap, length_where_, length_diff; lia).
  pose proof (rolling_mean_nonneg period _ t Hp (gains_nonneg _ Hs) Htg) as Hg.
  pose proof (rolling_mean_nonneg period _ t Hp (losses_nonneg _ Hs) Htl) as Hl.
  fold (rsi_gain series period) in Hg. fold (rsi_loss series period) in Hl.
  rewrite calculate_rsi_eq, list_lookup_fmap, lookup_zip_with.
  split.
  - intros Hlt. destruct Hg as [[_ ->]|[? _]]; [|lia].
    destruct Hl as [[_ ->]|[? _]]; [|lia]. done.
  - intros Hge. destruct Hg as [[? _]|[_ (g & -> & Hg)]]; [lia|].
    destruct Hl as [[? _]|[_ (l & -> & Hl)]]; [lia|].
    exists g, l. repeat split; try done.
    + intros Hlpos. simpl. unfold fdiv.
      destruct (Qeq_bool l 0) eqn:Heq.
      { apply Qeq_bool_iff in Heq. lra. }
      destruct (rsi_of_rs_bounds (Qred (g / l))) as (v & -> & Hv).
      { rewrite Qred_correct. apply Qle_shift_div_l; [done|]. lra. }
      eauto.
    + intros Hl0 Hgpos. simpl. unfold fdiv.
      rewrite (proj2 (Qeq_bool_iff l 0) Hl0). unfold scale_inf.
      assert (0 < Qnum g)%Z as Hnum.
      { unfold Qlt in Hgpos. simpl in Hgpos. lia. }
      destruct (Z.compare_spec (Qnum g) 0); try lia. reflexivity.
    + intros Hl0 Hg0. simpl. unfold fdiv.
      rewrite (proj2 (Qeq_bool_iff l 0) Hl0). unfold scale_inf.
      assert (Qnum g = 0)%Z as ->.
      { unfold Qeq in Hg0. simpl in Hg0. lia. }
      reflexivity.
Qed.

(** ** Dataset Finalizer *)

(** *** The order of the final sort *)

Lemma string_ltb_lt a b :
  String.ltb a b = true ↔ OrderedTypeEx.String_as_OT.lt a b.
Proof.
  rewrite <- OrderedTypeEx.String_as_OT.cmp_lt.
  unfold String.ltb, OrderedTypeEx.String_as_OT.cmp.
  destruct (String.compare a b); naive_solver.
Qed.

Lemma string_ltb_trans a b c :
  String.ltb a b = true → String.ltb b c = true → String.ltb a c = true.
Proof.
  rewrite !string_ltb_lt. apply OrderedTypeEx.String_as_OT.lt_trans.
Qed.

Lemma string_ltb_irrefl a : String.ltb a a = false.
Proof.
  unfold String.ltb.
  pose proof (proj2 (OrderedTypeEx.String_as_OT.cmp_eq a a) eq_refl) as Hc.
  unfold OrderedTypeEx.String_as_OT.cmp in Hc. by rewrite Hc.
Qed.

Lemma string_trichotomy a b :
  String.ltb a b = true ∨ a = b ∨ String.ltb b a = true.
Proof.
  unfold String.ltb. rewrite (String.compare_antisym b a).
  destruct (String.compare a b) eqn:Hc; simpl; auto.
  apply String.compare_eq_iff in Hc. auto.
Qed.

(** [key_le] is the lexicographic order on (asset, date). *)
Lemma key_le_spec r1 r2 :
  key_le r1 r2 = true
  ↔ String.ltb (asset r1) (asset r2) = true
    ∨ (asset r1 = asset r2 ∧ (date r1 ≤ date r2)%Z).
Proof.
  unfold key_le.
  rewrite orb_true_iff, andb_true_iff, String.eqb_eq, Z.leb_le. tauto.
Qed.

Lemma key_le_total r1 r2 : key_le r1 r2 = true ∨ key_le r2 r1 = true.
Proof.
  rewrite !key_le_spec.
  destruct (string_trichotomy (asset r1) (asset r2)) as [?|[Heq|?]]; auto.
  destruct (Z.le_ge_cases (date r1) (date r2)); auto.
Qed.

Lemma key_le_trans r1 r2 r3 :
  key_le r1 r2 = true → key_le r2 r3 = true → key_le r1 r3 = true.
Proof.
  rewrite !key_le_spec.
  intros [H12|[E12 D12]] [H23|[E23 D23]].
  - left. by eapply string_ltb_trans.
  - left. by rewrite <- E23.
  - left. by rewrite E12.
  - right. split; [congruence|lia].
Qed.

(** *** Filling touches the feature columns only *)

Lemma same_outside_refl cs r : same_outside cs r r.
Proof. done. Qed.

Lemma same_outside_trans cs r1 r2 r3 :
  same_outside cs r1 r2 → same_outside cs r2 r3 → same_outside cs r1 r3.
Proof.
  intros (A1 & D1 & C1) (A2 & D2 & C2). repeat split; try congruence.
  intros c Hc. by rewrite C2, C1.
Qed.

Lemma copy_cells_same_outside cs src r : same_outside cs r (copy_cells cs src r).
Proof.
  unfold copy_cells.
  assert (∀ cs' r0, cs' ⊆ cs → same_outside cs r r0 →
            same_outside cs r (foldl (λ r c, set_cell c (cellof c src) r) r0 cs'))
    as Hgo.
  { induction cs' as [|c' cs' IH]; intros r0 Hsub Hr0; simpl; [done|].
    apply IH; [set_solver|].
    eapply same_outside_trans; [done|]. repeat split.
    intros c Hc. apply cellof_set_cell_ne. set_solver. }
  by apply Hgo.
Qed.

Lemma assign_masked_same_outside a cs filled rs :
  Forall2 (same_outside cs) rs (assign_masked a cs filled rs).
Proof.
  revert filled. induction rs as [|r rs IH]; intros filled; simpl;
    [constructor|].
  case_bool_decide; [destruct filled|]; constructor;
    auto using same_outside_refl, copy_cells_same_outside.
Qed.

Lemma fill_assets_same_outside cs rs assets :
  Forall2 (same_outside cs) rs (foldl (fill_asset cs) rs assets).
Proof.
  revert rs. induction assets as [|a assets IH]; intros rs; simpl.
  - apply Forall_Forall2_diag, Forall_forall. intros; apply same_outside_refl.
  - eapply Forall2_trans; [|apply assign_masked_same_outside|apply IH].
    apply same_outside_trans.
Qed.

Lemma same_outside_keys cs rs rs' :
  Forall2 (same_outside cs) rs rs' → key <$> rs' = key <$> rs.
Proof.
  induction 1 as [|r r' rs rs' (Ha & Hd & _) _ IH]; [done|].
  rewrite !fmap_cons, IH. unfold key. by rewrite Ha, Hd.
Qed.

Lemma dropna_subset_complete cs rs r c :
  r ∈ dropna_subset cs rs → c ∈ cs → is_na (cellof c r) = false.
Proof.
  unfold dropna_subset. rewrite list_elem_of_filter. intros [Hall _] Hc.
  by eapply Forall_forall in Hall.
Qed.

Lemma NoDup_keys_filter (P : Row → Prop) `{∀ r, Decision (P r)} rs :
  NoDup (key <$> rs) → NoDup (key <$> filter P rs).
Proof.
  intros Hnd. eapply sublist_NoDup; [done|].
  apply fmap_sublist, sublist_filter.
Qed.

Lemma StronglySorted_lookup_lt {A} (R : A → A → Prop) (l : list A) i j x y :
  StronglySorted R l → i < j → l !! i = Some x → l !! j = Some y → R x y.
Proof.
  intros Hs. revert i j. induction Hs as [|z l Hs IH Hall]; intros i j Hij Hi Hj.
  - by rewrite lookup_nil in Hi.
  - destruct j as [|j]; [lia|]. simpl in Hj. destruct i as [|i].
    + simpl in Hi. injection Hi as ->.
      eapply Forall_forall in Hall; [done|]. by eapply list_elem_of_lookup_2.
    + simpl in Hi. apply (IH i j); [lia|done..].
Qed.

Lemma finalize_dataset_rows df :
  rows (finalize_dataset df)
  = sort_by key_le
      (dropna_subset (feature_cols_of (columns df))
         (foldl (fill_asset (feature_cols_of (columns df)))
            (dropna_subset (target_cols_of (columns df)) (rows df))
            (unique (asset <$> dropna_subset (target_cols_of (columns df))
                                 (rows df))))).
Proof. reflexivity. Qed.

Lemma finalize_dataset_columns_eq df :
  columns (finalize_dataset df)
  = meta_cols ++ price_cols
    ++ filter (λ c, c ∉ meta_cols ++ price_cols ++ target_cols_of (columns df))
         (columns df)
    ++ target_cols_of (columns df).
Proof. reflexivity. Qed.

Lemma finalize_dataset_columns df c :
  c ∈ columns (finalize_dataset df) → c ∉ unchecked_cols →
  c ∈ feature_cols_of (columns df) ∨ c ∈ target_cols_of (columns df).
Proof.
  rewrite finalize_dataset_columns_eq, !elem_of_app, list_elem_of_filter.
  intros Hc Hun.
  assert (c ∉ meta_cols ∧ c ∉ price_cols) as [Hm Hp].
  { unfold meta_cols, price_cols, unchecked_cols in *.
    rewrite !elem_of_cons, elem_of_nil in *. tauto. }
  destruct Hc as [Hc|[Hc|[[Hc1 Hc2]|Hc]]]; [done|done| |by right].
  left. unfold feature_cols_of. apply list_elem_of_filter.
  split; [|done]. split; [done|].
  destruct (startswith "target_" c) eqn:Hs; [|done].
  exfalso. apply Hc1. rewrite !elem_of_app. right; right.
  unfold target_cols_of. by apply list_elem_of_filter.
Qed.

Lemma target_not_feature cs c :
  c ∈ target_cols_of cs → c ∉ feature_cols_of cs.
Proof.
  unfold target_cols_of, feature_cols_of. rewrite !list_elem_of_filter.
  intros [Ht _] [[_ Hf] _]. congruence.
Qed.

(** C4, as the code has it.  In the table of the finalizer no target column
    and no feature column has a missing value (the feature columns are all
    columns but date, asset, asset_type, open, high, low, close, volume and
    market_position, which are neither filled nor checked); the rows are
    sorted by (asset, date); and when the input has no two rows with the
    same (asset, date), neither has the output, so that the dates of an
    asset increase strictly. *)
Theorem finalize_dataset_complete_and_sorted df :
  let out := finalize_dataset df in
  (∀ r c, r ∈ rows out → c ∈ columns out → c ∉ unchecked_cols →
          is_na (cellof c r) = false)
  ∧ StronglySorted (λ r1 r2, key_le r1 r2 = true) (rows out)
  ∧ (NoDup (key <$> rows df) →
     NoDup (key <$> rows out)
     ∧ ∀ i j ri rj, i < j → rows out !! i = Some ri → rows out !! j = Some rj →
                    asset ri = asset rj → (date ri < date rj)%Z).
Proof.
  cbv zeta.
  set (fc := feature_cols_of (columns df)).
  set (tc := target_cols_of (columns df)).
  pose proof (finalize_dataset_rows df) as Hrows. fold fc tc in Hrows.
  set (df1 := dropna_subset tc (rows df)) in Hrows.
  set (filled := foldl (fill_asset fc) df1 (unique (asset <$> df1))) in Hrows.
  assert (Forall2 (same_outside fc) df1 filled) as Hfilled
    by apply fill_assets_same_outside.
  assert (StronglySorted (λ r1 r2, key_le r1 r2 = true)
            (rows (finalize_dataset df))) as Hsorted.
  { rewrite Hrows.
    apply sort_by_StronglySorted; [apply key_le_total|apply key_le_trans]. }
  split; [|split; [done|]].
  - intros r c Hr Hc Hun. rewrite Hrows, elem_of_sort_by in Hr.
    destruct (finalize_dataset_columns _ _ Hc Hun) as [Hf|Ht].
    + by eapply dropna_subset_complete.
    + apply list_elem_of_filter in Hr as [_ Hr].
      apply list_elem_of_lookup in Hr as [i Hi].
      destruct (Forall2_lookup_r _ _ _ _ _ Hfilled Hi) as (r0 & Hr0 & _ & _ & Hsame).
      rewrite Hsame by by apply target_not_feature.
      eapply dropna_subset_complete; [|done].
      by eapply list_elem_of_lookup_2.
  - intros Hnd.
    assert (NoDup (key <$> rows (finalize_dataset df))) as Hnd'.
    { rewrite Hrows, sort_by_Permutation. apply NoDup_keys_filter.
      rewrite (same_outside_keys _ _ _ Hfilled). by apply NoDup_keys_filter. }
    split; [done|]. intros i j ri rj Hij Hi Hj Ha.
    pose proof (StronglySorted_lookup_lt _ _ _ _ _ _ Hsorted Hij Hi Hj) as Hle.
    apply key_le_spec in Hle as [Hlt|[_ Hle]].
    { rewrite Ha, string_ltb_irrefl in Hlt. done. }
    destruct (decide (date ri = date rj)) as [Hd|]; [|lia].
    assert (i = j); [|lia].
    eapply (NoDup_lookup _ _ _ (key ri) Hnd').
    + by rewrite list_lookup_fmap, Hi.
    + rewrite list_lookup_fmap, Hj. unfold key. simpl. by rewrite Ha, Hd.
Qed.

(** ** Label Generator: what the forward return divides by *)

Lemma ffill_from_notna last xs :
  Forall (λ x, isnan x = false) xs → ffill_from last xs = xs.
Proof.
  intros H. revert last. induction H as [|x xs Hx _ IH]; intros last; [done|].
  simpl. by rewrite Hx, IH.
Qed.

(** On a series without gaps, [pct_change(n)] at row [t] is
    [x[t] / x[t - n] - 1]; with [n = -H] the divisor is the later price
    [x[t + H]], and the value is NaN when that row does not exist. *)
Lemma pct_change_lookup n xs t x :
  Forall (λ x, isnan x = false) xs → xs !! t = Some x →
  pct_change n xs !! t
  = Some (fsub (fdiv x (get xs (Z.of_nat t - n))) (Fin 1)).
Proof.
  intros Hxs Hx. unfold pct_change, ffill. rewrite ffill_from_notna by done.
  rewrite lookup_zip_with, Hx. simpl.
  unfold shift. by rewrite list_lookup_imap, Hx.
Qed.

(** C1.  On four closes 100, 100, 100, 110 of one asset, the 3-day target
    return of the first row is 100/110 - 1 = -1/11: the current close over
    the future close.  The claimed value close[t+3]/close[t] - 1 = 1/10 is
    further away than 1e-9. *)
Theorem forward_return_divides_by_future_close :
  cellof "target_return_3d"
    <$> rows (create_targets btc_rise FORWARD_PERIODS) !! 0%nat
  = Some (Num (Fin (-1 # 11)))
  ∧ ¬ (Qabs ((-1 # 11) - (110 / 100 - 1)) <= 1 # 1000000000)%Q.
Proof.
  split; [by vm_compute|]. apply Qlt_not_le. reflexivity.
Qed.


(** ** Dataset Finalizer: where the filled values come from *)

Lemma Forall_filter_keep {A} (P Q : A → Prop) `{∀ x, Decision (Q x)}
    (l : list A) :
  Forall P l → Forall P (filter Q l).
Proof.
  rewrite !Forall_forall. intros HP x Hx.
  apply list_elem_of_filter in Hx as [_ Hx]. auto.
Qed.

Lemma fields_set_cell c v r : fields (set_cell c v r) = fields r.
Proof. done. Qed.

Lemma copy_cells_fields cs src r : fields (copy_cells cs src r) = fields r.
Proof.
  unfold copy_cells. revert r.
  induction cs as [|c cs IH]; intros r; simpl; [done|].
  by rewrite IH, fields_set_cell.
Qed.

Lemma cellof_copy_cells cs src r c :
  cellof c (copy_cells cs src r)
  = if decide (c ∈ cs) then cellof c src else cellof c r.
Proof.
  unfold copy_cells. revert r.
  induction cs as [|c' cs IH]; intros r; simpl.
  - destruct (decide (c ∈ [])) as [H|]; [by apply elem_of_nil in H|done].
  - rewrite IH. destruct (decide (c ∈ cs)) as [Hin|Hnot].
    + by rewrite decide_True by (apply elem_of_cons; by right).
    + destruct (decide (c = c')) as [->|Hne].
      * rewrite decide_True by (apply elem_of_cons; by left).
        apply cellof_set_cell_eq.
      * rewrite decide_False.
        -- by apply cellof_set_cell_ne.
        -- rewrite elem_of_cons. tauto.
Qed.

Lemma sourced_row_set_cell src a r r1 c :
  sourced_row src a r → sourced_row src a r1 →
  sourced_row src a (set_cell c (cellof c r1) r).
Proof.
  intros [Ha Hc] [_ Hc1]. split; [done|]. intros c'.
  destruct (decide (c' = c)) as [->|Hne].
  - rewrite cellof_set_cell_eq. apply Hc1.
  - rewrite cellof_set_cell_ne by done. apply Hc.
Qed.

Lemma ffill_rows_sourced src a c last rs :
  (∀ v, last = Some v → ∃ r1, sourced_row src a r1 ∧ v = cellof c r1) →
  Forall (sourced_row src a) rs →
  Forall (sourced_row src a) (ffill_rows c last rs).
Proof.
  intros Hlast Hrs. revert last Hlast.
  induction Hrs as [|r rs Hr _ IH]; intros last Hlast; simpl; [constructor|].
  destruct (is_na (cellof c r)).
  - destruct last as [v|].
    + destruct (Hlast v eq_refl) as (r1 & Hr1 & ->).
      constructor; [by apply sourced_row_set_cell|by apply IH].
    + constructor; [done|by apply IH].
  - constructor; [done|]. apply IH. intros v [= <-]. eauto.
Qed.

Lemma ffill_frame_sourced src a cs rs :
  Forall (sourced_row src a) rs → Forall (sourced_row src a) (ffill_frame cs rs).
Proof.
  unfold ffill_frame. revert rs.
  induction cs as [|c cs IH]; intros rs Hrs; simpl; [done|].
  apply IH, ffill_rows_sourced; [done|done].
Qed.

Lemma bfill_frame_sourced src a cs rs :
  Forall (sourced_row src a) rs → Forall (sourced_row src a) (bfill_frame cs rs).
Proof.
  intros Hrs. unfold bfill_frame.
  apply Forall_reverse, ffill_frame_sourced, Forall_reverse. done.
Qed.

Lemma assign_masked_sourced src a cs filled rs :
  Forall (sourced_row src a) filled →
  Forall (λ r, sourced_row src (asset r) r) rs →
  Forall (λ r, sourced_row src (asset r) r) (assign_masked a cs filled rs).
Proof.
  intros Hf Hrs. revert filled Hf.
  induction Hrs as [|r rs Hr _ IH]; intros filled Hf; simpl; [constructor|].
  case_bool_decide as Ha.
  - destruct Hf as [|f filled Hfr Hf]; constructor; auto.
    assert (asset (copy_cells cs f r) = asset r) as Hasset.
    { pose proof (copy_cells_fields cs f r) as Hfl. by injection Hfl. }
    rewrite Hasset. split; [done|]. intros c. rewrite cellof_copy_cells.
    destruct (decide (c ∈ cs)).
    + destruct Hfr as [_ Hfc]. rewrite Ha. apply Hfc.
    + apply Hr.
  - constructor; auto.
Qed.

Lemma fill_asset_sourced src cs rs a :
  Forall (λ r, sourced_row src (asset r) r) rs →
  Forall (λ r, sourced_row src (asset r) r) (fill_asset cs rs a).
Proof.
  intros Hrs. unfold fill_asset. apply assign_masked_sourced; [|done].
  apply bfill_frame_sourced, ffill_frame_sourced.
  apply Forall_forall. intros r Hr. apply list_elem_of_filter in Hr as [Ha Hr].
  eapply Forall_forall in Hrs; [|done]. by rewrite Ha in Hrs.
Qed.

Lemma fill_assets_sourced src cs rs assets :
  Forall (λ r, sourced_row src (asset r) r) rs →
  Forall (λ r, sourced_row src (asset r) r) (foldl (fill_asset cs) rs assets).
Proof.
  revert rs. induction assets as [|a assets IH]; intros rs Hrs; simpl; [done|].
  by apply IH, fill_asset_sourced.
Qed.

Lemma sourced_row_self src r : r ∈ src → sourced_row src (asset r) r.
Proof. intros Hr. split; [done|]. intros c. eauto. Qed.

(** X1.  The finalizer fills a missing feature only from the same asset:
    every cell of every row of its output is the cell, in the same column,
    of an input row of the same asset. *)
Theorem finalize_dataset_fills_within_asset df :
  sourced_by_asset (rows df) (rows (finalize_dataset df)).
Proof.
  rewrite finalize_dataset_rows.
  assert (Forall (λ r, sourced_row (rows df) (asset r) r)
            (sort_by key_le
               (dropna_subset (feature_cols_of (columns df))
                  (foldl (fill_asset (feature_cols_of (columns df)))
                     (dropna_subset (target_cols_of (columns df)) (rows df))
                     (unique (asset <$> dropna_subset
                                (target_cols_of (columns df)) (rows df)))))))
    as H.
  { rewrite sort_by_Permutation. apply Forall_filter_keep.
    apply fill_assets_sourced, Forall_forall. intros r Hr.
    apply sourced_row_self. by apply list_elem_of_filter in Hr as [_ Hr]. }
  eapply Forall_impl; [exact H|]. intros r [_ Hc] c.
  destruct (Hc c) as (r0 & ? & ? & ?). eauto.
Qed.

(** ** Dataset Finalizer: a table without gaps *)

Lemma dropna_subset_all cs rs :
  (∀ r c, r ∈ rs → c ∈ cs → is_na (cellof c r) = false) →
  dropna_subset cs rs = rs.
Proof.
  intros H. apply filter_all, Forall_forall. intros r Hr.
  apply Forall_forall. intros c Hc. by apply H.
Qed.

Lemma ffill_rows_id c last rs :
  Forall (λ r, is_na (cellof c r) = false) rs → ffill_rows c last rs = rs.
Proof.
  intros H. revert last. induction H as [|r rs Hr _ IH]; intros last; [done|].
  simpl. by rewrite Hr, IH.
Qed.

Lemma ffill_frame_id cs rs :
  (∀ r c, r ∈ rs → c ∈ cs → is_na (cellof c r) = false) →
  ffill_frame cs rs = rs.
Proof.
  unfold ffill_frame. induction cs as [|c cs IH]; intros H; simpl; [done|].
  rewrite ffill_rows_id.
  - apply IH. intros r c' Hr Hc. apply H; [done|]. apply elem_of_cons; by right.
  - apply Forall_forall. intros r Hr. apply H; [done|]. apply elem_of_cons; by left.
Qed.

Lemma bfill_frame_id cs rs :
  (∀ r c, r ∈ rs → c ∈ cs → is_na (cellof c r) = false) →
  bfill_frame cs rs = rs.
Proof.
  intros H. unfold bfill_frame. rewrite ffill_frame_id.
  - apply reverse_involutive.
  - intros r c Hr. apply H. by apply elem_of_reverse.
Qed.

Lemma set_cell_id c r :
  is_na (cellof c r) = false → set_cell c (cellof c r) r = r.
Proof.
  unfold cellof, set_cell. destruct r as [d a t o h l cl v m]; simpl.
  destruct (m !! c) as [x|] eqn:Hx; simpl; [|done].
  intros _. by rewrite insert_id.
Qed.

Lemma copy_cells_self cs r :
  (∀ c, c ∈ cs → is_na (cellof c r) = false) → copy_cells cs r r = r.
Proof.
  unfold copy_cells. induction cs as [|c cs IH]; intros H; simpl; [done|].
  rewrite set_cell_id by (apply H, elem_of_cons; by left).
  apply IH. intros c' Hc'. apply H, elem_of_cons. by right.
Qed.

Lemma assign_masked_self a cs rs :
  (∀ r c, r ∈ rs → c ∈ cs → is_na (cellof c r) = false) →
  assign_masked a cs (filter (λ r, asset r = a) rs) rs = rs.
Proof.
  induction rs as [|r rs IH]; intros H; [done|].
  assert (assign_masked a cs (filter (λ r, asset r = a) rs) rs = rs) as IH'.
  { apply IH. intros r' c Hr'. apply H, elem_of_cons. by right. }
  simpl. case_bool_decide as Ha.
  - rewrite filter_cons_True by done. rewrite IH', copy_cells_self; [done|].
    intros c. apply H, elem_of_cons. by left.
  - rewrite filter_cons_False by done. by rewrite IH'.
Qed.

Lemma fill_assets_id cs rs assets :
  (∀ r c, r ∈ rs → c ∈ cs → is_na (cellof c r) = false) →
  foldl (fill_asset cs) rs assets = rs.
Proof.
  intros H. induction assets as [|a assets IH]; simpl; [done|].
  assert (fill_asset cs rs a = rs) as ->; [|done].
  unfold fill_asset.
  assert (∀ r c, r ∈ filter (λ r, asset r = a) rs → c ∈ cs →
                 is_na (cellof c r) = false) as Hsub.
  { intros r c Hr. apply H. by apply list_elem_of_filter in Hr as [_ Hr]. }
  rewrite ffill_frame_id, bfill_frame_id by done. by apply assign_masked_self.
Qed.

Lemma insert_sorted_head {A} (le : A → A → bool) x l :
  Forall (λ y, le x y = true) l → insert_sorted le x l = x :: l.
Proof. destruct 1 as [|y l Hy _]; simpl; [done|]. by rewrite Hy. Qed.

Lemma sort_by_sorted {A} (le : A → A → bool) l :
  StronglySorted (λ a b, le a b = true) l → sort_by le l = l.
Proof.
  induction 1 as [|x l _ IH Hx]; simpl; [done|].
  rewrite IH. by apply insert_sorted_head.
Qed.

Lemma complete_table_finalize_rows df :
  complete_table df → rows (finalize_dataset df) = sort_by key_le (rows df).
Proof.
  intros Hc. rewrite finalize_dataset_rows.
  assert (dropna_subset (target_cols_of (columns df)) (rows df) = rows df) as ->.
  { apply dropna_subset_all. intros r c Hr Hin. apply Hc; [done|].
    apply elem_of_app. by left. }
  assert (∀ r c, r ∈ rows df → c ∈ feature_cols_of (columns df) →
                 is_na (cellof c r) = false) as Hf.
  { intros r c Hr Hin. apply Hc; [done|]. apply elem_of_app. by right. }
  by rewrite fill_assets_id, dropna_subset_all.
Qed.

(** X2.  A table that has no missing target and no missing feature is only
    put in order: the finalizer returns exactly its rows, unchanged, sorted
    by (asset, date) with ties left in their input order; no row is dropped
    and no cell is rewritten. *)
Theorem finalize_dataset_only_sorts_complete_table df :
  complete_table df →
  rows (finalize_dataset df) = sort_by key_le (rows df)
  ∧ rows (finalize_dataset df) ≡ₚ rows df.
Proof.
  intros Hc. rewrite complete_table_finalize_rows by done.
  split; [done|]. apply sort_by_Permutation.
Qed.

(** *** Running the finalizer twice *)

Lemma target_cols_of_app cs1 cs2 :
  target_cols_of (cs1 ++ cs2) = target_cols_of cs1 ++ target_cols_of cs2.
Proof. apply filter_app. Qed.

Lemma finalize_dataset_target_cols df :
  target_cols_of (columns (finalize_dataset df)) = target_cols_of (columns df).
Proof.
  rewrite finalize_dataset_columns_eq, !target_cols_of_app.
  assert (target_cols_of meta_cols = []) as -> by reflexivity.
  assert (target_cols_of price_cols = []) as -> by reflexivity.
  rewrite !app_nil_l. unfold target_cols_of at 1.
  rewrite filter_none.
  - rewrite app_nil_l. unfold target_cols_of. apply filter_all, Forall_forall.
    intros c Hc. by apply list_elem_of_filter in Hc as [? _].
  - apply Forall_forall. intros c Hc Ht.
    apply list_elem_of_filter in Hc as [Hnot Hin]. apply Hnot.
    rewrite !elem_of_app. right; right. unfold target_cols_of.
    by apply list_elem_of_filter.
Qed.

Lemma finalize_dataset_columns_idem df :
  columns (finalize_dataset (finalize_dataset df))
  = columns (finalize_dataset df).
Proof.
  rewrite (finalize_dataset_columns_eq (finalize_dataset df)).
  rewrite finalize_dataset_target_cols.
  rewrite (finalize_dataset_columns_eq df).
  set (tc := target_cols_of (columns df)).
  set (others := filter (λ c, c ∉ meta_cols ++ price_cols ++ tc) (columns df)).
  do 2 f_equal.
  rewrite !filter_app.
  rewrite (filter_none _ meta_cols).
  2:{ apply Forall_forall. intros c Hc Hn. apply Hn. apply elem_of_app. by left. }
  rewrite (filter_none _ price_cols).
  2:{ apply Forall_forall. intros c Hc Hn. apply Hn.
      rewrite !elem_of_app. right; by left. }
  rewrite (filter_none _ tc).
  2:{ apply Forall_forall. intros c Hc Hn. apply Hn.
      rewrite !elem_of_app. right; by right. }
  rewrite (filter_all _ others).
  2:{ apply Forall_forall. intros c Hc. unfold others in Hc.
      by apply list_elem_of_filter in Hc as [? _]. }
  simpl. by rewrite app_nil_r.
Qed.

Lemma finalize_dataset_complete df : complete_table (finalize_dataset df).
Proof.
  intros r c Hr Hc. rewrite finalize_dataset_target_cols in Hc.
  rewrite finalize_dataset_rows, elem_of_sort_by in Hr.
  set (fc := feature_cols_of (columns df)) in *.
  set (tc := target_cols_of (columns df)) in *.
  apply elem_of_app in Hc as [Ht|Hf].
  - apply list_elem_of_filter in Hr as [_ Hr].
    apply list_elem_of_lookup in Hr as [i Hi].
    destruct (Forall2_lookup_r _ _ _ _ _
                (fill_assets_same_outside fc (dropna_subset tc (rows df))
                   (unique (asset <$> dropna_subset tc (rows df)))) Hi)
      as (r0 & Hr0 & _ & _ & Hsame).
    rewrite Hsame by by apply target_not_feature.
    eapply dropna_subset_complete; [|done]. by eapply list_elem_of_lookup_2.
  - eapply dropna_subset_complete; [done|].
    unfold feature_cols_of in Hf. apply list_elem_of_filter in Hf as [Hp Hin].
    rewrite finalize_dataset_columns_eq in Hin. fold tc in Hin.
    unfold fc, feature_cols_of. apply list_elem_of_filter. split; [done|].
    destruct Hp as [Hun Hs].
    rewrite !elem_of_app in Hin. destruct Hin as [Hm|[Hp|[Ho|Ht]]].
    + exfalso. apply Hun. unfold meta_cols in Hm.
      rewrite !elem_of_cons, elem_of_nil in *. tauto.
    + exfalso. apply Hun. unfold price_cols in Hp.
      rewrite !elem_of_cons, elem_of_nil in *. tauto.
    + by apply list_elem_of_filter in Ho as [_ ?].
    + unfold tc, target_cols_of in Ht.
      apply list_elem_of_filter in Ht as [Ht _]. congruence.
Qed.

(** X3.  The finalizer is idempotent: finalizing a finalized table gives
    the same table, with the same rows in the same order and the same
    column order. *)
Theorem finalize_dataset_idempotent df :
  finalize_dataset (finalize_dataset df) = finalize_dataset df.
Proof.
  assert (rows (finalize_dataset (finalize_dataset df))
          = rows (finalize_dataset df)) as Hrows.
  { rewrite complete_table_finalize_rows by apply finalize_dataset_complete.
    apply sort_by_sorted. rewrite finalize_dataset_rows.
    apply sort_by_StronglySorted; [apply key_le_total|apply key_le_trans]. }
  pose proof (finalize_dataset_columns_idem df) as Hcols.
  destruct (finalize_dataset (finalize_dataset df)) as [cs rs].
  destruct (finalize_dataset df) as [cs' rs']. simpl in *. congruence.
Qed.

(** ** Tables: what an assignment leaves in place *)

Lemma set_column_fields c vals d :
  length vals = length (rows d) →
  fields <$> rows (set_column c vals d) = fields <$> rows d.
Proof.
  intros Hlen. simpl. apply list_eq; intros i.
  rewrite !list_lookup_fmap, lookup_zip_with.
  destruct (rows d !! i) as [r|] eqn:Hr; simpl.
  - destruct (lookup_lt_is_Some_2 vals i) as [v Hv].
    { apply lookup_lt_Some in Hr. lia. }
    by rewrite Hv.
  - by destruct (vals !! i).
Qed.

Lemma elem_of_columns_set_column c c' vals d :
  c' ∈ columns (set_column c vals d) ↔ c' = c ∨ c' ∈ columns d.
Proof.
  simpl. case_bool_decide as Hc.
  - split; [auto|]. intros [->|?]; done.
  - rewrite elem_of_app, list_elem_of_singleton. tauto.
Qed.

Lemma length_rows_of_fields (d d' : DataFrame) :
  fields <$> rows d' = fields <$> rows d → length (rows d') = length (rows d).
Proof. intros H. apply (f_equal length) in H. by rewrite !length_fmap in H. Qed.

Lemma fields_asset_close (d d' : DataFrame) :
  fields <$> rows d' = fields <$> rows d →
  asset <$> rows d' = asset <$> rows d ∧ close <$> rows d' = close <$> rows d.
Proof.
  intros H. split.
  - apply (f_equal (fmap (λ f : Z * string * string * float * float * float
                               * float * float, f.1.1.1.1.1.1.2))) in H.
    by rewrite <- !list_fmap_compose in H.
  - apply (f_equal (fmap (λ f : Z * string * string * float * float * float
                               * float * float, f.1.2))) in H.
    by rewrite <- !list_fmap_compose in H.
Qed.

(** ** Label Generator: the frame around the labels *)

(** One turn of the loop, column by column. *)
Lemma create_targets_step_frame df p :
  let out := create_targets_step df p in
  fields <$> rows out = fields <$> rows df
  ∧ column (target_return_name p) out
    = Num <$> groupby_transform (asset <$> rows df) (close <$> rows df)
                (pct_change (- p))
  ∧ (∀ c, c ≠ target_return_name p → c ≠ target_direction_name p →
          column c out = column c df)
  ∧ (∀ c, c ∈ columns out
          ↔ c ∈ columns df ∨ c = target_return_name p
            ∨ c = target_direction_name p).
Proof.
  pose proof (target_names_differ p p) as Hne.
  set (ret := groupby_transform (asset <$> rows df) (close <$> rows df)
                (pct_change (- p))).
  assert (length (Num <$> ret) = length (rows df)) as Hlen1.
  { unfold ret. by rewrite length_fmap, length_groupby_transform, length_fmap. }
  unfold create_targets_step. cbv zeta. fold ret.
  set (df1 := set_column (target_return_name p) (Num <$> ret) df).
  assert (length (rows df1) = length (rows df)) as Hrows1
    by by apply rows_set_column_length.
  set (v2 := _ <$> column (target_return_name p) df1).
  assert (length v2 = length (rows df1)) as Hlen2.
  { unfold v2. by rewrite length_fmap, length_column. }
  set (df2 := set_column (target_direction_name p) v2 df1).
  assert (length (rows df2) = length (rows df1)) as Hrows2
    by by apply rows_set_column_length.
  set (v3 := zip_with _ _ _).
  assert (length v3 = length (rows df2)) as Hlen3.
  { unfold v3. rewrite length_zip_with, !length_column. lia. }
  split; [|split; [|split]].
  - rewrite set_column_fields by done. unfold df2.
    rewrite set_column_fields by done. unfold df1.
    by rewrite set_column_fields.
  - rewrite column_set_column_ne by done. unfold df2.
    rewrite column_set_column_ne by done. unfold df1.
    by rewrite column_set_column_eq.
  - intros c Hc1 Hc2. rewrite column_set_column_ne by done. unfold df2.
    rewrite column_set_column_ne by done. unfold df1.
    by rewrite column_set_column_ne.
  - intros c. rewrite elem_of_columns_set_column. unfold df2.
    rewrite elem_of_columns_set_column. unfold df1.
    rewrite elem_of_columns_set_column. tauto.
Qed.

Lemma target_names_eq :
  target_names
  = [target_return_name 3; target_direction_name 3; target_return_name 7;
     target_direction_name 7; target_return_name 14; target_direction_name 14].
Proof. reflexivity. Qed.

(** X5.  The Label Generator only adds columns: the table it returns has
    the rows of its input in the same order with the same typed fields,
    every column that is not a label column keeps its values, and the
    columns of the result are those of the input and the six label
    columns. *)
Theorem create_targets_only_adds_label_columns df :
  let out := create_targets df FORWARD_PERIODS in
  fields <$> rows out = fields <$> rows df
  ∧ (∀ c, c ∉ target_names → column c out = column c df)
  ∧ (∀ c, c ∈ columns out ↔ c ∈ columns df ∨ c ∈ target_names).
Proof.
  cbv zeta.
  change (create_targets df FORWARD_PERIODS)
    with (create_targets_step
            (create_targets_step (create_targets_step df 3) 7) 14).
  destruct (create_targets_step_frame df 3) as (F1 & _ & C1 & M1).
  destruct (create_targets_step_frame (create_targets_step df 3) 7)
    as (F2 & _ & C2 & M2).
  destruct (create_targets_step_frame
              (create_targets_step (create_targets_step df 3) 7) 14)
    as (F3 & _ & C3 & M3).
  cbv zeta in *. rewrite target_names_eq.
  split; [congruence|]. split.
  - intros c Hc. rewrite !elem_of_cons, elem_of_nil in Hc.
    rewrite C3, C2, C1; [done|intros ->; tauto..].
  - intros c. rewrite M3, M2, M1, !elem_of_cons, elem_of_nil. tauto.
Qed.

(** ** Grouped series *)

Lemma lookup_groupby_transform {K} `{EqDecision K} (keys : list K) xs f i k :
  keys !! i = Some k →
  groupby_transform keys xs f !! i
  = Some (get (f (group_of k keys xs)) (Z.of_nat (rank k keys i))).
Proof.
  intros Hk. unfold groupby_transform. by rewrite list_lookup_imap, Hk.
Qed.

Lemma group_of_cons {K A} `{EqDecision K} (k k0 : K) keys (x0 : A) xs :
  group_of k (k0 :: keys) (x0 :: xs)
  = if decide (k0 = k) then x0 :: group_of k keys xs else group_of k keys xs.
Proof.
  unfold group_of. simpl. destruct (decide (k0 = k)).
  - by rewrite filter_cons_True.
  - by rewrite filter_cons_False.
Qed.

Lemma rank_cons_S {K} `{EqDecision K} (k k0 : K) keys i :
  rank k (k0 :: keys) (S i)
  = if decide (k0 = k) then S (rank k keys i) else rank k keys i.
Proof.
  unfold rank. simpl. destruct (decide (k0 = k)).
  - by rewrite filter_cons_True.
  - by rewrite filter_cons_False.
Qed.

(** The value of a row sits in its group at the rank of the row. *)
Lemma lookup_group_of_rank {K A} `{EqDecision K} (keys : list K)
    (xs : list A) i k x :
  keys !! i = Some k → xs !! i = Some x →
  group_of k keys xs !! rank k keys i = Some x.
Proof.
  revert xs i. induction keys as [|k0 keys IH]; intros xs i Hk Hx; [done|].
  destruct xs as [|x0 xs]; [done|]. rewrite group_of_cons.
  destruct i as [|i]; simpl in Hk, Hx.
  - injection Hk as ->. injection Hx as ->.
    by rewrite decide_True.
  - rewrite rank_cons_S. destruct (decide (k0 = k)); simpl; by apply IH.
Qed.

Lemma group_of_Forall {K A} `{EqDecision K} (P : A → Prop) (k : K) keys xs :
  Forall P xs → Forall P (group_of k keys xs).
Proof.
  intros Hxs. unfold group_of. apply Forall_fmap, Forall_forall.
  intros [k' x] Hin. simpl.
  apply list_elem_of_filter in Hin as [_ Hin].
  apply elem_of_zip_r in Hin. by eapply Forall_forall in Hxs.
Qed.

Lemma get_lookup xs t x : xs !! t = Some x → get xs (Z.of_nat t) = x.
Proof.
  intros Hx. unfold get.
  destruct (Z.ltb_spec (Z.of_nat t) 0); [lia|]. by rewrite Nat2Z.id, Hx.
Qed.

Lemma get_beyond xs (i : Z) : (Z.of_nat (length xs) ≤ i)%Z → get xs i = NaN.
Proof.
  intros Hi. unfold get. destruct (Z.ltb_spec i 0); [done|].
  rewrite lookup_ge_None_2; [done|]. lia.
Qed.

(** The return column of a horizon, on the whole table. *)
Lemma create_targets_return_column df H :
  H ∈ FORWARD_PERIODS →
  fields <$> rows (create_targets df FORWARD_PERIODS) = fields <$> rows df
  ∧ column (target_return_name H) (create_targets df FORWARD_PERIODS)
    = Num <$> groupby_transform (asset <$> rows df) (close <$> rows df)
                (pct_change (- H)).
Proof.
  intros HH.
  change (create_targets df FORWARD_PERIODS)
    with (create_targets_step
            (create_targets_step (create_targets_step df 3) 7) 14).
  destruct (create_targets_step_frame df 3) as (F1 & R1 & C1 & _).
  destruct (create_targets_step_frame (create_targets_step df 3) 7)
    as (F2 & R2 & C2 & _).
  destruct (create_targets_step_frame
              (create_targets_step (create_targets_step df 3) 7) 14)
    as (F3 & R3 & C3 & _).
  cbv zeta in *.
  destruct (fields_asset_close _ _ F1) as [A1 K1].
  destruct (fields_asset_close _ _ F2) as [A2 K2].
  split; [congruence|].
  assert (H = 3 ∨ H = 7 ∨ H = 14)%Z as [->|[->| ->]].
  { unfold FORWARD_PERIODS in HH.
    rewrite !elem_of_cons, elem_of_nil in HH. tauto. }
  - rewrite C3, C2, R1; [done|names_differ..].
  - rewrite C3, R2, A1, K1; [done|names_differ..].
  - by rewrite R3, A2, K2, A1, K1.
Qed.

(** X4.  The forward return of a row is computed on the closes of its own
    asset only: with [t] the position of the row among the rows of its
    asset, it is close[t] / close[t + H] - 1 over that series (the current
    close divided by the later one), and it is NaN on the rows for which
    the asset has no row H places further, that is on the last H rows of
    every asset. *)
Theorem target_return_uses_own_asset_series df H i r :
  H ∈ FORWARD_PERIODS →
  Forall (λ x, isnan x = false) (close <$> rows df) →
  rows (create_targets df FORWARD_PERIODS) !! i = Some r →
  let series := group_of (asset r) (asset <$> rows df) (close <$> rows df) in
  let t := rank (asset r) (asset <$> rows df) i in
  series !! t = Some (close r)
  ∧ cellof (target_return_name H) r
    = Num (fsub (fdiv (close r) (get series (Z.of_nat t + H))) (Fin 1))
  ∧ ((Z.of_nat (length series) ≤ Z.of_nat t + H)%Z →
     cellof (target_return_name H) r = Num NaN).
Proof.
  intros HH Hclose Hr. cbv zeta.
  destruct (create_targets_return_column df H HH) as [Hf Hcol].
  assert (fields <$> (rows (create_targets df FORWARD_PERIODS) !! i)
          = fields <$> (rows df !! i)) as Hfi
    by by rewrite <- !list_lookup_fmap, Hf.
  rewrite Hr in Hfi. destruct (rows df !! i) as [r0|] eqn:Hr0; [|done].
  injection Hfi as Hd Ha Hat Ho Hh Hl Hc Hv.
  assert ((asset <$> rows df) !! i = Some (asset r)) as Hkey
    by by rewrite list_lookup_fmap, Hr0, Ha.
  assert ((close <$> rows df) !! i = Some (close r)) as Hx
    by by rewrite list_lookup_fmap, Hr0, Hc.
  pose proof (lookup_group_of_rank _ _ _ _ _ Hkey Hx) as Hgroup.
  assert (cellof (target_return_name H) r
          = Num (fsub (fdiv (close r)
                   (get (group_of (asset r) (asset <$> rows df)
                           (close <$> rows df))
                      (Z.of_nat (rank (asset r) (asset <$> rows df) i) + H)))
                   (Fin 1))) as Hret.
  { assert (column (target_return_name H) (create_targets df FORWARD_PERIODS)
              !! i = Some (cellof (target_return_name H) r)) as Hcell
      by (unfold column; by rewrite list_lookup_fmap, Hr).
    rewrite Hcol, list_lookup_fmap, (lookup_groupby_transform _ _ _ _ _ Hkey)
      in Hcell.
    simpl in Hcell. injection Hcell as <-. f_equal.
    apply get_lookup.
    rewrite (pct_change_lookup _ _ _ _
               (group_of_Forall _ _ _ _ Hclose) Hgroup).
    by rewrite Z.sub_opp_r. }
  split; [done|]. split; [done|].
  intros Hend. rewrite Hret, get_beyond by done. by destruct (close r).
Qed.

(** ** Feature Composer: the frame around the merged columns *)

Lemma unique_app {A} `{EqDecision A} (l l' : list A) :
  unique (l ++ l') = unique l ++ filter (λ y, y ∉ l) (unique l').
Proof.
  induction l as [|x l IH]; simpl.
  - symmetry. apply filter_all, Forall_forall. intros y _. apply not_elem_of_nil.
  - rewrite IH, filter_app, list_filter_filter. do 2 f_equal.
    apply list_filter_iff. intros y. rewrite elem_of_cons. tauto.
Qed.

Lemma unique_NoDup_id {A} `{EqDecision A} (l : list A) : NoDup l → unique l = l.
Proof.
  induction 1 as [|x l Hx _ IH]; simpl; [done|]. rewrite IH. f_equal.
  apply filter_all, Forall_forall. intros y Hy ->. done.
Qed.

(** The keys of [n] dictionaries with the same keys. *)
Lemma unique_repeated_keys {A B} `{EqDecision A} (names : list A)
    (g : B → list A) (l : list B) :
  NoDup names → (∀ x, g x = names) →
  unique (mjoin (g <$> l)) = if decide (l = []) then [] else names.
Proof.
  intros Hnd Hg. destruct l as [|x l]; [done|].
  rewrite decide_False by done. rewrite fmap_cons. simpl.
  rewrite unique_app, Hg, unique_NoDup_id by done.
  rewrite filter_none; [by rewrite app_nil_r|].
  apply Forall_forall. intros y Hy Hnot. apply Hnot.
  apply elem_of_unique, list_elem_of_join in Hy as (ks & Hy & Hks).
  apply list_elem_of_fmap in Hks as (b & -> & _). by rewrite Hg in Hy.
Qed.

Lemma fields_set_cells (f : list (string * float)) r :
  fields (foldl (λ r kv, set_cell kv.1 (Num kv.2) r) r f) = fields r.
Proof.
  revert r. induction f as [|kv f IH]; intros r; simpl; [done|].
  by rewrite IH.
Qed.

Lemma cellof_set_cells (f : list (string * float)) r c :
  c ∉ f.*1 → cellof c (foldl (λ r kv, set_cell kv.1 (Num kv.2) r) r f) = cellof c r.
Proof.
  revert r. induction f as [|kv f IH]; intros r Hc; simpl; [done|].
  rewrite fmap_cons, not_elem_of_cons in Hc. destruct Hc as [Hne Hc].
  rewrite IH by done. by apply cellof_set_cell_ne.
Qed.

(** Adding the dictionaries of a row-wise function to a frame. *)
Lemma concat_features_frame df (g : Row → list (string * float)) names :
  NoDup names → (∀ r, (g r).*1 = names) →
  let out := concat_features df (g <$> rows df) in
  fields <$> rows out = fields <$> rows df
  ∧ (∀ c, c ∉ names → column c out = column c df)
  ∧ columns out = columns df ++ (if decide (rows df = []) then [] else names).
Proof.
  intros Hnd Hg. cbv zeta. split; [|split].
  - apply list_eq. intros i. rewrite !list_lookup_fmap.
    destruct (rows df !! i) as [r|] eqn:Hr.
    + rewrite (lookup_concat_features _ _ _ _ Hr). simpl.
      by rewrite fields_set_cells.
    + simpl. rewrite lookup_zip_with, Hr. done.
  - intros c Hc. unfold column. apply list_eq. intros i.
    rewrite !list_lookup_fmap.
    destruct (rows df !! i) as [r|] eqn:Hr.
    + rewrite (lookup_concat_features _ _ _ _ Hr). simpl.
      rewrite cellof_set_cells; [done|]. by rewrite Hg.
    + simpl. rewrite lookup_zip_with, Hr. done.
  - unfold concat_features. simpl. f_equal.
    rewrite <- list_fmap_compose.
    by apply (unique_repeated_keys names (λ r, (g r).*1)).
Qed.

Lemma sentiment_row_features_keys ms lag r :
  (sentiment_row_features ms lag r).*1 = sentiment_names.
Proof. unfold sentiment_row_features. by destruct (_ <? _)%nat. Qed.

Lemma trends_row_features_keys tr lag r :
  (trends_row_features tr lag r).*1 = trends_names.
Proof. unfold trends_row_features. by destruct (_ <? _)%nat. Qed.

Lemma NoDup_sentiment_names : NoDup sentiment_names.
Proof. apply (bool_decide_unpack _). by vm_compute. Qed.

Lemma NoDup_trends_names : NoDup trends_names.
Proof. apply (bool_decide_unpack _). by vm_compute. Qed.

(** X6.  With its auxiliary table present, a merge only appends columns:
    the rows keep their order and their typed fields, every other column
    keeps its values, and the four sentiment columns (the six
    search-interest columns) are appended after the existing ones, in the
    order of the dictionary; on a table without rows nothing is appended. *)
Theorem merges_only_append_columns df ms tr lag :
  (let out := merge_sentiment_features df (Some ms) lag in
   fields <$> rows out = fields <$> rows df
   ∧ (∀ c, c ∉ sentiment_names → column c out = column c df)
   ∧ columns out
     = columns df ++ (if decide (rows df = []) then [] else sentiment_names))
  ∧ (let out := merge_google_trends df (Some tr) lag in
     fields <$> rows out = fields <$> rows df
     ∧ (∀ c, c ∉ trends_names → column c out = column c df)
     ∧ columns out
       = columns df ++ (if decide (rows df = []) then [] else trends_names)).
Proof.
  split.
  - apply concat_features_frame;
      [apply NoDup_sentiment_names|apply sentiment_row_features_keys].
  - apply concat_features_frame;
      [apply NoDup_trends_names|apply trends_row_features_keys].
Qed.

(** ** Feature Composer: no look-ahead *)

Lemma sentiment_lag_window_app ms extra d lag :
  Forall (λ s, (d < ms_date s)%Z) extra →
  sentiment_lag_window (ms ++ extra) d lag = sentiment_lag_window ms d lag.
Proof.
  intros H. unfold sentiment_lag_window. rewrite filter_app.
  rewrite (filter_none _ extra); [by rewrite app_nil_r|].
  eapply Forall_impl; [done|]. simpl. lia.
Qed.

Lemma trends_lag_window_app tr extra a d lag :
  Forall (λ t, (d < tr_date t)%Z) extra →
  trends_lag_window (tr ++ extra) a d lag = trends_lag_window tr a d lag.
Proof.
  intros H. unfold trends_lag_window. rewrite filter_app.
  rewrite (filter_none _ extra); [by rewrite app_nil_r|].
  eapply Forall_impl; [done|]. simpl. lia.
Qed.

Lemma fmap_ext_in {A B} (f g : A → B) (l : list A) :
  (∀ x, x ∈ l → f x = g x) → f <$> l = g <$> l.
Proof.
  intros H. apply list_eq. intros i. rewrite !list_lookup_fmap.
  destruct (l !! i) as [x|] eqn:Hx; [|done]. simpl. f_equal.
  apply H. by eapply list_elem_of_lookup_2.
Qed.

(** X7.  The merged features never look ahead: auxiliary rows dated after
    every row of the feature table (data that arrive later) change
    nothing in the merged table. *)
Theorem merges_ignore_later_data df ms tr later_ms later_tr lag :
  (∀ r s, r ∈ rows df → s ∈ later_ms → (date r < ms_date s)%Z) →
  (∀ r t, r ∈ rows df → t ∈ later_tr → (date r < tr_date t)%Z) →
  merge_sentiment_features df (Some (ms ++ later_ms)) lag
  = merge_sentiment_features df (Some ms) lag
  ∧ merge_google_trends df (Some (tr ++ later_tr)) lag
    = merge_google_trends df (Some tr) lag.
Proof.
  intros Hms Htr. unfold merge_sentiment_features, merge_google_trends. split.
  - f_equal. apply fmap_ext_in. intros r Hr. unfold sentiment_row_features.
    rewrite sentiment_lag_window_app; [done|].
    apply Forall_forall. intros s Hs. by apply Hms.
  - f_equal. apply fmap_ext_in. intros r Hr. unfold trends_row_features.
    rewrite trends_lag_window_app; [done|].
    apply Forall_forall. intros t Ht. by apply Htr.
Qed.

(** ** Feature Composer: a window with a single point *)

Lemma smean_single v : ∃ m, smean [Fin v] = Fin m ∧ (m == v)%Q.
Proof.
  exists (Qred (Qred (0 + v) / 1)). split; [reflexivity|].
  rewrite !Qred_correct. field.
Qed.

(** X8.  A lag window with exactly one point: the trend is 0, and for
    search interest the mean, max, min and current value are that point
    while the standard deviation is NaN (a sample deviation needs two
    points), not the 0 written for an empty window; for sentiment the mean
    is that day's mean, and a day whose own deviation is missing gives a
    missing deviation feature. *)
Theorem single_point_window_features df ms tr lag i r :
  rows df !! i = Some r →
  (∀ s m, sentiment_lag_window ms (date r) lag = [s] →
          sentiment_mean s = Fin m →
     ∃ r', rows (merge_sentiment_features df (Some ms) lag) !! i = Some r'
       ∧ (∃ m', cellof "sentiment_mean_7d" r' = Num (Fin m') ∧ (m' == m)%Q)
       ∧ cellof "sentiment_trend_7d" r' = Num (Fin 0)
       ∧ (sentiment_std s = NaN → cellof "sentiment_std_7d" r' = Num NaN))
  ∧ (∀ t v, trends_lag_window tr (asset r) (date r) lag = [t] →
            interest t = Fin v →
     ∃ r', rows (merge_google_trends df (Some tr) lag) !! i = Some r'
       ∧ (∃ m', cellof "trends_interest_mean_7d" r' = Num (Fin m')
                ∧ (m' == v)%Q)
       ∧ cellof "trends_interest_max_7d" r' = Num (Fin v)
       ∧ cellof "trends_interest_min_7d" r' = Num (Fin v)
       ∧ cellof "trends_interest_current" r' = Num (Fin v)
       ∧ cellof "trends_interest_std_7d" r' = Num NaN
       ∧ cellof "trends_interest_trend_7d" r' = Num (Fin 0)).
Proof.
  intros Hr. split.
  - intros s m Hw Hm. eexists. split; [by apply lookup_concat_features|].
    unfold sentiment_row_features. rewrite Hw. simpl. rewrite Hm.
    destruct (smean_single m) as (m' & Hm' & Heq).
    split; [|split].
    + read_cell. rewrite Hm'. eauto.
    + by read_cell.
    + intros ->. by read_cell.
  - intros t v Hw Hv. eexists. split; [by apply lookup_concat_features|].
    unfold trends_row_features. rewrite Hw. simpl. rewrite Hv.
    destruct (smean_single v) as (m' & Hm' & Heq).
    split; [|repeat split]; try by read_cell.
    read_cell. rewrite Hm'. eauto.
Qed.

(** ** Indicator Engine: the frame around the indicators *)

Lemma run_assignments_keeps_fields n steps d :
  Forall (keeps_fields n) steps → length (rows d) = n →
  fields <$> rows (run_assignments steps d) = fields <$> rows d.
Proof.
  intros Hsteps. revert d. induction Hsteps as [|step steps Hstep _ IH];
    intros d Hd; [done|].
  unfold run_assignments in *. simpl.
  rewrite IH; [by apply Hstep|].
  rewrite (length_rows_of_fields d); auto.
Qed.

Lemma keeps_fields_set_num n c vals :
  length vals = n → keeps_fields n (set_num c vals).
Proof.
  intros Hlen d Hd. apply set_column_fields. rewrite length_fmap. lia.
Qed.

Lemma keeps_fields_set_nums n cs :
  Forall (λ m, length m.2 = n) cs → keeps_fields n (set_nums cs).
Proof.
  intros Hcs d Hd. unfold set_nums.
  apply (run_assignments_keeps_fields n ((λ m, set_num m.1 m.2) <$> cs)) in Hd.
  - by unfold run_assignments in Hd; rewrite foldl_fmap in Hd.
  - apply Forall_fmap. eapply Forall_impl; [done|].
    intros m Hm. by apply keeps_fields_set_num.
Qed.

Lemma asset_indicators_fields d :
  fields <$> rows (asset_indicators d) = fields <$> rows d.
Proof.
  unfold asset_indicators. cbv zeta.
  apply (run_assignments_keeps_fields (length (rows d))); [|done].
  repeat apply Forall_cons_2; try apply Forall_nil_2;
    try (apply keeps_fields_set_num; by series_length);
    try (apply keeps_fields_set_nums;
         repeat apply Forall_cons_2; try apply Forall_nil_2; simpl;
         by series_length);
    try (intros d' Hd'; unfold set_flag, set_num, num_column;
         apply set_column_fields; by series_length).
Qed.

Lemma run_assignments_adds_columns names steps d c :
  Forall2 adds_columns names steps →
  c ∈ columns (run_assignments steps d) ↔ c ∈ columns d ∨ c ∈ mjoin names.
Proof.
  intros H. revert d. induction H as [|ns step names steps Hstep _ IH];
    intros d.
  - simpl. rewrite elem_of_nil. tauto.
  - unfold run_assignments in *. simpl. rewrite IH, (Hstep d c), elem_of_app.
    tauto.
Qed.

Lemma adds_columns_set_column c vals :
  adds_columns [c] (set_column c vals).
Proof.
  intros d c'. rewrite elem_of_columns_set_column, list_elem_of_singleton. tauto.
Qed.

Lemma adds_columns_set_nums (cs : list (string * list float)) :
  adds_columns cs.*1 (set_nums cs).
Proof.
  intros d c. unfold set_nums. revert d.
  induction cs as [|m cs IH]; intros d; simpl.
  - rewrite elem_of_nil. tauto.
  - rewrite IH. unfold set_num. rewrite elem_of_columns_set_column, elem_of_cons.
    tauto.
Qed.

Lemma asset_indicators_columns d c :
  c ∈ columns (asset_indicators d) ↔ c ∈ columns d ∨ c ∈ indicator_names.
Proof.
  unfold asset_indicators. cbv zeta.
  apply (run_assignments_adds_columns indicator_names_by_step).
  unfold indicator_names_by_step.
  pose proof (λ c v, adds_columns_set_column c (Num <$> v)) as Hnum.
  pose proof (λ a b c, adds_columns_set_nums [a; b; c]) as Hnums3.
  pose proof (λ a b c e f, adds_columns_set_nums [a; b; c; e; f]) as Hnums5.
  repeat apply Forall2_cons_2; try apply Forall2_nil_2.
  - apply Hnum.
  - intros d' c'. unfold calculate_macd. cbv zeta. apply Hnums3.
  - intros d' c'. unfold calculate_bollinger_bands. cbv zeta. apply Hnums5.
  - apply Hnums3.
  - intros d' c'. apply adds_columns_set_column.
  - apply Hnum.
  - apply Hnum.
  - apply Hnum.
  - apply Hnum.
  - apply Hnums3.
  - apply Hnum.
  - apply Hnum.
  - intros d' c'. apply adds_columns_set_column.
  - intros d' c'. apply adds_columns_set_column.
Qed.

Lemma calculate_technical_features_is_Some df a :
  100 ≤ n_obs a df → is_Some (calculate_technical_features df).
Proof.
  intros Hn. apply elem_of_kept_assets in Hn.
  unfold calculate_technical_features, pd_concat. rewrite all_features_kept.
  destruct (kept_assets df); [by apply elem_of_nil in Hn|]. by eexists.
Qed.

Lemma fmap_join {A B} (f : A → B) (ls : list (list A)) :
  f <$> mjoin ls = mjoin (fmap f <$> ls).
Proof.
  induction ls as [|l ls IH]; [done|]. simpl. by rewrite fmap_app, IH.
Qed.

(** Two lists of the same rows, both in the order of their dates, are equal
    when no two rows have the same date: the order of the sort is specified
    on them. *)
Lemma date_sorted_unique (l1 l2 : list Row) :
  StronglySorted (λ r1 r2, (date r1 ≤ date r2)%Z) l1 →
  StronglySorted (λ r1 r2, (date r1 ≤ date r2)%Z) l2 →
  l1 ≡ₚ l2 → NoDup (date <$> l1) → l1 = l2.
Proof.
  revert l2. induction l1 as [|x l1 IH]; intros l2 H1 H2 Hp Hnd.
  - by apply Permutation_nil_l in Hp.
  - destruct l2 as [|y l2]; [by apply Permutation_nil_r in Hp|].
    apply StronglySorted_inv in H1 as [H1 Hx].
    apply StronglySorted_inv in H2 as [H2 Hy].
    rewrite fmap_cons in Hnd. apply NoDup_cons in Hnd as [Hnx Hnd].
    assert (x = y) as ->.
    { assert (x ∈ y :: l2) as Hxl by (rewrite <- Hp; by left).
      assert (y ∈ x :: l1) as Hyl by (rewrite Hp; by left).
      apply elem_of_cons in Hxl as [|Hxl]; [done|].
      apply elem_of_cons in Hyl as [|Hyl]; [done|]. exfalso.
      rewrite Forall_forall in Hx, Hy.
      pose proof (Hx y Hyl). pose proof (Hy x Hxl).
      apply Hnx. replace (date x) with (date y) by lia.
      by apply list_elem_of_fmap_2. }
    f_equal. apply IH; [done|done| |done].
    by apply Permutation_cons_inv in Hp.
Qed.

Lemma NoDup_dates_of_asset a (rs : list Row) :
  NoDup (key <$> rs) → NoDup (date <$> filter (λ r, asset r = a) rs).
Proof.
  induction rs as [|r rs IH]; [intros _; constructor|].
  rewrite fmap_cons. intros [Hr Hnd]%NoDup_cons.
  rewrite filter_cons. destruct (decide (asset r = a)) as [Ha|]; [|by apply IH].
  rewrite fmap_cons. apply NoDup_cons. split; [|by apply IH].
  intros Hin. apply Hr.
  apply list_elem_of_fmap in Hin as (r' & Hd & [Ha' Hin]%list_elem_of_filter).
  apply list_elem_of_fmap. exists r'. split; [|done].
  unfold key. by rewrite Hd, Ha, Ha'.
Qed.

Lemma select_asset_rows_by_date a df :
  NoDup (key <$> rows df) →
  rows (select_asset a df) = asset_rows_by_date a df.
Proof.
  intros Hnd. unfold select_asset, asset_rows_by_date. cbn [rows].
  apply date_sorted_unique.
  - apply (sort_values_date_sorted quicksort).
  - apply sort_by_date_sorted.
  - by rewrite (sort_values_date_Permutation quicksort), sort_by_Permutation.
  - rewrite (sort_values_date_Permutation quicksort). by apply NoDup_dates_of_asset.
Qed.

(** X9.  When no asset has two rows of one date, the table of the Indicator
    Engine is laid out asset by asset: the assets with at least 100
    observations in the order of their first appearance in the input, and
    the rows of one asset by date; the date, the asset, the asset type, the
    prices and the volume of a row are the ones of the input.  Its columns
    are the input's and the indicator columns, each listed once (this part
    holds of every input). *)
Theorem technical_features_layout df out :
  calculate_technical_features df = Some out →
  (NoDup (key <$> rows df) →
   fields <$> rows out
   = mjoin ((λ a, fields <$> asset_rows_by_date a df) <$> kept_assets df))
  ∧ (∀ c, c ∈ columns out ↔ c ∈ columns df ∨ c ∈ indicator_names)
  ∧ NoDup (columns out).
Proof.
  intros Hout. split; [|split].
  - intros Hnd.
    rewrite (calculate_technical_features_rows _ _ Hout), fmap_join.
    rewrite <- list_fmap_compose. f_equal. apply list_fmap_ext.
    intros _ a _. unfold compose.
    by rewrite asset_indicators_fields, select_asset_rows_by_date.
  - unfold calculate_technical_features, pd_concat in Hout.
    rewrite all_features_kept in Hout.
    destruct (kept_assets df) as [|a l] eqn:Hk; [done|].
    rewrite <- Hk in Hout. rewrite Hk in Hout at 1. simpl in Hout.
    injection Hout as <-. intros c. cbn [columns].
    rewrite elem_of_unique, list_elem_of_join. split.
    + intros (cs & Hc & Hcs).
      apply list_elem_of_fmap in Hcs as (d & -> & Hd).
      apply list_elem_of_fmap in Hd as (a' & -> & _).
      by apply asset_indicators_columns in Hc.
    + intros Hc. exists (columns (asset_indicators (select_asset a df))).
      split; [by apply asset_indicators_columns|].
      apply list_elem_of_fmap. eexists. split; [done|].
      apply list_elem_of_fmap. exists a. split; [done|].
      rewrite Hk. apply elem_of_cons. by left.
  - unfold calculate_technical_features, pd_concat in Hout.
    destruct (all_features df); [done|]. injection Hout as <-.
    apply NoDup_unique.
Qed.

(** ** Means of bounded observations *)

Lemma within_notna lo hi x : within lo hi x → notna x.
Proof. by destruct x. Qed.

Lemma dropna_within lo hi xs : Forall (within lo hi) xs → dropna xs = xs.
Proof.
  intros H. apply filter_all. eapply Forall_impl; [done|].
  apply within_notna.
Qed.

Lemma observations_within lo hi xs :
  Forall (within lo hi) xs → observations xs = xs.
Proof.
  intros H. apply observations_finite. eapply Forall_impl; [done|].
  by intros [| | |].
Qed.

Lemma foldl_fadd_within lo hi xs a :
  Forall (within lo hi) xs →
  ∃ s, foldl fadd (Fin a) xs = Fin s
       ∧ (a + inject_Z (Z.of_nat (length xs)) * lo <= s)%Q
       ∧ (s <= a + inject_Z (Z.of_nat (length xs)) * hi)%Q.
Proof.
  intros Hxs. revert a. induction Hxs as [|x xs Hx _ IH]; intros a.
  - exists a. split; [done|]. cbn [length].
    change (inject_Z (Z.of_nat 0)) with 0%Q. split; lra.
  - destruct x as [q| | |]; try done. destruct Hx as [Hlo Hhi].
    cbn [foldl fadd]. destruct (IH (Qred (a + q))) as (s & -> & H1 & H2).
    exists s. split; [done|]. rewrite Qred_correct in H1, H2.
    rewrite length_cons, Nat2Z.inj_succ. unfold Z.succ. rewrite inject_Z_plus.
    change (inject_Z 1) with 1%Q. split; lra.
Qed.

Lemma fmean_within lo hi xs :
  xs ≠ [] → Forall (within lo hi) xs → within lo hi (fmean xs).
Proof.
  intros Hne Hxs. unfold fmean, fsum.
  destruct (foldl_fadd_within lo hi xs 0 Hxs) as (s & -> & H1 & H2).
  unfold of_nat, of_Z, fdiv.
  assert (0 < inject_Z (Z.of_nat (length xs)))%Q as Hn.
  { destruct xs; [done|]. unfold Qlt; simpl. lia. }
  destruct (Qeq_bool _ 0) eqn:Heq.
  { apply Qeq_bool_iff in Heq. lra. }
  simpl. rewrite Qred_correct. split.
  - apply Qle_shift_div_l; [done|]. lra.
  - apply Qle_shift_div_r; [done|]. lra.
Qed.

Lemma window_nonempty w xs t :
  1 ≤ w → t < length xs → window w xs t ≠ [].
Proof.
  intros Hw Ht Hnil. apply (f_equal length) in Hnil.
  rewrite length_window in Hnil by done. simpl in Hnil. lia.
Qed.

Lemma rolling_mean_within lo hi period xs t :
  1 ≤ period → Forall (within lo hi) xs → t < length xs →
  (t + 1 < period → rolling period period fmean xs !! t = Some NaN)
  ∧ (period ≤ t + 1 →
     ∃ m, rolling period period fmean xs !! t = Some (Fin m)
          ∧ (lo <= m)%Q ∧ (m <= hi)%Q).
Proof.
  intros Hp Hxs Ht. rewrite lookup_rolling by done. cbv zeta.
  rewrite (observations_within lo hi (window period xs t))
    by by apply Forall_window.
  rewrite length_window by done.
  destruct (Nat.ltb_spec ((t + 1) `min` period) period) as [Hlt|Hge].
  - split; [done|lia].
  - split; [lia|]. intros _.
    assert (within lo hi (fmean (window period xs t))) as Hm.
    { apply fmean_within; [by apply window_nonempty|by apply Forall_window]. }
    destruct (fmean _) as [m| | |]; try done. eauto.
Qed.

(** X10.  A moving average of closes that all lie between [lo] and [hi] is
    missing on the first period-1 rows and lies between [lo] and [hi] from
    then on; every requested period gets its column, as long as the
    series. *)
Theorem moving_average_warmup_and_bounds series periods p lo hi t :
  p ∈ periods → 1 ≤ p → Forall (within lo hi) series → t < length series →
  ∃ ma, (ma_name p, ma) ∈ calculate_moving_averages series periods
        ∧ length ma = length series
        ∧ (t + 1 < p → ma !! t = Some NaN)
        ∧ (p ≤ t + 1 →
           ∃ m, ma !! t = Some (Fin m) ∧ (lo <= m)%Q ∧ (m <= hi)%Q).
Proof.
  intros Hin Hp Hs Ht. exists (rolling p p fmean series). split; [|split].
  - unfold calculate_moving_averages. apply list_elem_of_fmap. eauto.
  - apply length_rolling.
  - by apply rolling_mean_within.
Qed.

(** ** The RSI of a series that only rises, or only falls *)

Lemma diff_cases series i d :
  Forall is_finite series → diff 1 series !! i = Some d →
  (i = 0 ∧ d = NaN)
  ∨ ∃ i' x y, i = S i' ∧ series !! i' = Some (Fin x)
              ∧ series !! i = Some (Fin y) ∧ d = Fin (Qred (y + - x)).
Proof.
  intros Hs Hd. unfold diff in Hd.
  apply lookup_zip_with_Some in Hd as (y & p & -> & Hy & Hp).
  unfold shift in Hp. apply list_lookup_imap_Some in Hp as (_ & _ & ->).
  pose proof (Forall_lookup_1 _ _ _ _ Hs Hy) as Hfy.
  destruct y as [y| | |]; try done.
  destruct i as [|i'].
  - left. split; [done|]. reflexivity.
  - right. destruct (lookup_lt_is_Some_2 series i') as [x Hx].
    { apply lookup_lt_Some in Hy. lia. }
    pose proof (Forall_lookup_1 _ _ _ _ Hs Hx) as Hfx.
    destruct x as [x| | |]; try done.
    exists i', x, y. split; [done|]. split; [done|]. split; [done|].
    replace (Z.of_nat (S i') - 1)%Z with (Z.of_nat i') by lia.
    by rewrite (get_lookup _ _ _ Hx).
Qed.

Lemma Qlt_bool_true a b : (a < b)%Q → Qlt_bool a b = true.
Proof.
  intros H. unfold Qlt_bool. destruct (Qle_bool b a) eqn:Hle; [|done].
  apply Qle_bool_iff in Hle. lra.
Qed.

Lemma Qlt_bool_false a b : (b <= a)%Q → Qlt_bool a b = false.
Proof.
  intros H. unfold Qlt_bool. apply Qle_bool_iff in H. by rewrite H.
Qed.

Lemma rising_gain_loss series i d :
  Forall is_finite series → rising series → diff 1 series !! i = Some d →
  (1 ≤ i → positive (if fgt d (Fin 0) then d else Fin 0))
  ∧ within 0 0 (fneg (if flt d (Fin 0) then d else Fin 0)).
Proof.
  intros Hs Hr Hd.
  destruct (diff_cases _ _ _ Hs Hd)
    as [[-> ->]|(i' & x & y & -> & Hx & Hy & ->)].
  - split; [lia|]. simpl. lra.
  - pose proof (Hr _ _ _ Hx Hy) as Hlt.
    assert (0 < Qred (y + - x))%Q as Hpos by (rewrite Qred_correct; lra).
    unfold fgt, flt. rewrite (Qlt_bool_true 0) by done.
    rewrite (Qlt_bool_false _ 0) by lra. split; [done|]. simpl. lra.
Qed.

Lemma falling_gain_loss series i d :
  Forall is_finite series → falling series → diff 1 series !! i = Some d →
  within 0 0 (if fgt d (Fin 0) then d else Fin 0)
  ∧ (1 ≤ i → positive (fneg (if flt d (Fin 0) then d else Fin 0))).
Proof.
  intros Hs Hr Hd.
  destruct (diff_cases _ _ _ Hs Hd)
    as [[-> ->]|(i' & x & y & -> & Hx & Hy & ->)].
  - split; [|lia]. simpl. lra.
  - pose proof (Hr _ _ _ Hx Hy) as Hlt.
    assert (Qred (y + - x) < 0)%Q as Hneg by (rewrite Qred_correct; lra).
    unfold fgt, flt. rewrite (Qlt_bool_true _ 0) by done.
    rewrite (Qlt_bool_false 0) by lra. split; [simpl; lra|]. intros _.
    simpl. lra.
Qed.

Lemma foldl_fadd_positive xs a :
  Forall nonneg xs →
  ∃ s, foldl fadd (Fin a) xs = Fin s ∧ (a <= s)%Q
       ∧ (Exists positive xs → (a < s)%Q).
Proof.
  intros Hxs. revert a. induction Hxs as [|x xs Hx _ IH]; intros a.
  - exists a. split; [done|]. split; [lra|]. by intros ?%Exists_nil.
  - destruct x as [q| | |]; try done. simpl in Hx.
    cbn [foldl fadd]. destruct (IH (Qred (a + q))) as (s & -> & H1 & H2).
    exists s. split; [done|]. rewrite Qred_correct in H1, H2.
    split; [lra|]. intros [Hq|Hex]%Exists_cons.
    + simpl in Hq. lra.
    + specialize (H2 Hex). lra.
Qed.

Lemma fmean_positive xs :
  Forall nonneg xs → Exists positive xs → positive (fmean xs).
Proof.
  intros Hxs Hex. unfold fmean, fsum.
  destruct (foldl_fadd_positive xs 0 Hxs) as (s & -> & _ & Hs).
  specialize (Hs Hex). unfold of_nat, of_Z, fdiv.
  assert (0 < inject_Z (Z.of_nat (length xs)))%Q as Hn.
  { destruct xs; [by apply Exists_nil in Hex|]. unfold Qlt; simpl. lia. }
  destruct (Qeq_bool _ 0) eqn:Heq.
  { apply Qeq_bool_iff in Heq. lra. }
  simpl. rewrite Qred_correct. apply Qlt_shift_div_l; [done|]. lra.
Qed.

Lemma elem_of_window w (xs : list float) t x :
  1 ≤ w → xs !! t = Some x → x ∈ window w xs t.
Proof.
  intros Hw Hx. unfold window. apply list_elem_of_lookup.
  exists (t - (t + 1 - w)). rewrite lookup_drop, lookup_take_lt by lia.
  rewrite <- Hx. f_equal. lia.
Qed.

Lemma within_nonneg hi x : within 0 hi x → nonneg x.
Proof. destruct x; try done. by intros [? _]. Qed.

Lemma positive_nonneg x : positive x → nonneg x.
Proof. destruct x; try done. simpl. lra. Qed.

Lemma rolling_mean_full period xs t :
  1 ≤ period → period ≤ t + 1 → Forall nonneg xs → t < length xs →
  rolling period period fmean xs !! t = Some (fmean (window period xs t)).
Proof.
  intros Hp Hge Hxs Ht. rewrite lookup_rolling by done. cbv zeta.
  rewrite (observations_nonneg (window period xs t))
    by by apply Forall_window.
  rewrite length_window by done.
  destruct (Nat.ltb_spec ((t + 1) `min` period) period); [lia|done].
Qed.

Lemma rolling_mean_zero period xs t :
  1 ≤ period → period ≤ t + 1 → Forall (within 0 0) xs → t < length xs →
  ∃ m, rolling period period fmean xs !! t = Some (Fin m) ∧ (m == 0)%Q.
Proof.
  intros Hp Hge Hxs Ht.
  destruct (proj2 (rolling_mean_within 0 0 period xs t Hp Hxs Ht) Hge)
    as (m & Hm & ? & ?).
  exists m. split; [done|]. lra.
Qed.

Lemma rolling_mean_positive period xs t :
  1 ≤ period → period ≤ t + 1 → Forall nonneg xs → t < length xs →
  (∀ x, xs !! t = Some x → positive x) →
  ∃ m, rolling period period fmean xs !! t = Some (Fin m) ∧ (0 < m)%Q.
Proof.
  intros Hp Hge Hxs Ht Hpos. rewrite rolling_mean_full by done.
  destruct (lookup_lt_is_Some_2 xs t Ht) as [x Hx].
  assert (positive (fmean (window period xs t))) as Hm.
  { apply fmean_positive; [by apply Forall_window|].
    apply Exists_exists. exists x. split; [by apply elem_of_window|eauto]. }
  destruct (fmean _) as [m| | |]; try done. eauto.
Qed.

Lemma rising_gains_losses series :
  Forall is_finite series → rising series →
  Forall (within 0 0)
    (fneg <$> where_ (λ d, flt d (Fin 0)) (Fin 0) (diff 1 series))
  ∧ ∀ t x, 1 ≤ t →
      where_ (λ d, fgt d (Fin 0)) (Fin 0) (diff 1 series) !! t = Some x →
      positive x.
Proof.
  intros Hs Hr. split.
  - apply Forall_lookup. intros i x Hx. unfold where_ in Hx.
    rewrite list_lookup_fmap in Hx.
    change (map ?f ?l) with (f <$> l) in Hx. rewrite list_lookup_fmap in Hx.
    destruct (diff 1 series !! i) as [d|] eqn:Hd; [|done].
    injection Hx as <-. by apply (rising_gain_loss series i d).
  - intros t x Ht Hx. unfold where_ in Hx.
    change (map ?f ?l) with (f <$> l) in Hx. rewrite list_lookup_fmap in Hx.
    destruct (diff 1 series !! t) as [d|] eqn:Hd; [|done].
    injection Hx as <-. by apply (rising_gain_loss series t d).
Qed.

Lemma falling_gains_losses series :
  Forall is_finite series → falling series →
  Forall (within 0 0) (where_ (λ d, fgt d (Fin 0)) (Fin 0) (diff 1 series))
  ∧ ∀ t x, 1 ≤ t →
      (fneg <$> where_ (λ d, flt d (Fin 0)) (Fin 0) (diff 1 series)) !! t
      = Some x →
      positive x.
Proof.
  intros Hs Hr. split.
  - apply Forall_lookup. intros i x Hx. unfold where_ in Hx.
    change (map ?f ?l) with (f <$> l) in Hx. rewrite list_lookup_fmap in Hx.
    destruct (diff 1 series !! i) as [d|] eqn:Hd; [|done].
    injection Hx as <-. by apply (falling_gain_loss series i d).
  - intros t x Ht Hx. unfold where_ in Hx. rewrite list_lookup_fmap in Hx.
    change (map ?f ?l) with (f <$> l) in Hx. rewrite list_lookup_fmap in Hx.
    destruct (diff 1 series !! t) as [d|] eqn:Hd; [|done].
    injection Hx as <-. by apply (falling_gain_loss series t d).
Qed.

(** X11.  On closes that rise from each row to the next, the RSI is 100 on
    every row past the warm-up; on closes that fall from each row to the
    next it is 0, a value that [pd.cut] places in no bin: such a row has no
    market position, although its RSI is below every oversold level. *)
Theorem rsi_of_monotone_series series period t :
  Forall is_finite series → 1 ≤ period → period ≤ t + 1 → 1 ≤ t →
  t < length series →
  (rising series → calculate_rsi series period !! t = Some (Fin 100))
  ∧ (falling series →
     calculate_rsi series period !! t = Some (Fin 0)
     ∧ pd_cut (Fin 0) = NA ∧ lt_c 25 (Fin 0) = true).
Proof.
  intros Hs Hp Hge H1 Ht.
  assert (t < length (where_ (λ d, fgt d (Fin 0)) (Fin 0) (diff 1 series)))
    as Htg by (rewrite length_where_, length_diff; lia).
  assert (t < length (fneg <$> where_ (λ d, flt d (Fin 0)) (Fin 0)
                                 (diff 1 series)))
    as Htl by (rewrite length_fmap, length_where_, length_diff; lia).
  rewrite calculate_rsi_eq, list_lookup_fmap, lookup_zip_with.
  unfold rsi_gain, rsi_loss. split.
  - intros Hr. destruct (rising_gains_losses series Hs Hr) as [Hl Hg].
    destruct (rolling_mean_positive period _ t Hp Hge (gains_nonneg _ Hs) Htg)
      as (g & -> & Hgpos); [eauto|].
    destruct (rolling_mean_zero period _ t Hp Hge Hl Htl) as (l & -> & Hl0).
    simpl. unfold fdiv. rewrite (proj2 (Qeq_bool_iff l 0) Hl0).
    unfold scale_inf.
    assert (0 < Qnum g)%Z as Hnum.
    { unfold Qlt in Hgpos. simpl in Hgpos. lia. }
    destruct (Z.compare_spec (Qnum g) 0); try lia. reflexivity.
  - intros Hf. destruct (falling_gains_losses series Hs Hf) as [Hg Hl].
    destruct (rolling_mean_zero period _ t Hp Hge Hg Htg) as (g & -> & Hg0).
    destruct (rolling_mean_positive period _ t Hp Hge (losses_nonneg _ Hs) Htl)
      as (l & -> & Hlpos); [eauto|].
    split; [|split; reflexivity].
    simpl.
    destruct (Qeq_bool l 0) eqn:Heq.
    { apply Qeq_bool_iff in Heq. lra. }
    assert (Qred (g / l) = 0%Q) as ->; [|reflexivity].
    change 0%Q with (Qred 0). apply Qred_complete.
    rewrite Hg0. field. lra.
Qed.

(** ** The MACD of a flat series *)

Lemma ewm_go_constant alpha c w n :
  ewm_go alpha (Fin c) w (replicate n (Fin c)) = replicate n (Fin c).
Proof.
  revert w. induction n as [|n IH]; intros w; [done|].
  cbn [replicate ewm_go notna isnan negb feqb].
  rewrite (proj2 (Qeq_bool_iff c c)) by reflexivity. by rewrite IH.
Qed.

Lemma ewm_mean_constant span c n :
  ewm_mean span (replicate n (Fin c)) = replicate n (Fin c).
Proof.
  unfold ewm_mean. rewrite fmap_replicate. cbn [inf_to_nan isfinite].
  destruct n as [|n]; [done|]. cbn [replicate].
  by rewrite ewm_go_constant.
Qed.

Lemma fsub_self c : fsub (Fin c) (Fin c) = Fin 0.
Proof.
  unfold fsub, fneg, fadd. f_equal. change 0%Q with (Qred 0).
  apply Qred_complete. lra.
Qed.

(** X12.  On a series that stays at one value the two exponential averages
    are that value on every row, so the MACD line, its signal line and the
    histogram are 0 on every row, from the first one on (the exponential
    averages have no warm-up). *)
Theorem macd_of_constant_series c n fast slow signal :
  calculate_macd (replicate n (Fin c)) fast slow signal
  = (replicate n (Fin 0), replicate n (Fin 0), replicate n (Fin 0)).
Proof.
  unfold calculate_macd. cbv zeta.
  rewrite !ewm_mean_constant, zip_with_replicate, fsub_self.
  by rewrite ewm_mean_constant, zip_with_replicate, fsub_self.
Qed.

(** ** On-balance volume *)

Lemma cumsum_from_head acc xs x :
  xs !! 0 = Some x → notna x → cumsum_from acc xs !! 0 = Some (fadd acc x).
Proof.
  destruct xs as [|x' xs]; [done|]. intros [= ->] Hx. simpl.
  destruct x; done.
Qed.

Lemma cumsum_from_step acc xs t p y :
  Forall (λ x, notna x) xs →
  cumsum_from acc xs !! t = Some p → xs !! S t = Some y →
  cumsum_from acc xs !! S t = Some (fadd p y).
Proof.
  intros Hxs. revert acc t. induction Hxs as [|x xs Hx Hxs IH];
    intros acc t Hp Hy; [done|].
  simpl in *. destruct (isnan x) eqn:Hn.
  { by destruct x. }
  destruct t as [|t]; simpl in *.
  - injection Hp as <-. apply cumsum_from_head; [done|].
    eapply Forall_lookup_1 in Hxs; eauto.
  - by apply IH.
Qed.

Lemma fillna_notna v xs : notna v → Forall (λ x, notna x) (fillna v xs).
Proof.
  intros Hv. unfold fillna. apply Forall_fmap, Forall_true.
  intros x. simpl. by destruct x.
Qed.

Lemma Qnum_sgn_pos q : (0 < q)%Q → Z.sgn (Qnum q) = 1%Z.
Proof. unfold Qlt. simpl. intros. apply Z.sgn_pos. lia. Qed.

Lemma Qnum_sgn_neg q : (q < 0)%Q → Z.sgn (Qnum q) = (-1)%Z.
Proof. unfold Qlt. simpl. intros. apply Z.sgn_neg. lia. Qed.

Lemma Qnum_sgn_null q : (q == 0)%Q → Z.sgn (Qnum q) = 0%Z.
Proof. unfold Qeq. simpl. intros. apply Z.sgn_null. lia. Qed.

(** X13.  The on-balance volume starts at 0 and then follows the direction
    of the close: from one row to the next it grows by the volume of the
    day when the close rose, shrinks by it when the close fell, and stays
    when the close did not move. *)
Theorem obv_follows_price_direction volume close period t a b v :
  close !! t = Some (Fin a) → close !! S t = Some (Fin b) →
  volume !! S t = Some (Fin v) →
  ∃ obv, ("obv", obv) ∈ calculate_volume_indicators volume close period
    ∧ obv !! 0 = Some (Fin 0)
    ∧ ∀ o, obv !! t = Some (Fin o) →
        ∃ o', obv !! S t = Some (Fin o')
              ∧ ((a < b)%Q → (o' == o + v)%Q)
              ∧ ((a == b)%Q → (o' == o)%Q)
              ∧ ((b < a)%Q → (o' == o - v)%Q).
Proof.
  intros Ha Hb Hv. eexists. split.
  { unfold calculate_volume_indicators. cbv zeta.
    do 2 (apply elem_of_cons; right). apply elem_of_cons. by left. }
  assert (Forall (λ x, notna x)
            (fillna (Fin 0) (zip_with fmul (fsign <$> diff 1 close) volume)))
    as Hnotna by by apply fillna_notna.
  split.
  - destruct close as [|c0 close]; [done|].
    destruct volume as [|v0 volume]; [done|].
    assert (fsub c0 NaN = NaN) as Hc0 by by destruct c0.
    unfold cumsum, diff, shift. simpl. unfold get. simpl. rewrite Hc0. done.
  - intros o Ho. unfold cumsum in *.
    assert (∃ s, fillna (Fin 0) (zip_with fmul (fsign <$> diff 1 close) volume)
                   !! S t = Some (Fin (Qred (s * v)))
                 ∧ ((a < b)%Q → s = 1%Q) ∧ ((a == b)%Q → s = 0%Q)
                 ∧ ((b < a)%Q → s = (-1)%Q)) as (s & Hs & Hup & Hflat & Hdown).
    { exists (inject_Z (Z.sgn (Qnum (Qred (b + - a))))). split.
      - unfold fillna. change (map ?f ?l) with (f <$> l).
        rewrite list_lookup_fmap, lookup_zip_with, list_lookup_fmap.
        unfold diff, shift. rewrite lookup_zip_with, list_lookup_imap, Hb, Hv.
        simpl. replace (Z.of_nat (S t) - 1)%Z with (Z.of_nat t) by lia.
        by rewrite (get_lookup _ _ _ Ha).
      - split; [|split]; intros H.
        + rewrite Qnum_sgn_pos; [done|]. rewrite Qred_correct. lra.
        + rewrite Qnum_sgn_null; [done|]. rewrite Qred_correct. lra.
        + rewrite Qnum_sgn_neg; [done|]. rewrite Qred_correct. lra. }
    rewrite (cumsum_from_step _ _ _ _ _ Hnotna Ho Hs). simpl.
    eexists. split; [done|]. rewrite !Qred_correct.
    split; [|split]; intros H.
    + rewrite (Hup H). lra.
    + rewrite (Hflat H). lra.
    + rewrite (Hdown H). lra.
Qed.

(** ** Sentiment Aggregator: order and range of the daily table *)

Lemma StronglySorted_leb_NoDup (l : list Z) :
  StronglySorted (λ a b, Z.leb a b = true) l → NoDup l →
  StronglySorted Z.lt l.
Proof.
  induction 1 as [|x l Hs IH Hall]; intros Hnd; [constructor|].
  apply NoDup_cons in Hnd as [Hx Hnd]. constructor; [by apply IH|].
  apply Forall_forall. intros y Hy.
  rewrite Forall_forall in Hall. specialize (Hall y Hy).
  apply Z.leb_le in Hall. assert (x ≠ y) by (by intros ->). lia.
Qed.

Lemma foldl_fmin2_within lo hi a xs :
  (lo <= a)%Q → (a <= hi)%Q → Forall (within lo hi) xs →
  ∃ m, foldl fmin2 (Fin a) xs = Fin m ∧ (lo <= m)%Q ∧ (m <= a)%Q
       ∧ Forall (within m hi) xs.
Proof.
  intros Hlo Hhi Hxs. revert a Hlo Hhi.
  induction Hxs as [|x xs Hx _ IH]; intros a Hlo Hhi.
  - exists a. split; [done|]. split; [done|]. split; [lra|constructor].
  - destruct x as [q| | |]; try done. destruct Hx as [Hq1 Hq2].
    cbn [foldl]. unfold fmin2 at 2, flt.
    destruct (Qlt_le_dec q a) as [Hlt|Hle].
    + rewrite Qlt_bool_true by done.
      destruct (IH q Hq1 Hq2) as (m & -> & H1 & H2 & H3).
      exists m. split; [done|]. split; [done|]. split; [lra|].
      constructor; [done|done].
    + rewrite Qlt_bool_false by done.
      destruct (IH a Hlo Hhi) as (m & -> & H1 & H2 & H3).
      exists m. split; [done|]. split; [done|]. split; [done|].
      constructor; [|done]. simpl. split; lra.
Qed.

Lemma foldl_fmax2_within lo hi a xs :
  (lo <= a)%Q → (a <= hi)%Q → Forall (within lo hi) xs →
  ∃ m, foldl fmax2 (Fin a) xs = Fin m ∧ (a <= m)%Q ∧ (m <= hi)%Q
       ∧ Forall (within lo m) xs.
Proof.
  intros Hlo Hhi Hxs. revert a Hlo Hhi.
  induction Hxs as [|x xs Hx _ IH]; intros a Hlo Hhi.
  - exists a. split; [done|]. split; [lra|]. split; [done|constructor].
  - destruct x as [q| | |]; try done. destruct Hx as [Hq1 Hq2].
    cbn [foldl]. unfold fmax2 at 2, flt.
    destruct (Qlt_le_dec a q) as [Hlt|Hle].
    + rewrite Qlt_bool_true by done.
      destruct (IH q Hq1 Hq2) as (m & -> & H1 & H2 & H3).
      exists m. split; [done|]. split; [lra|]. split; [done|].
      constructor; [done|done].
    + rewrite Qlt_bool_false by done.
      destruct (IH a Hlo Hhi) as (m & -> & H1 & H2 & H3).
      exists m. split; [done|]. split; [done|]. split; [done|].
      constructor; [|done]. simpl. split; lra.
Qed.

Lemma min_mean_max_within lo hi xs :
  xs ≠ [] → Forall (within lo hi) xs →
  ∃ mn m mx, smin xs = Fin mn ∧ smean xs = Fin m ∧ smax xs = Fin mx
             ∧ (lo <= mn)%Q ∧ (mn <= m)%Q ∧ (m <= mx)%Q ∧ (mx <= hi)%Q.
Proof.
  intros Hne Hxs. unfold smin, smean, smax.
  rewrite (dropna_within lo hi xs Hxs).
  destruct xs as [|x xs]; [done|].
  pose proof Hxs as Hall. apply Forall_cons in Hxs as [Hx Hxs].
  destruct x as [a| | |]; try done. destruct Hx as [Ha1 Ha2].
  destruct (foldl_fmin2_within lo hi a xs Ha1 Ha2 Hxs)
    as (mn & Hmn & Hmn1 & Hmn2 & Hmn3).
  destruct (foldl_fmax2_within lo hi a xs Ha1 Ha2 Hxs)
    as (mx & Hmx & Hmx1 & Hmx2 & Hmx3).
  assert (Forall (within mn mx) (Fin a :: xs)) as Hin.
  { constructor; [done|]. apply Forall_forall. intros y Hy.
    rewrite Forall_forall in Hmn3, Hmx3.
    specialize (Hmn3 y Hy). specialize (Hmx3 y Hy).
    destruct y; try done. simpl in *. tauto. }
  pose proof (fmean_within mn mx (Fin a :: xs) Hne Hin) as Hm.
  destruct (fmean (Fin a :: xs)) as [m| | |]; try done. destruct Hm.
  exists mn, m, mx. simpl. rewrite Hmn, Hmx. done.
Qed.

Lemma ms_dates_of_daily_table df sentiment_df :
  ms_date <$> calculate_market_sentiment df sentiment_df
  = sort_by Z.leb
      (unique ((λ e, dt_date (ev_date e))
                 <$> df_with_sentiment df sentiment_df)).
Proof.
  unfold calculate_market_sentiment. cbv zeta.
  rewrite <- !list_fmap_compose. apply list_fmap_id.
Qed.

(** X14.  The daily sentiment table is in the order of the calendar, each
    date once.  When the labels of the articles are their positions (the
    loader dropped no article) and every article has a score: every row of
    the table is of a date that has an article; the balance of a day lies
    between minus and plus the number of articles of the day; and when the
    scores of the day's articles all lie in a range (the scorer's is
    [-1, 1]), the day's minimum, mean and maximum are numbers with
    lo <= min <= mean <= max <= hi. *)
Theorem daily_sentiment_sorted_and_bounded df sentiment_df :
  let out := calculate_market_sentiment df sentiment_df in
  StronglySorted Z.lt (ms_date <$> out)
  ∧ ((∀ i a, df !! i = Some a → art_index a = i) →
     length sentiment_df = length df →
     ∀ row, row ∈ out →
       let g := events_on (ms_date row) (own_events df sentiment_df) in
       g ≠ []
       ∧ (Z.abs (sentiment_balance row) ≤ Z.of_nat (length g))%Z
       ∧ ∀ lo hi, Forall (λ e, within lo hi (ev_score e)) g →
           ∃ mn m mx,
             sentiment_min row = Fin mn ∧ sentiment_mean row = Fin m
             ∧ sentiment_max row = Fin mx
             ∧ (lo <= mn)%Q ∧ (mn <= m)%Q ∧ (m <= mx)%Q ∧ (mx <= hi)%Q).
Proof.
  intros out. split.
  - unfold out. rewrite ms_dates_of_daily_table.
    apply StronglySorted_leb_NoDup.
    + apply sort_by_StronglySorted.
      * intros x y. rewrite !Z.leb_le. lia.
      * intros x y z. rewrite !Z.leb_le. lia.
    + rewrite sort_by_Permutation. apply NoDup_unique.
  - intros Hlabels Hlen row Hrow.
    rewrite <- (df_with_sentiment_own_events df sentiment_df Hlabels Hlen).
    set (evs := df_with_sentiment df sentiment_df).
    unfold out, calculate_market_sentiment in Hrow.
    cbv zeta in Hrow. fold evs in Hrow.
    apply list_elem_of_fmap in Hrow as (row0 & -> & Hrow0).
    apply list_elem_of_fmap in Hrow0 as (d & -> & Hd).
    rewrite elem_of_sort_by, elem_of_unique in Hd.
    apply events_on_nonempty in Hd. cbn [ms_date with_stress_index aggregate_day].
    split; [done|]. split.
    + cbn [sentiment_balance with_stress_index aggregate_day].
      unfold count_label.
      pose proof (length_filter (λ e, ev_label e = Some "positive")
                    (events_on d evs)).
      pose proof (length_filter (λ e, ev_label e = Some "negative")
                    (events_on d evs)).
      lia.
    + intros lo hi Hg.
      cbn [sentiment_min sentiment_mean sentiment_max with_stress_index
           aggregate_day].
      apply (min_mean_max_within lo hi).
      * intros Hnil. apply fmap_nil_inv in Hnil. done.
      * by apply Forall_fmap.
Qed.

(** X15.  The concatenation pairs an article with the sentiment row that
    carries its index label.  When the labels of the articles are their
    positions (no article was dropped by the loader) and there is one
    sentiment row per article, every article is paired with its own
    sentiment row, in order. *)
Theorem sentiment_joined_on_index_labels df sentiment_df :
  (∀ i a, df !! i = Some a → art_index a = i) →
  length sentiment_df = length df →
  df_with_sentiment df sentiment_df
  = zip_with (λ a s, mkEvent (art_date a) (sentiment_score s)
                             (Some (sentiment_label s)))
      df sentiment_df.
Proof. apply df_with_sentiment_own_events. Qed.

(** X26.  When the labels of the articles are their positions (the loader
    dropped no article) and every article has a score: for a calendar date
    with at least one article the daily table has exactly one row; it holds
    the mean, std, min and max of the scores of that date's articles, the
    balance #positive - #negative of their labels and the stress index
    std * 100, where a missing std counts as 0; with exactly one article the
    stress index is 0.  A date without article has no row. *)
Theorem daily_row_of_own_scores df sentiment_df d :
  (∀ i a, df !! i = Some a → art_index a = i) →
  length sentiment_df = length df →
  let g := events_on d (own_events df sentiment_df) in
  let scores := ev_score <$> g in
  let rows_of_d :=
    filter (λ r, ms_date r = d) (calculate_market_sentiment df sentiment_df) in
  (g ≠ [] →
   ∃ row, rows_of_d = [row]
     ∧ sentiment_mean row = smean scores
     ∧ sentiment_std row = sstd scores
     ∧ sentiment_min row = smin scores
     ∧ sentiment_max row = smax scores
     ∧ sentiment_balance row
       = (count_label "positive" g - count_label "negative" g)%Z
     ∧ stress_index row
       = fmul (if isnan (sstd scores) then Fin 0 else sstd scores) (Fin 100)
     ∧ (length g = 1%nat → stress_index row = Fin 0))
  ∧ (g = [] → rows_of_d = []).
Proof.
  intros Hlabels Hlen. cbv zeta.
  rewrite <- (df_with_sentiment_own_events df sentiment_df Hlabels Hlen).
  rewrite daily_rows_of_date. split.
  - intros Hg. rewrite decide_True by done.
    eexists. split; [done|]. simpl. repeat split.
    intros Hlen1. rewrite sstd_single_event by by rewrite length_fmap.
    reflexivity.
  - intros Hg. by rewrite decide_False by by rewrite Hg; intros [].
Qed.


(** ** Substrings *)

Lemma string_app_cons x (a b : string) :
  String x a +:+ b = String x (a +:+ b).
Proof. reflexivity. Qed.

Lemma string_app_nil (b : string) : "" +:+ b = b.
Proof. reflexivity. Qed.

Lemma string_app_assoc (a b c : string) : (a +:+ b) +:+ c = a +:+ b +:+ c.
Proof.
  induction a as [|x a IH]; [done|]. rewrite !string_app_cons. by f_equal.
Qed.

Lemma prefix_app s post : String.prefix s (s +:+ post) = true.
Proof.
  induction s as [|a s IH]; [by destruct post|].
  rewrite string_app_cons. simpl. by destruct (Ascii.ascii_dec a a).
Qed.

Lemma prefix_inv s t : String.prefix s t = true → ∃ post, t = s +:+ post.
Proof.
  revert t. induction s as [|a s IH]; intros t; [by exists t|].
  destruct t as [|b t]; simpl; [done|].
  destruct (Ascii.ascii_dec a b) as [->|]; [|done].
  intros (post & ->)%IH. by exists post.
Qed.

Lemma str_in_spec kw t :
  str_in kw t = true ↔ ∃ pre post, t = pre +:+ kw +:+ post.
Proof.
  split.
  - induction t as [|a t IH]; cbn [str_in].
    + rewrite orb_false_r. destruct kw; [|done]. by exists "", "".
    + intros [(post & H)%prefix_inv|(pre & post & ->)%IH]%orb_true_iff.
      * by exists "", post.
      * by exists (String a pre), post.
  - intros (pre & post & ->). induction pre as [|a pre IH].
    + rewrite string_app_nil.
      destruct (kw +:+ post) eqn:E; cbn [str_in]; rewrite <- E, prefix_app;
        done.
    + rewrite string_app_cons. cbn [str_in]. rewrite IH. apply orb_true_r.
Qed.

Lemma str_in_trans a b t :
  str_in a b = true → str_in b t = true → str_in a t = true.
Proof.
  rewrite !str_in_spec. intros (p1 & q1 & ->) (p2 & q2 & ->).
  exists (p2 +:+ p1), (q1 +:+ q2). by rewrite !string_app_assoc.
Qed.

Ltac keyword_cases :=
  repeat match goal with
    | |- context [str_in ?k ?t] =>
        lazymatch t with
        | String _ _ => fail
        | EmptyString => fail
        | _ => let E := fresh "E" in destruct (str_in k t) eqn:E
        end
    end;
  simpl; try reflexivity; exfalso;
  match goal with
  | H1 : str_in ?big ?t = true, H2 : str_in ?small ?t = false |- _ =>
      let Hs := fresh in
      assert (str_in small big = true) as Hs by reflexivity;
      pose proof (str_in_trans _ _ _ Hs H1); congruence
  end.

(** ** The keyword scorer *)

Section text_properties.

Variable lower : string → string.

Lemma count_keywords_nonneg kws text : (0 ≤ count_keywords kws text)%Z.
Proof. unfold count_keywords. lia. Qed.

Lemma inject_Z_pos z : (0 < z)%Z → (0 < inject_Z z)%Q.
Proof. intros. unfold Qlt. simpl. lia. Qed.

(** X16.  The keyword score of a text is 0 when the text holds no keyword
    and (p - n) / (p + n) otherwise, for p positive and n negative keywords
    found (each keyword counts once, however often it occurs); it lies in
    [-1, 1].  The label is positive exactly when 2p > 3n, negative exactly
    when 2n > 3p, and neutral otherwise. *)
Theorem keyword_score_range_and_label text :
  let p := count_keywords POSITIVE_KEYWORDS (lower text) in
  let n := count_keywords NEGATIVE_KEYWORDS (lower text) in
  let score := analyze_sentiment_simple lower text in
  (0 ≤ p ≤ 10)%Z ∧ (0 ≤ n ≤ 10)%Z
  ∧ ((p + n = 0)%Z → score = Fin 0)
  ∧ (∃ q, score = Fin q ∧ (-1 <= q)%Q ∧ (q <= 1)%Q
          ∧ (q * inject_Z (p + n) == inject_Z (p - n))%Q)
  ∧ (label_of_score score = "positive" ↔ (2 * p > 3 * n)%Z)
  ∧ (label_of_score score = "negative" ↔ (2 * n > 3 * p)%Z)
  ∧ (label_of_score score = "neutral"
     ↔ (2 * p ≤ 3 * n)%Z ∧ (2 * n ≤ 3 * p)%Z).
Proof.
  intros p n score.
  assert (0 ≤ p ≤ 10)%Z as Hp.
  { unfold p, count_keywords.
    pose proof (length_filter (λ kw, str_in kw (lower text) = true)
                  POSITIVE_KEYWORDS) as H.
    simpl in H. lia. }
  assert (0 ≤ n ≤ 10)%Z as Hn.
  { unfold n, count_keywords.
    pose proof (length_filter (λ kw, str_in kw (lower text) = true)
                  NEGATIVE_KEYWORDS) as H.
    simpl in H. lia. }
  split; [done|]. split; [done|].
  unfold score, analyze_sentiment_simple. cbv zeta. fold p n.
  destruct (Z.eqb_spec (p + n) 0) as [H0|Hne].
  - assert (p = 0 ∧ n = 0)%Z as [-> ->] by lia.
    split; [done|].
    split; [|by repeat split; intros; try lia].
    exists 0%Q. split; [done|]. split; [lra|]. split; [lra|]. reflexivity.
  - assert (0 < inject_Z (p + n))%Q as Hpos by (apply inject_Z_pos; lia).
    unfold of_Z, fdiv.
    destruct (Qeq_bool (inject_Z (p + n)) 0) eqn:Heq.
    { apply Qeq_bool_iff in Heq. lra. }
    set (q := Qred (inject_Z (p - n) / inject_Z (p + n))).
    assert (q * inject_Z (p + n) == inject_Z (p - n))%Q as Hq.
    { unfold q. rewrite Qred_correct. field. lra. }
    assert (inject_Z (p - n) == inject_Z p - inject_Z n)%Q as Hsub.
    { unfold Z.sub. by rewrite inject_Z_plus, inject_Z_opp. }
    assert (inject_Z (p + n) == inject_Z p + inject_Z n)%Q as Hadd
      by by rewrite inject_Z_plus.
    assert (0 <= inject_Z p)%Q as HP by (unfold Qle; simpl; lia).
    assert (0 <= inject_Z n)%Q as HN by (unfold Qle; simpl; lia).
    assert (∀ a b : Z, (2 * a > 3 * b)%Z
                       ↔ (3 * inject_Z b < 2 * inject_Z a)%Q) as Hcmp.
    { intros a b. change 3%Q with (inject_Z 3). change 2%Q with (inject_Z 2).
      rewrite <- !inject_Z_mult, <- Zlt_Qlt. lia. }
    rewrite Hsub, Hadd in Hq. rewrite Hadd in Hpos.
    set (P := inject_Z p) in *. set (N := inject_Z n) in *.
    assert (∀ c, (c < q)%Q → (c * (P + N) < P - N)%Q) as Hlt.
    { intros c Hc. rewrite <- Hq. by apply Qmult_lt_compat_r. }
    assert (∀ c, (q < c)%Q → (P - N < c * (P + N))%Q) as Hgt.
    { intros c Hc. rewrite <- Hq. by apply Qmult_lt_compat_r. }
    assert (∀ c, (c <= q)%Q → (c * (P + N) <= P - N)%Q) as Hle.
    { intros c Hc. rewrite <- Hq. apply Qmult_le_compat_r; [done|lra]. }
    assert (∀ c, (q <= c)%Q → (P - N <= c * (P + N))%Q) as Hge.
    { intros c Hc. rewrite <- Hq. apply Qmult_le_compat_r; [done|lra]. }
    split; [by intros H0|].
    split.
    { exists q. split; [done|].
      destruct (Qlt_le_dec q (-1)) as [H1|H1];
        [apply Hgt in H1; lra|].
      destruct (Qlt_le_dec 1 q) as [H2|H2];
        [apply Hlt in H2; lra|].
      split; [done|]. split; [done|]. by rewrite Hsub, Hadd. }
    assert (∀ a b : Z, (2 * a ≤ 3 * b)%Z
                       ↔ (2 * inject_Z a <= 3 * inject_Z b)%Q) as Hcmp'.
    { intros a b. change 3%Q with (inject_Z 3). change 2%Q with (inject_Z 2).
      rewrite <- !inject_Z_mult, <- Zle_Qle. lia. }
    rewrite !Hcmp, !Hcmp'. fold P N.
    unfold label_of_score, fgt, flt.
    destruct (Qlt_le_dec (2 # 10) q) as [Hhi|Hhi].
    + rewrite (Qlt_bool_true _ _ Hhi). apply Hlt in Hhi.
      split; [|split]; split; try done; try lra; try (intros [? ?]; lra).
    + rewrite (Qlt_bool_false _ _ Hhi). apply Hge in Hhi.
      destruct (Qlt_le_dec q (- (2 # 10))) as [Hlo|Hlo].
      * rewrite (Qlt_bool_true _ _ Hlo). apply Hgt in Hlo.
        split; [|split]; split; try done; try lra; try (intros [? ?]; lra).
      * rewrite (Qlt_bool_false _ _ Hlo). apply Hle in Hlo.
        split; [|split]; split; try done; try lra; try (intros _; split; lra).
Qed.

(** ** The asset detector *)

Lemma detect_mentions_with_ext assets assets' texts :
  Forall2 (λ e e' : string * list string,
             e.1 = e'.1
             ∧ ∀ t, existsb (λ kw, str_in kw t) e.2
                    = existsb (λ kw, str_in kw t) e'.2) assets assets' →
  detect_mentions_with lower assets texts
  = detect_mentions_with lower assets' texts.
Proof.
  induction 1 as [|e e' assets assets' [Hname Hkw] _ IH]; [done|].
  unfold detect_mentions_with in *. rewrite !fmap_cons, IH, Hname.
  do 2 f_equal. apply list_fmap_ext. intros _ text _. by rewrite Hkw.
Qed.

(** X17.  A keyword that contains another keyword of the same asset never
    changes the detector: the mention columns are the ones of the
    dictionary without "cryptomonnaie", "ethereum", "ether",
    "totalenergies", "bnp paribas", "technologie" and "schneider
    electric".  An asset is flagged as soon as the shortest of its keywords
    occurs anywhere in the lower-cased text, inside a longer word too. *)
Theorem contained_keywords_are_redundant texts :
  detect_asset_mentions lower texts
  = detect_mentions_with lower ASSETS_minimal texts.
Proof.
  unfold detect_asset_mentions. apply detect_mentions_with_ext.
  unfold ASSETS, ASSETS_minimal.
  repeat apply Forall2_cons_2; try apply Forall2_nil_2;
    (split; [reflexivity|]; intros t; cbn [snd existsb]; try reflexivity;
     keyword_cases).
Qed.

End text_properties.

(** ** Feature Composer: which columns a statement needs and leaves *)

Lemma columns_set_column c vals vals' d d' :
  columns d = columns d' →
  columns (set_column c vals d) = columns (set_column c vals' d').
Proof. intros H. unfold set_column. simpl. by rewrite H. Qed.

Lemma assign_cols_only c e : defined_by_cols e → cols_only (assign c e).
Proof.
  intros He d d' Hc. unfold assign.
  destruct (e d) as [v|] eqn:Hv, (e d') as [v'|] eqn:Hv'; simpl.
  - f_equal. by rewrite Hc.
  - destruct (He d d' Hc) as [? ?]; [by eexists|congruence].
  - destruct (He d' d (eq_sym Hc)) as [? ?]; [by eexists|congruence].
  - done.
Qed.

Lemma assign_flag_cols_only c e :
  defined_by_cols e → cols_only (assign_flag c e).
Proof.
  intros He d d' Hc. unfold assign_flag.
  destruct (e d) as [v|] eqn:Hv, (e d') as [v'|] eqn:Hv'; simpl.
  - f_equal. by rewrite Hc.
  - destruct (He d d' Hc) as [? ?]; [by eexists|congruence].
  - destruct (He d' d (eq_sym Hc)) as [? ?]; [by eexists|congruence].
  - done.
Qed.

Lemma when_column_cols_only c block :
  cols_only block → cols_only (when_column c block).
Proof.
  intros Hb d d' Hc. unfold when_column, has_column. rewrite Hc.
  destruct (bool_decide _); [by apply Hb|]. simpl. by rewrite Hc.
Qed.

Lemma run_steps_cols_only steps :
  Forall cols_only steps → cols_only (run_steps steps).
Proof.
  intros Hsteps d d' Hc. unfold run_steps.
  assert (columns <$> Some d = columns <$> Some d') as Hacc
    by (simpl; by rewrite Hc).
  revert Hacc. generalize (Some d) (Some d'). clear d d' Hc.
  induction Hsteps as [|step steps Hstep _ IH]; intros acc acc' Hacc;
    [done|].
  cbn [foldl]. apply IH.
  destruct acc as [d|], acc' as [d'|]; try done.
  apply Hstep. by injection Hacc.
Qed.

Ltac expr_defined :=
  let d := fresh "d" in let d' := fresh "d'" in let Hc := fresh "Hc" in
  intros d d' Hc;
  unfold lift1, lift2, test1, test2, band, grouped, whole, col, close_col,
    volume_col, getcol;
  cbv beta; try rewrite Hc;
  repeat match goal with
    | |- context [bool_decide (?c ∈ columns d')] =>
        destruct (bool_decide (c ∈ columns d'))
    end;
  simpl; first [by intros [? ?] | by intros _; eexists].

Ltac step_cols_only :=
  first [ apply assign_cols_only; expr_defined
        | apply assign_flag_cols_only; expr_defined ].

Lemma sentiment_interactions_cols_only : cols_only sentiment_interactions.
Proof.
  apply run_steps_cols_only.
  repeat apply Forall_cons_2; try apply Forall_nil_2; step_cols_only.
Qed.

Lemma trends_interactions_cols_only : cols_only trends_interactions.
Proof.
  apply run_steps_cols_only.
  repeat apply Forall_cons_2; try apply Forall_nil_2;
    first [ step_cols_only | apply when_column_cols_only; step_cols_only ].
Qed.

Lemma sentiment_extremes_cols_only : cols_only sentiment_extremes.
Proof.
  intros d d' Hc. unfold sentiment_extremes.
  assert (defined_by_cols
            (test2 fgt (col "sentiment_mean_7d")
               (whole (quantile (8 # 10)) (col "sentiment_mean_7d"))))
    as Hhigh by expr_defined.
  assert (defined_by_cols
            (test2 flt (col "sentiment_mean_7d")
               (whole (quantile (2 # 10)) (col "sentiment_mean_7d"))))
    as Hlow by expr_defined.
  destruct (test2 fgt _ _ d) as [h|] eqn:Hh,
           (test2 fgt _ _ d') as [h'|] eqn:Hh'; simpl;
    try (destruct (Hhigh d d' Hc) as [? ?]; [by eexists|congruence]);
    try (destruct (Hhigh d' d (eq_sym Hc)) as [? ?]; [by eexists|congruence]);
    [|done].
  destruct (test2 flt _ _ d) as [l|] eqn:Hl,
           (test2 flt _ _ d') as [l'|] eqn:Hl'; simpl;
    try (destruct (Hlow d d' Hc) as [? ?]; [by eexists|congruence]);
    try (destruct (Hlow d' d (eq_sym Hc)) as [? ?]; [by eexists|congruence]);
    [|done].
  apply assign_flag_cols_only; [expr_defined|].
  unfold set_flag. apply columns_set_column. by apply columns_set_column.
Qed.

Lemma market_position_cols_only : cols_only market_position.
Proof.
  intros d d' Hc. unfold market_position, col, getcol. rewrite Hc.
  destruct (bool_decide _); [|done]. simpl. f_equal. by rewrite Hc.
Qed.

Lemma engineer_additional_features_cols_only :
  cols_only engineer_additional_features.
Proof.
  apply run_steps_cols_only.
  repeat apply Forall_cons_2; try apply Forall_nil_2;
    first [ step_cols_only
          | apply when_column_cols_only;
            first [ apply sentiment_interactions_cols_only
                  | apply trends_interactions_cols_only
                  | apply sentiment_extremes_cols_only ]
          | apply market_position_cols_only ].
Qed.

(** ** The columns along the pipeline *)

Lemma asset_indicators_cols_only d d' :
  columns d = columns d' →
  columns (asset_indicators d) = columns (asset_indicators d').
Proof.
  intros Hc. unfold asset_indicators. cbv zeta.
  assert (∀ steps steps',
            Forall2 (λ s s' : DataFrame → DataFrame,
                       ∀ e e', columns e = columns e' →
                               columns (s e) = columns (s' e')) steps steps' →
            columns (run_assignments steps d)
            = columns (run_assignments steps' d')) as Hrun.
  { intros steps steps' H. unfold run_assignments. revert d d' Hc.
    induction H as [|s s' steps steps' Hs _ IH]; intros d d' Hc; [done|].
    cbn [foldl]. apply IH. by apply Hs. }
  apply Hrun.
  repeat apply Forall2_cons_2; try apply Forall2_nil_2; intros e e' He;
    unfold set_nums, set_num, set_flag, calculate_macd,
      calculate_bollinger_bands, calculate_moving_averages,
      calculate_volume_indicators;
    simpl; by rewrite He.
Qed.

Lemma create_targets_cols_only ps d d' :
  columns d = columns d' →
  columns (create_targets d ps) = columns (create_targets d' ps).
Proof.
  unfold create_targets. revert d d'.
  induction ps as [|p ps IH]; intros d d' Hc; [done|].
  cbn [foldl]. apply IH. unfold create_targets_step. simpl. by rewrite Hc.
Qed.

Lemma create_targets_fields ps d :
  fields <$> rows (create_targets d ps) = fields <$> rows d.
Proof.
  unfold create_targets. revert d.
  induction ps as [|p ps IH]; intros d; [done|].
  cbn [foldl]. rewrite IH.
  by destruct (create_targets_step_frame d p) as [? _].
Qed.

Lemma nonempty_of_fields (d d' : DataFrame) :
  fields <$> rows d' = fields <$> rows d → rows d ≠ [] → rows d' ≠ [].
Proof.
  intros Hf Hd Hd'. rewrite Hd' in Hf. symmetry in Hf.
  by apply fmap_nil_inv in Hf.
Qed.

Lemma technical_columns raw technical :
  columns raw = meta_cols ++ price_cols →
  calculate_technical_features raw = Some technical →
  columns technical = meta_cols ++ price_cols ++ indicator_names
  ∧ rows technical ≠ [].
Proof.
  intros Hraw Hout.
  pose proof (calculate_technical_features_rows _ _ Hout) as Hrows.
  unfold calculate_technical_features, pd_concat in Hout.
  rewrite all_features_kept in Hout.
  destruct (kept_assets raw) as [|a l] eqn:Hk; [done|].
  rewrite <- Hk in Hout. rewrite Hk in Hout at 1. simpl in Hout.
  injection Hout as <-. split.
  - cbn [columns]. rewrite <- list_fmap_compose.
    rewrite (unique_repeated_keys (meta_cols ++ price_cols ++ indicator_names)).
    + by rewrite Hk, decide_False.
    + apply (bool_decide_unpack _). by vm_compute.
    + intros a'. unfold compose.
      rewrite (asset_indicators_cols_only _
                 (empty_frame (meta_cols ++ price_cols))); [done|].
      by rewrite <- Hraw.
  - assert (a ∈ kept_assets raw) as Ha
      by (rewrite Hk; apply elem_of_cons; by left).
    apply elem_of_kept_assets in Ha.
    assert (length (rows (asset_indicators (select_asset a raw)))
            = n_obs a raw) as Hlen.
    { rewrite (length_rows_of_assets _ _ (asset_indicators_assets _)).
      apply length_select_asset. }
    cbn [rows]. rewrite Hk, !fmap_cons. intros Hnil.
    apply (f_equal length) in Hnil. cbn [mjoin list_join] in Hnil.
    rewrite length_app, Hlen in Hnil. simpl in Hnil. lia.
Qed.

Lemma merge_sentiment_features_frame d ms lag :
  rows d ≠ [] →
  columns (merge_sentiment_features d ms lag)
  = columns d ++ (if ms then sentiment_names else [])
  ∧ rows (merge_sentiment_features d ms lag) ≠ [].
Proof.
  intros Hd. destruct ms as [ms|]; [|simpl; by rewrite app_nil_r].
  unfold merge_sentiment_features.
  destruct (concat_features_frame d (sentiment_row_features ms lag)
              sentiment_names NoDup_sentiment_names
              (sentiment_row_features_keys ms lag)) as (Hf & _ & Hc).
  rewrite decide_False in Hc by done. split; [done|].
  by apply (nonempty_of_fields d).
Qed.

Lemma merge_google_trends_frame d gt lag :
  rows d ≠ [] →
  columns (merge_google_trends d gt lag)
  = columns d ++ (if gt then trends_names else [])
  ∧ rows (merge_google_trends d gt lag) ≠ [].
Proof.
  intros Hd. destruct gt as [tr|]; [|simpl; by rewrite app_nil_r].
  unfold merge_google_trends.
  destruct (concat_features_frame d (trends_row_features tr lag)
              trends_names NoDup_trends_names
              (trends_row_features_keys tr lag)) as (Hf & _ & Hc).
  rewrite decide_False in Hc by done. split; [done|].
  by apply (nonempty_of_fields d).
Qed.

Lemma engineer_on_merged_columns has_ms has_gt :
  columns <$> engineer_additional_features
                (empty_frame (merged_columns has_ms has_gt))
  = Some (merged_columns has_ms has_gt ++ engineered_names has_ms has_gt).
Proof. destruct has_ms, has_gt; vm_compute; reflexivity. Qed.

Lemma final_columns_eq has_ms has_gt :
  let cs := merged_columns has_ms has_gt ++ engineered_names has_ms has_gt in
  meta_cols ++ price_cols
  ++ filter (λ c, c ∉ meta_cols ++ price_cols ++ target_cols_of cs) cs
  ++ target_cols_of cs
  = final_columns has_ms has_gt.
Proof. destruct has_ms, has_gt; vm_compute; reflexivity. Qed.

(** X18.  The pipeline never raises a [KeyError] on its own data: for a
    price table with the eight columns of the uniform schema on which the
    Indicator Engine yields a table, the Label Generator, the two merges,
    the engineered features and the finalizer run through, with or without
    the sentiment table and with or without the search-interest table, and
    the final dataset has the columns: date, asset, asset type, prices and
    volume, the 24 indicators, the merged columns of the tables that are
    present, the engineered columns and, last, the six label columns. *)
Theorem pipeline_runs_and_has_schema raw technical ms gt :
  columns raw = meta_cols ++ price_cols →
  calculate_technical_features raw = Some technical →
  ∃ out, main technical ms gt = Some out
         ∧ columns out = final_columns (bool_decide (is_Some ms))
                           (bool_decide (is_Some gt)).
Proof.
  intros Hraw Htech.
  destruct (technical_columns raw technical Hraw Htech) as [Hcols Hrows].
  unfold main, feature_composer. cbv zeta.
  set (d1 := create_targets technical FORWARD_PERIODS).
  assert (columns d1
          = meta_cols ++ price_cols ++ indicator_names ++ target_names)
    as Hc1.
  { unfold d1.
    rewrite (create_targets_cols_only FORWARD_PERIODS technical
               (empty_frame (meta_cols ++ price_cols ++ indicator_names)));
      done. }
  assert (rows d1 ≠ []) as Hr1.
  { apply (nonempty_of_fields technical); [|done].
    apply create_targets_fields. }
  destruct (merge_sentiment_features_frame d1 ms SENTIMENT_LAG_DAYS Hr1)
    as [Hc2 Hr2].
  set (d2 := merge_sentiment_features d1 ms SENTIMENT_LAG_DAYS) in *.
  destruct (merge_google_trends_frame d2 gt SENTIMENT_LAG_DAYS Hr2)
    as [Hc3 _].
  set (d3 := merge_google_trends d2 gt SENTIMENT_LAG_DAYS) in *.
  assert (columns d3
          = merged_columns (bool_decide (is_Some ms))
              (bool_decide (is_Some gt))) as Hc.
  { rewrite Hc3, Hc2, Hc1. unfold merged_columns.
    rewrite <- !app_assoc. by destruct ms, gt. }
  pose proof (engineer_additional_features_cols_only d3
                (empty_frame (columns d3)) eq_refl) as He.
  rewrite Hc, engineer_on_merged_columns in He.
  destruct (engineer_additional_features d3) as [e|]; [|done].
  injection He as He. exists (finalize_dataset e). split; [done|].
  rewrite finalize_dataset_columns_eq, He. apply final_columns_eq.
Qed.

(** ** Feature Composer: what the engineered features leave alone *)

Lemma engineer_additional_features_steps d :
  engineer_additional_features d = run_steps engineer_steps d.
Proof. reflexivity. Qed.

Lemma engineered_names_by_step_join :
  mjoin engineered_names_by_step = engineered_names true true.
Proof. reflexivity. Qed.

Lemma length_engineer_steps :
  length engineer_steps = length engineered_names_by_step.
Proof. reflexivity. Qed.

Lemma step_frame_set_column c vals d :
  length vals = length (rows d) →
  fields <$> rows (set_column c vals d) = fields <$> rows d
  ∧ (∀ c', c' ∉ [c] → column c' (set_column c vals d) = column c' d)
  ∧ (∀ c', c' ∈ columns (set_column c vals d) → c' ∈ columns d ∨ c' ∈ [c]).
Proof.
  intros Hlen. split; [|split].
  - apply set_column_fields. lia.
  - intros c' Hc'. apply column_set_column_ne; [|done].
    intros ->. apply Hc'. apply elem_of_cons. by left.
  - intros c'. rewrite elem_of_columns_set_column, list_elem_of_singleton.
    tauto.
Qed.

Lemma step_frame_assign c e : full_length e → step_frame [c] (assign c e).
Proof.
  intros He d d' H. unfold assign in H.
  destruct (e d) as [vals|] eqn:Hv; [|done]. injection H as <-.
  apply step_frame_set_column. rewrite length_fmap. by apply He.
Qed.

Lemma step_frame_assign_flag c e :
  full_length e → step_frame [c] (assign_flag c e).
Proof.
  intros He d d' H. unfold assign_flag in H.
  destruct (e d) as [vals|] eqn:Hv; [|done]. injection H as <-.
  apply step_frame_set_column. rewrite length_fmap. by apply He.
Qed.

Lemma step_frame_when_column c names block :
  step_frame names block → step_frame names (when_column c block).
Proof.
  intros Hb d d' H. unfold when_column in H.
  destruct (has_column c d); [by apply Hb|].
  injection H as <-. split; [done|]. split; [done|]. tauto.
Qed.

Lemma run_steps_None steps :
  foldl (λ acc (step : DataFrame → option DataFrame),
           match acc with Some d => step d | None => None end) None steps
  = None.
Proof. induction steps; [done|]. done. Qed.

Lemma run_steps_cons step steps d :
  run_steps (step :: steps) d = step d ≫= run_steps steps.
Proof.
  unfold run_steps. cbn [foldl]. destruct (step d); [done|].
  apply run_steps_None.
Qed.

Lemma run_steps_app pre post d :
  run_steps (pre ++ post) d = run_steps pre d ≫= run_steps post.
Proof.
  revert d. induction pre as [|step pre IH]; intros d; [done|].
  rewrite <- app_comm_cons, !run_steps_cons.
  destruct (step d) as [d1|]; [|done]. simpl. apply IH.
Qed.

Lemma run_steps_frame names steps :
  Forall2 step_frame names steps → step_frame (mjoin names) (run_steps steps).
Proof.
  induction 1 as [|nm step names steps Hstep _ IH]; intros d d' H.
  - injection H as <-. split; [done|]. split; [done|]. tauto.
  - rewrite run_steps_cons in H.
    destruct (step d) as [d1|] eqn:Hd1; [|done]. simpl in H.
    destruct (Hstep d d1 Hd1) as (F1 & C1 & M1).
    destruct (IH d1 d' H) as (F2 & C2 & M2).
    split; [congruence|]. split.
    + intros c Hc. simpl in Hc. rewrite elem_of_app in Hc.
      rewrite C2, C1; tauto.
    + intros c Hc. simpl. rewrite elem_of_app.
      destruct (M2 c Hc) as [Hc1|]; [|tauto].
      destruct (M1 c Hc1); tauto.
Qed.

Ltac expr_length :=
  let d := fresh "d" in let xs := fresh "xs" in let H := fresh "H" in
  intros d xs H;
  unfold lift1, lift2, test1, test2, band, grouped, whole, col, close_col,
    volume_col, getcol in H;
  cbv beta in H;
  repeat match type of H with
    | context [bool_decide ?P] => destruct (bool_decide P)
    end;
  cbn [mbind option_bind fmap option_fmap option_map] in H;
  try discriminate H; injection H as <-;
  unfold num_column;
  repeat first
    [ rewrite length_fmap | rewrite length_map | rewrite length_zip_with
    | rewrite length_groupby_transform | rewrite length_replicate
    | rewrite length_rolling | rewrite length_column ];
  try lia.

Ltac step_frame_tac :=
  first [ apply step_frame_assign; expr_length
        | apply step_frame_assign_flag; expr_length ].

Lemma sentiment_interactions_frame :
  step_frame ["sentiment_rsi_interaction"; "sentiment_volatility_interaction"]
    sentiment_interactions.
Proof.
  apply (run_steps_frame [[_]; [_]]).
  repeat apply Forall2_cons_2; try apply Forall2_nil_2; step_frame_tac.
Qed.

Lemma trends_interactions_frame :
  step_frame ["trends_rsi_interaction"; "trends_volatility_interaction";
              "trends_momentum_interaction"; "trends_sentiment_combined";
              "trends_spike"] trends_interactions.
Proof.
  apply (run_steps_frame [[_]; [_]; [_]; [_]; [_]]).
  repeat apply Forall2_cons_2; try apply Forall2_nil_2;
    first [ step_frame_tac
          | apply step_frame_when_column; step_frame_tac ].
Qed.

Lemma step_frame_set_columns c1 c2 c3 v1 v2 v3 d d1 d2 :
  length v1 = length (rows d) →
  d1 = set_column c1 v1 d →
  length v2 = length (rows d1) →
  d2 = set_column c2 v2 d1 →
  length v3 = length (rows d2) →
  let d3 := set_column c3 v3 d2 in
  fields <$> rows d3 = fields <$> rows d
  ∧ (∀ c, c ∉ [c1; c2; c3] → column c d3 = column c d)
  ∧ (∀ c, c ∈ columns d3 → c ∈ columns d ∨ c ∈ [c1; c2; c3]).
Proof.
  intros H1 -> H2 -> H3 d3.
  destruct (step_frame_set_column c1 v1 d H1) as (F1 & C1 & M1).
  destruct (step_frame_set_column c2 v2 _ H2) as (F2 & C2 & M2).
  destruct (step_frame_set_column c3 v3 _ H3) as (F3 & C3 & M3).
  split; [unfold d3; congruence|]. split.
  - intros c Hc. rewrite !not_elem_of_cons in Hc. destruct Hc as (?&?&?&_).
    unfold d3. rewrite C3, C2, C1; rewrite ?not_elem_of_cons; try tauto.
    all: split; [done|apply not_elem_of_nil].
  - intros c Hc. rewrite !elem_of_cons.
    destruct (M3 c Hc) as [Hc2|?%list_elem_of_singleton]; [|tauto].
    destruct (M2 c Hc2) as [Hc1|?%list_elem_of_singleton]; [|tauto].
    destruct (M1 c Hc1) as [|?%list_elem_of_singleton]; tauto.
Qed.

Lemma sentiment_extremes_frame :
  step_frame ["sentiment_extreme_positive"; "sentiment_extreme_negative";
              "sentiment_stress_high"] sentiment_extremes.
Proof.
  intros d d' H. unfold sentiment_extremes in H.
  destruct (test2 fgt _ _ d) as [h|] eqn:Hh; [|done].
  destruct (test2 flt _ _ d) as [l|] eqn:Hl; [|done].
  cbn [mbind option_bind] in H. unfold assign_flag in H.
  destruct (test2 fgt (col "stress_index_7d") _ _) as [s|] eqn:Hs; [|done].
  cbn [mbind option_bind] in H. injection H as <-.
  assert (full_length (test2 fgt (col "sentiment_mean_7d")
            (whole (quantile (8 # 10)) (col "sentiment_mean_7d")))) as Lh
    by expr_length.
  assert (full_length (test2 flt (col "sentiment_mean_7d")
            (whole (quantile (2 # 10)) (col "sentiment_mean_7d")))) as Ll
    by expr_length.
  assert (full_length (test2 fgt (col "stress_index_7d")
            (whole (quantile (8 # 10)) (col "stress_index_7d")))) as Ls
    by expr_length.
  apply Lh in Hh. apply Ll in Hl. apply Ls in Hs.
  unfold set_flag in *.
  eapply step_frame_set_columns; [| reflexivity | | reflexivity |];
    rewrite length_fmap; [done| |done].
  rewrite rows_set_column_length; [done|]. by rewrite length_fmap.
Qed.

Lemma market_position_frame :
  step_frame ["market_position"; "is_oversold"; "is_overbought"]
    market_position.
Proof.
  intros d d' H. unfold market_position, col, getcol in H.
  destruct (bool_decide _); [|done].
  cbn [mbind option_bind] in H. injection H as <-.
  unfold set_flag.
  eapply step_frame_set_columns; [| reflexivity | | reflexivity |].
  - rewrite ?length_fmap, ?length_map. unfold num_column.
    by rewrite ?length_fmap, ?length_column.
  - by rewrite !length_fmap, length_column.
  - by rewrite !length_fmap, length_column.
Qed.

Lemma engineer_steps_frame :
  Forall2 step_frame engineered_names_by_step engineer_steps.
Proof.
  unfold engineered_names_by_step, engineer_steps.
  repeat apply Forall2_cons_2; try apply Forall2_nil_2;
    first [ step_frame_tac
          | apply step_frame_when_column;
            first [ apply sentiment_interactions_frame
                  | apply trends_interactions_frame
                  | apply sentiment_extremes_frame ]
          | apply market_position_frame ].
Qed.

(** X19.  When the engineered features are computed (no [KeyError]), the
    rows are the input rows in the same order with the same date, asset,
    prices and volume; no column other than the engineered ones is
    written: the indicators, the labels and the merged sentiment and
    search-interest columns reach the finalizer as they were; and the only
    columns created are engineered ones. *)
Theorem engineer_keeps_rows_and_other_columns d d' :
  engineer_additional_features d = Some d' →
  fields <$> rows d' = fields <$> rows d
  ∧ (∀ c, c ∉ engineered_names true true → column c d' = column c d)
  ∧ (∀ c, c ∈ indicator_names ++ target_names ++ sentiment_names
              ++ trends_names →
          column c d' = column c d)
  ∧ (∀ c, c ∈ columns d' → c ∈ columns d ∨ c ∈ engineered_names true true).
Proof.
  intros H. rewrite engineer_additional_features_steps in H.
  destruct (run_steps_frame _ _ engineer_steps_frame d d' H) as (F & C & M).
  rewrite engineered_names_by_step_join in C, M.
  split; [done|]. split; [done|]. split; [|done].
  intros c Hc. apply C.
  assert (Forall (λ c, c ∉ engineered_names true true)
            (indicator_names ++ target_names ++ sentiment_names
             ++ trends_names)) as Hdisj
    by (apply (bool_decide_unpack _); by vm_compute).
  rewrite Forall_forall in Hdisj. by apply Hdisj.
Qed.

(** ** Feature Composer: the value of an engineered column *)

Lemma engineer_step_at k nm step d d' :
  engineered_names_by_step !! k = Some nm →
  engineer_steps !! k = Some step →
  engineer_additional_features d = Some d' →
  ∃ dk dk', step dk = Some dk'
    ∧ fields <$> rows dk = fields <$> rows d
    ∧ (∀ c, c ∉ mjoin (take k engineered_names_by_step) →
            column c dk = column c d)
    ∧ fields <$> rows d' = fields <$> rows dk'
    ∧ (∀ c, c ∉ mjoin (drop (S k) engineered_names_by_step) →
            column c d' = column c dk').
Proof.
  intros Hnm Hstep H. rewrite engineer_additional_features_steps in H.
  rewrite <- (take_drop_middle _ _ _ Hstep) in H.
  rewrite run_steps_app in H.
  destruct (run_steps (take k engineer_steps) d) as [dk|] eqn:Hdk; [|done].
  simpl in H. rewrite run_steps_cons in H.
  destruct (step dk) as [dk'|] eqn:Hdk'; [|done]. simpl in H.
  exists dk, dk'. split; [done|].
  pose proof engineer_steps_frame as HF.
  destruct (run_steps_frame _ _ (Forall2_take _ _ _ k HF) d dk Hdk)
    as (F1 & C1 & _).
  destruct (run_steps_frame _ _ (Forall2_drop _ _ _ (S k) HF) dk' d' H)
    as (F2 & C2 & _).
  done.
Qed.

(** ** Feature Composer: flags as functions of the input columns *)





Lemma column_lookup c d i r :
  rows d !! i = Some r → column c d !! i = Some (cellof c r).
Proof. intros Hr. unfold column. by rewrite list_lookup_fmap, Hr. Qed.

Lemma num_column_lookup c d i r :
  rows d !! i = Some r → num_column c d !! i = Some (num c r).
Proof.
  intros Hr. unfold num_column, num.
  by rewrite list_lookup_fmap, (column_lookup _ _ _ _ Hr).
Qed.

Lemma engineer_row d d' i r' :
  engineer_additional_features d = Some d' → rows d' !! i = Some r' →
  ∃ r, rows d !! i = Some r ∧ fields r' = fields r.
Proof.
  intros H Hr'. rewrite engineer_additional_features_steps in H.
  destruct (run_steps_frame _ _ engineer_steps_frame d d' H) as (F & _ & _).
  assert (fields <$> (rows d' !! i) = fields <$> (rows d !! i)) as Hi
    by by rewrite <- !list_lookup_fmap, F.
  rewrite Hr' in Hi. destruct (rows d !! i) as [r|]; [|done].
  exists r. split; [done|]. simpl in Hi. by apply (inj Some).
Qed.

(** ** Comparisons with a constant *)

Lemma Qlt_bool_iff a b : Qlt_bool a b = true ↔ (a < b)%Q.
Proof.
  split; [|apply Qlt_bool_true]. intros H.
  destruct (Qlt_le_dec a b) as [|Hle]; [done|].
  rewrite Qlt_bool_false in H; done.
Qed.


Lemma lt_c_mono a b v : (a <= b)%Q → lt_c a v = true → lt_c b v = true.
Proof.
  intros Hab. unfold lt_c, flt. destruct v as [q| | |]; try done.
  rewrite !Qlt_bool_iff. lra.
Qed.





Ltac by_computation := apply (bool_decide_unpack _); by vm_compute.



(** ** The market position *)









(** ** The momentum score *)

Lemma engineer_num_cell k c e F xs d d' i r' v :
  engineered_names_by_step !! k = Some [c] →
  engineer_steps !! k = Some (assign c e) →
  reads e F xs → full_length e →
  Forall (λ x, x ∉ mjoin (take k engineered_names_by_step)) xs →
  c ∉ mjoin (drop (S k) engineered_names_by_step) →
  engineer_additional_features d = Some d' →
  rows d' !! i = Some r' → F d !! i = Some v →
  cellof c r' = Num v.
Proof.
  intros Hnm Hstep Hreads Hlen Hxs Hc H Hr' Hv.
  destruct (engineer_step_at k _ _ d d' Hnm Hstep H)
    as (dk & dk' & Hdk' & F1 & C1 & F2 & C2).
  unfold assign in Hdk'.
  destruct (e dk) as [vals|] eqn:Hvals; [|done]. injection Hdk' as <-.
  pose proof (column_lookup c _ _ _ Hr') as Hcell.
  rewrite (C2 c Hc) in Hcell. unfold set_num in Hcell.
  rewrite column_set_column_eq in Hcell
    by (rewrite length_fmap; by apply Hlen).
  rewrite (Hreads dk d) with (vals := vals) in Hcell; [|done|
    intros x Hx; apply C1; rewrite Forall_forall in Hxs; by apply Hxs|done].
  rewrite list_lookup_fmap, Hv in Hcell. by injection Hcell.
Qed.

Lemma engineer_input_cell c d d' i r r' :
  c ∉ engineered_names true true →
  engineer_additional_features d = Some d' →
  rows d !! i = Some r → rows d' !! i = Some r' →
  cellof c r' = cellof c r.
Proof.
  intros Hc H Hr Hr'. rewrite engineer_additional_features_steps in H.
  destruct (run_steps_frame _ _ engineer_steps_frame d d' H) as (_ & C & _).
  rewrite engineered_names_by_step_join in C.
  pose proof (column_lookup c _ _ _ Hr') as Hcell.
  rewrite (C c Hc), (column_lookup _ _ _ _ Hr) in Hcell. by injection Hcell.
Qed.

Ltac score_value :=
  match goal with
  | |- context [fdiv ?x ?y] =>
      let v := eval vm_compute in (fdiv x y) in change (fdiv x y) with v
  end.

(** X22.  The momentum score of a row counts three signals of the row, RSI
    above 50, MACD above 0 and the short moving average above the medium
    one, and divides by three: it is 0, 1/3, 2/3 or 1, it is 1 exactly
    when the three hold and 0 exactly when none does; a missing RSI or
    MACD counts as a signal that does not hold. *)
Theorem momentum_score_counts_three_signals d d' i r' :
  engineer_additional_features d = Some d' → rows d' !! i = Some r' →
  let score := cellof "momentum_score" r' in
  let a := gt_c 50 (num "rsi" r') in
  let b := gt_c 0 (num "macd" r') in
  let c := feqb (num "ma_cross_short_medium" r') (Fin 1) in
  score ∈ [Num (Fin 0); Num (Fin (1 # 3)); Num (Fin (2 # 3)); Num (Fin 1)]
  ∧ (score = Num (Fin 1) ↔ a = true ∧ b = true ∧ c = true)
  ∧ (score = Num (Fin 0) ↔ a = false ∧ b = false ∧ c = false)
  ∧ (isnan (num "rsi" r') = true → a = false)
  ∧ (isnan (num "macd" r') = true → b = false).
Proof.
  intros Hd Hr'. destruct (engineer_row d d' i r' Hd Hr') as (r & Hr & _).
  assert (∀ x, x ∈ ["rsi"; "macd"; "ma_cross_short_medium"] →
               num x r' = num x r) as Hin.
  { intros x Hx. unfold num. f_equal.
    apply (engineer_input_cell x d d' i); try done.
    revert x Hx. apply Forall_forall. by_computation. }
  rewrite !Hin by (rewrite !elem_of_cons; tauto).
  assert (cellof "momentum_score" r'
          = Num (fdiv (of_Z (Z.b2z (gt_c 50 (num "rsi" r))
                             + Z.b2z (gt_c 0 (num "macd" r))
                             + Z.b2z (feqb (num "ma_cross_short_medium" r)
                                        (Fin 1))))
                   (Fin 3))) as ->.
  { eapply (engineer_num_cell 39 "momentum_score" _
              (λ d, zip_with (λ s z, fdiv (of_Z (s + Z.b2z z)) (Fin 3))
                      (zip_with (λ x y, (Z.b2z x + Z.b2z y)%Z)
                         (map (gt_c 50) (num_column "rsi" d))
                         (map (gt_c 0) (num_column "macd" d)))
                      (map (λ x, feqb x (Fin 1))
                         (num_column "ma_cross_short_medium" d)))
              ["rsi"; "macd"; "ma_cross_short_medium"]);
      [reflexivity | reflexivity | | | by_computation | by_computation
      | exact Hd | exact Hr' | ].
    - intros dk d0 _ Hx vals H. unfold test1, col, getcol in H.
      repeat match type of H with
        | context [bool_decide ?P] => destruct (bool_decide P)
        end;
        cbn [mbind option_bind] in H; try discriminate H.
      injection H as <-. unfold num_column.
      rewrite !Hx by (rewrite !elem_of_cons; tauto). reflexivity.
    - intros d0 vals H. unfold test1, col, getcol in H.
      repeat match type of H with
        | context [bool_decide ?P] => destruct (bool_decide P)
        end;
        cbn [mbind option_bind] in H; try discriminate H.
      injection H as <-. unfold num_column.
      repeat first
        [ rewrite length_zip_with | rewrite length_map | rewrite length_fmap
        | rewrite length_column ].
      lia.
    - cbv beta. change (@map) with (@fmap list _).
      rewrite !lookup_zip_with, !list_lookup_fmap,
        !(num_column_lookup _ _ _ _ Hr). reflexivity. }
  cbv zeta.
  split; [|split; [|split; [|split]]].
  - destruct (gt_c 50 _), (gt_c 0 _), (feqb _ _); score_value;
      rewrite !elem_of_cons; tauto.
  - destruct (gt_c 50 _), (gt_c 0 _), (feqb _ _); score_value;
      split; try done; try by intros (? & ? & ?).
  - destruct (gt_c 50 _), (gt_c 0 _), (feqb _ _); score_value;
      split; try done; try by intros (? & ? & ?).
  - by destruct (num "rsi" r).
  - by destruct (num "macd" r).
Qed.

Lemma engineer_row_exists d d' i :
  engineer_additional_features d = Some d' → i < length (rows d) →
  is_Some (rows d' !! i).
Proof.
  intros H Hi. rewrite engineer_additional_features_steps in H.
  destruct (run_steps_frame _ _ engineer_steps_frame d d' H) as (F & _ & _).
  apply lookup_lt_is_Some_2. by rewrite (length_rows_of_fields _ _ F).
Qed.

Lemma engineer_is_Some_on_indicators d :
  columns d = meta_cols ++ price_cols →
  is_Some (engineer_additional_features (asset_indicators d)).
Proof.
  intros Hc.
  assert (columns (asset_indicators d)
          = columns (empty_frame (meta_cols ++ price_cols ++ indicator_names)))
    as Hcols.
  { by rewrite (asset_indicators_cols_only d
                  (empty_frame (meta_cols ++ price_cols))). }
  pose proof (engineer_additional_features_cols_only _ _ Hcols) as He.
  destruct (engineer_additional_features (asset_indicators d)) as [e|];
    [by eexists|].
  exfalso. vm_compute in He. discriminate He.
Qed.

(** ** Lagged features *)






(** ** The rows that reach the final dataset *)







(** ** Indicator Engine: the warm-up of the volatility *)

Lemma foldl_fadd_finite xs a :
  Forall is_finite xs → is_finite (foldl fadd (Fin a) xs).
Proof.
  intros Hxs. revert a. induction Hxs as [|x xs Hx _ IH]; intros a; [done|].
  destruct x; try done. cbn [foldl fadd]. apply IH.
Qed.

Lemma fmean_finite xs : xs ≠ [] → Forall is_finite xs → is_finite (fmean xs).
Proof.
  intros Hne Hxs. unfold fmean, fsum.
  pose proof (foldl_fadd_finite xs 0 Hxs) as Hs.
  destruct (foldl fadd (Fin 0) xs) as [s| | |]; try done.
  unfold of_nat, of_Z, fdiv.
  destruct (Qeq_bool _ 0) eqn:Heq; [|done].
  apply Qeq_bool_iff in Heq. destruct xs; [done|].
  unfold Qeq in Heq. simpl in Heq. lia.
Qed.

Lemma fvar_nonneg xs :
  Forall is_finite xs → 2 ≤ length xs → nonneg (fvar xs).
Proof.
  intros Hxs Hlen. unfold fvar.
  destruct (Nat.leb_spec (length xs) 1); [lia|]. cbv zeta.
  assert (xs ≠ []) as Hne by (intros ->; simpl in Hlen; lia).
  pose proof (fmean_finite xs Hne Hxs) as Hm.
  destruct (fmean xs) as [m| | |]; try done.
  assert (Forall nonneg ((λ x, fmul (fsub x (Fin m)) (fsub x (Fin m))) <$> xs))
    as Hsq.
  { apply Forall_fmap. eapply Forall_impl; [exact Hxs|].
    intros x Hx. destruct x as [q| | |]; try done. simpl.
    rewrite Qred_correct. nra. }
  pose proof (fsum_nonneg _ Hsq) as Hs.
  destruct (fsum _) as [s| | |]; try done. simpl in Hs.
  unfold of_nat, of_Z, fdiv.
  assert (0 < inject_Z (Z.of_nat (length xs - 1)))%Q as Hn.
  { unfold Qlt. simpl. lia. }
  destruct (Qeq_bool _ 0) eqn:Heq.
  { apply Qeq_bool_iff in Heq. lra. }
  simpl. rewrite Qred_correct. apply Qle_shift_div_l; [done|]. lra.
Qed.

Lemma fstd_finite xs :
  Forall is_finite xs → 2 ≤ length xs → is_finite (fstd xs).
Proof.
  intros Hxs Hlen. unfold fstd. pose proof (fvar_nonneg xs Hxs Hlen) as Hv.
  destruct (fvar xs) as [q| | |]; try done. simpl in Hv. unfold fsqrt.
  by rewrite Qlt_bool_false.
Qed.

Lemma finite_notna x : is_finite x → notna x.
Proof. by destruct x. Qed.

Lemma positive_notnan xs :
  Forall positive xs → Forall (λ x, isnan x = false) xs.
Proof. intros H. eapply Forall_impl; [exact H|]. by intros [| | |]. Qed.

(** The daily returns of positive closes: the first is missing, the others
    are numbers. *)
Lemma returns_of_positive_closes series :
  Forall positive series → series ≠ [] →
  ∃ rs, pct_change 1 series = NaN :: rs ∧ Forall is_finite rs.
Proof.
  intros Hs Hne.
  pose proof (positive_notnan _ Hs) as Hnn.
  destruct (pct_change 1 series) as [|r0 rs] eqn:E.
  { apply (f_equal length) in E. rewrite length_pct_change in E.
    destruct series; done. }
  exists rs. split.
  - f_equal. destruct series as [|x series]; [done|].
    pose proof (pct_change_lookup 1 (x :: series) 0 x Hnn eq_refl) as H0.
    rewrite E in H0. simpl in H0. injection H0 as ->. by destruct x.
  - apply Forall_lookup. intros t r Hr.
    assert (pct_change 1 series !! S t = Some r) as Hr' by by rewrite E.
    destruct (lookup_lt_is_Some_2 series (S t)) as [x Hx].
    { apply lookup_lt_Some in Hr'. by rewrite length_pct_change in Hr'. }
    destruct (lookup_lt_is_Some_2 series t) as [y Hy].
    { apply lookup_lt_Some in Hx. lia. }
    rewrite (pct_change_lookup 1 _ _ _ Hnn Hx) in Hr'. injection Hr' as <-.
    replace (Z.of_nat (S t) - 1)%Z with (Z.of_nat t) by lia.
    rewrite (get_lookup _ _ _ Hy).
    pose proof (Forall_lookup_1 _ _ _ _ Hs Hx) as Hpx.
    pose proof (Forall_lookup_1 _ _ _ _ Hs Hy) as Hpy.
    destruct x as [a| | |], y as [b| | |]; try done. simpl in Hpy.
    unfold fdiv. destruct (Qeq_bool b 0) eqn:Heq; [|done].
    apply Qeq_bool_iff in Heq. lra.
Qed.

(** X25.  The volatility of positive closes has a warm-up of [period] rows,
    one more than the moving averages: its first return is missing, so the
    rolling deviation sees [period] returns only from row [period] on.  It
    is missing on the rows 0 .. period-1 and a number from then on. *)
Theorem volatility_warmup series period t :
  Forall positive series → 2 ≤ period → t < length series →
  (t < period → calculate_volatility series period !! t = Some NaN)
  ∧ (period ≤ t →
     ∃ v, calculate_volatility series period !! t = Some (Fin v)).
Proof.
  intros Hs Hp Ht.
  assert (series ≠ []) as Hne by (intros ->; simpl in Ht; lia).
  destruct (returns_of_positive_closes series Hs Hne) as (rs & Hret & Hrs).
  assert (length rs = length series - 1) as Hlen.
  { apply (f_equal length) in Hret. rewrite length_pct_change in Hret.
    simpl in Hret. lia. }
  unfold calculate_volatility. cbv zeta. rewrite Hret.
  rewrite list_lookup_fmap, lookup_rolling by (simpl; lia). cbv zeta.
  unfold window. replace (t + 1) with (S t) by lia. rewrite firstn_cons.
  split.
  - intros Hlt. replace (S t - period) with 0 by lia. rewrite drop_0.
    unfold observations. rewrite filter_cons_False by (simpl; tauto).
    fold (observations (take t rs)).
    rewrite observations_finite by by apply Forall_take.
    rewrite length_take.
    destruct (Nat.ltb_spec (t `min` length rs) period); [done|lia].
  - intros Hge. replace (S t - period) with (S (t - period)) by lia.
    rewrite skipn_cons.
    assert (Forall is_finite (drop (t - period) (take t rs))) as Hw
      by by apply Forall_drop, Forall_take.
    rewrite observations_finite by done.
    assert (length (drop (t - period) (take t rs)) = period) as Hwl.
    { rewrite length_drop, length_take. lia. }
    rewrite Hwl. destruct (Nat.ltb_spec period period); [lia|].
    pose proof (fstd_finite _ Hw ltac:(lia)) as Hstd.
    destruct (fstd _) as [s| | |]; try done. simpl. eauto.
Qed.

(** ** Feature Composer: an absent auxiliary table *)

Lemma merge_sentiment_features_keeps d ms lag :
  fields <$> rows (merge_sentiment_features d ms lag) = fields <$> rows d
  ∧ ∀ c, c ∉ sentiment_names →
         column c (merge_sentiment_features d ms lag) = column c d.
Proof.
  destruct ms as [ms|]; [|done]. unfold merge_sentiment_features.
  destruct (concat_features_frame d (sentiment_row_features ms lag)
              sentiment_names NoDup_sentiment_names
              (sentiment_row_features_keys ms lag)) as (Hf & Hcol & _).
  done.
Qed.

Lemma merge_google_trends_keeps d gt lag :
  fields <$> rows (merge_google_trends d gt lag) = fields <$> rows d
  ∧ ∀ c, c ∉ trends_names →
         column c (merge_google_trends d gt lag) = column c d.
Proof.
  destruct gt as [tr|]; [|done]. unfold merge_google_trends.
  destruct (concat_features_frame d (trends_row_features tr lag)
              trends_names NoDup_trends_names
              (trends_row_features_keys tr lag)) as (Hf & Hcol & _).
  done.
Qed.

(** The composer on the table of the Label Generator: it returns a table,
    with the rows and the columns of its input as they were. *)
Lemma feature_composer_frame df ms gt :
  columns df = meta_cols ++ price_cols ++ indicator_names ++ target_names →
  rows df ≠ [] →
  ∃ out, feature_composer df ms gt = Some out
    ∧ fields <$> rows out = fields <$> rows df
    ∧ (∀ c, c ∈ columns df → column c out = column c df)
    ∧ columns out
      = merged_columns (bool_decide (is_Some ms)) (bool_decide (is_Some gt))
        ++ engineered_names (bool_decide (is_Some ms))
             (bool_decide (is_Some gt)).
Proof.
  intros Hc1 Hr1. unfold feature_composer. cbv zeta.
  destruct (merge_sentiment_features_frame df ms SENTIMENT_LAG_DAYS Hr1)
    as [Hc2 Hr2].
  destruct (merge_sentiment_features_keeps df ms SENTIMENT_LAG_DAYS)
    as [Hf2 Hk2].
  set (d2 := merge_sentiment_features df ms SENTIMENT_LAG_DAYS) in *.
  destruct (merge_google_trends_frame d2 gt SENTIMENT_LAG_DAYS Hr2)
    as [Hc3 _].
  destruct (merge_google_trends_keeps d2 gt SENTIMENT_LAG_DAYS)
    as [Hf3 Hk3].
  set (d3 := merge_google_trends d2 gt SENTIMENT_LAG_DAYS) in *.
  assert (columns d3
          = merged_columns (bool_decide (is_Some ms))
              (bool_decide (is_Some gt))) as Hc.
  { rewrite Hc3, Hc2, Hc1. unfold merged_columns.
    rewrite <- !app_assoc. by destruct ms, gt. }
  pose proof (engineer_additional_features_cols_only d3
                (empty_frame (columns d3)) eq_refl) as He.
  rewrite Hc, engineer_on_merged_columns in He.
  destruct (engineer_additional_features d3) as [e|] eqn:Hd3; [|done].
  injection He as He. exists e. split; [done|].
  rewrite engineer_additional_features_steps in Hd3.
  destruct (run_steps_frame _ _ engineer_steps_frame d3 e Hd3)
    as (Ff & Fc & _).
  rewrite engineered_names_by_step_join in Fc.
  split; [by rewrite Ff, Hf3, Hf2|]. split; [|done].
  intros c Hin. rewrite Hc1 in Hin.
  assert (Forall (λ c, c ∉ engineered_names true true
                       ∧ c ∉ trends_names ∧ c ∉ sentiment_names)
            (meta_cols ++ price_cols ++ indicator_names ++ target_names))
    as Hdisj by (apply (bool_decide_unpack _); by vm_compute).
  rewrite Forall_forall in Hdisj.
  destruct (Hdisj c Hin) as (He1 & He2 & He3).
  by rewrite (Fc c He1), (Hk3 c He2), (Hk2 c He3).
Qed.

(** C6.  On the table of the Label Generator (the schema, the indicator
    and the label columns, at least one row) the Feature Composer returns
    a table whether or not the sentiment table and the search-interest
    table are there; the rows and the columns of the input are in it as
    they were.  Without the sentiment table the merge hands its input back,
    and the output has none of the four sentiment columns and none of the
    engineered features computed from them; the same for the
    search-interest table, its six columns and the features computed from
    them.  No default value stands in for an absent table. *)
Theorem absent_table_columns_are_left_out df ms gt :
  columns df = meta_cols ++ price_cols ++ indicator_names ++ target_names →
  rows df ≠ [] →
  ∃ out, feature_composer df ms gt = Some out
    ∧ fields <$> rows out = fields <$> rows df
    ∧ (∀ c, c ∈ columns df → c ∈ columns out ∧ column c out = column c df)
    ∧ columns out
      = columns df ++ (if ms then sentiment_names else [])
        ++ (if gt then trends_names else [])
        ++ engineered_names (bool_decide (is_Some ms))
             (bool_decide (is_Some gt))
    ∧ (ms = None →
       (∀ d, merge_sentiment_features d ms SENTIMENT_LAG_DAYS = d)
       ∧ ∀ c, c ∈ sentiment_names ++ sentiment_engineered → c ∉ columns out)
    ∧ (gt = None →
       (∀ d, merge_google_trends d gt SENTIMENT_LAG_DAYS = d)
       ∧ ∀ c, c ∈ trends_names ++ trends_engineered → c ∉ columns out).
Proof.
  intros Hc Hr.
  destruct (feature_composer_frame df ms gt Hc Hr)
    as (out & Hout & Hf & Hcol & Hcols).
  assert (columns out
          = columns df ++ (if ms then sentiment_names else [])
            ++ (if gt then trends_names else [])
            ++ engineered_names (bool_decide (is_Some ms))
                 (bool_decide (is_Some gt))) as Hcols'.
  { rewrite Hcols, Hc. unfold merged_columns. rewrite <- !app_assoc.
    by destruct ms, gt. }
  exists out. split; [done|]. split; [done|]. split; [|split; [done|split]].
  - intros c Hin. split; [|by apply Hcol].
    rewrite Hcols'. apply elem_of_app. by left.
  - intros ->. split; [done|]. intros c Hin. rewrite Hcols.
    revert c Hin. apply Forall_forall.
    destruct gt; apply (bool_decide_unpack _); by vm_compute.
  - intros ->. split; [done|]. intros c Hin. rewrite Hcols.
    revert c Hin. apply Forall_forall.
    destruct ms; apply (bool_decide_unpack _); by vm_compute.
Qed.

End Pipeline.

(** * The properties on concrete tables *)

(** The sort of the concrete runs: the insertion sort by date. *)
Notation insertion_sort :=
  (Build_DateSort (sort_by (λ r1 r2, (date r1 <=? date r2)%Z))
     sort_by_date_Permutation sort_by_date_sorted).

(** ** Label Generator *)

Lemma direction_is_one_iff_return_above_threshold_witness :
  (3 ∈ FORWARD_PERIODS)%Z
  ∧ ∃ r, rows (create_targets btc_rise FORWARD_PERIODS) !! 0%nat = Some r
    ∧ let ret := cell_float (cellof (target_return_name 3) r) in
      let dir := cellof (target_direction_name 3) r in
      let thr := Fin (threshold_spec 3) in
      (dir = Int 1 ↔ fgt ret thr = true)
      ∧ (float_eq ret thr → dir = Int 0)
      ∧ (flt ret (fneg thr) = true → dir = Int 0)
      ∧ (fle (fneg thr) ret = true → fle ret thr = true → dir = Int 0).
Proof.
  assert (3 ∈ FORWARD_PERIODS)%Z as H3 by (apply elem_of_cons; by left).
  split; [exact H3|]. eexists. split; [vm_compute; reflexivity|].
  apply (direction_is_one_iff_return_above_threshold btc_rise 3 0 _ H3).
  vm_compute; reflexivity.
Defined.

Lemma direction_is_binary_and_zero_on_nan_witness :
  (14 ∈ FORWARD_PERIODS)%Z
  ∧ ∃ r, rows (create_targets btc_rise FORWARD_PERIODS) !! 0%nat = Some r
    ∧ let dir := cellof (target_direction_name 14) r in
      (dir = Int 0 ∨ dir = Int 1)
      ∧ (is_na (cellof (target_return_name 14) r) = true → dir = Int 0).
Proof.
  assert (14 ∈ FORWARD_PERIODS)%Z as H14.
  { do 2 (apply elem_of_cons; right). apply elem_of_cons; by left. }
  split; [exact H14|]. eexists. split; [vm_compute; reflexivity|].
  apply (direction_is_binary_and_zero_on_nan btc_rise 14 0 _ H14).
  vm_compute; reflexivity.
Defined.

(** ** Feature Composer *)

Lemma empty_lag_window_gets_defaults_witness :
  rows btc_rise !! 0%nat = Some (price_row 0 "BTC" 100)
  ∧ sentiment_lag_window distant_sentiment (date (price_row 0 "BTC" 100)) 7 = []
  ∧ trends_lag_window distant_trends "BTC" (date (price_row 0 "BTC" 100)) 7 = []
  ∧ (∃ r', rows (merge_sentiment_features btc_rise (Some distant_sentiment) 7)
             !! 0%nat = Some r'
       ∧ cellof "sentiment_mean_7d" r' = Num (Fin 0)
       ∧ cellof "sentiment_std_7d" r' = Num (Fin 0)
       ∧ cellof "sentiment_trend_7d" r' = Num (Fin 0)
       ∧ cellof "stress_index_7d" r' = Num (Fin 0))
  ∧ (∃ r', rows (merge_google_trends sqrt_approx btc_rise
                   (Some distant_trends) 7) !! 0%nat = Some r'
       ∧ cellof "trends_interest_mean_7d" r' = Num (Fin 50)
       ∧ cellof "trends_interest_max_7d" r' = Num (Fin 50)
       ∧ cellof "trends_interest_min_7d" r' = Num (Fin 50)
       ∧ cellof "trends_interest_current" r' = Num (Fin 50)
       ∧ cellof "trends_interest_std_7d" r' = Num (Fin 0)
       ∧ cellof "trends_interest_trend_7d" r' = Num (Fin 0)).
Proof.
  assert (rows btc_rise !! 0%nat = Some (price_row 0 "BTC" 100)) as Hr
    by reflexivity.
  assert (sentiment_lag_window distant_sentiment
            (date (price_row 0 "BTC" 100)) 7 = []) as Hs by reflexivity.
  assert (trends_lag_window distant_trends "BTC"
            (date (price_row 0 "BTC" 100)) 7 = []) as Ht by reflexivity.
  destruct (empty_lag_window_gets_defaults sqrt_approx btc_rise
              distant_sentiment distant_trends 7 0 _ Hr) as [Hsent Htrend].
  split; [exact Hr|]. split; [exact Hs|]. split; [exact Ht|].
  split; [exact (Hsent Hs)|exact (Htrend Ht)].
Defined.

Lemma absent_table_columns_are_left_out_witness :
  columns (create_targets (asset_indicators sqrt_approx btc_rise)
             FORWARD_PERIODS)
  = meta_cols ++ price_cols ++ indicator_names ++ target_names
  ∧ rows (create_targets (asset_indicators sqrt_approx btc_rise)
            FORWARD_PERIODS) ≠ []
  ∧ ∃ out,
      feature_composer sqrt_approx
        (create_targets (asset_indicators sqrt_approx btc_rise)
           FORWARD_PERIODS) None None
      = Some out
      ∧ fields <$> rows out
        = fields <$> rows (create_targets
                             (asset_indicators sqrt_approx btc_rise)
                             FORWARD_PERIODS)
      ∧ columns out
        = columns (create_targets (asset_indicators sqrt_approx btc_rise)
                     FORWARD_PERIODS)
          ++ engineered_names false false
      ∧ "sentiment_mean_7d" ∉ columns out
      ∧ "trends_interest_mean_7d" ∉ columns out.
Proof.
  set (df := create_targets (asset_indicators sqrt_approx btc_rise)
               FORWARD_PERIODS).
  assert (columns df
          = meta_cols ++ price_cols ++ indicator_names ++ target_names)
    as Hc by (by vm_compute).
  assert (rows df ≠ []) as Hr.
  { intros H. apply (f_equal length) in H. vm_compute in H. discriminate H. }
  destruct (absent_table_columns_are_left_out sqrt_approx df None None Hc Hr)
    as (out & Hout & Hf & _ & Hcols & Hms & Hgt).
  split; [exact Hc|]. split; [exact Hr|]. exists out.
  split; [exact Hout|]. split; [exact Hf|]. split; [exact Hcols|].
  split.
  - apply (proj2 (Hms eq_refl)). apply (bool_decide_unpack _). by vm_compute.
  - apply (proj2 (Hgt eq_refl)). apply (bool_decide_unpack _). by vm_compute.
Defined.

(** C6: with both auxiliary tables absent the composer returns a table
    that has neither a sentiment nor a search-interest column; no cell
    holds the default 0 or 50. *)
Lemma absent_tables_give_no_default_columns :
  (λ out, (bool_decide ("sentiment_mean_7d" ∈ columns out),
           bool_decide ("trends_interest_mean_7d" ∈ columns out),
           cellof "sentiment_mean_7d" <$> rows out,
           cellof "trends_interest_mean_7d" <$> rows out))
    <$> feature_composer sqrt_approx (asset_indicators sqrt_approx btc_rise)
          None None
  = Some (false, false, [NA; NA; NA; NA], [NA; NA; NA; NA]).
Proof. vm_compute. reflexivity. Qed.

(** ** Indicator Engine *)

Lemma short_history_assets_are_skipped_witness :
  n_obs "BTC" two_assets < 100
  ∧ 100 ≤ n_obs "ETH" two_assets
  ∧ (∀ out, calculate_technical_features sqrt_approx insertion_sort
              two_assets = Some out →
            ∀ r, r ∈ rows out → asset r ≠ "BTC")
  ∧ (∃ out, calculate_technical_features sqrt_approx insertion_sort
              two_assets = Some out
            ∧ length (filter (λ r, asset r = "ETH") (rows out))
              = n_obs "ETH" two_assets).
Proof.
  assert (n_obs "BTC" two_assets < 100) as Hbtc by (vm_compute; lia).
  assert (100 ≤ n_obs "ETH" two_assets) as Heth by (vm_compute; lia).
  split; [exact Hbtc|]. split; [exact Heth|]. split.
  - exact (proj1 (short_history_assets_are_skipped sqrt_approx insertion_sort
                    two_assets "BTC")
             Hbtc).
  - exact (proj1 (proj2 (short_history_assets_are_skipped sqrt_approx insertion_sort
                           two_assets "ETH")) Heth).
Defined.

(** C5: on 120 constant closes the RSI is NaN on every row, also from
    row 13 on, where the average loss is 0. *)
Lemma rsi_of_constant_closes_is_nan :
  100 ≤ length constant_closes
  ∧ rsi_loss constant_closes (rsi_period PARAMS) !! 13%nat = Some (Fin 0)
  ∧ calculate_rsi constant_closes (rsi_period PARAMS) !! 13%nat = Some NaN
  ∧ calculate_rsi constant_closes (rsi_period PARAMS) = replicate 120 NaN.
Proof.
  split; [vm_compute; lia|]. repeat split; vm_compute; reflexivity.
Qed.

Lemma rsi_warmup_and_bounds_witness :
  let series := close <$> sawtooth "ETH" 100 in
  Forall is_finite series ∧ 1 ≤ 14 ∧ 13 < length series
  ∧ calculate_rsi series 14 !! 12%nat = Some NaN
  ∧ ∃ v, calculate_rsi series 14 !! 13%nat = Some (Fin v)
         ∧ (0 <= v)%Q ∧ (v <= 100)%Q.
Proof.
  intros series.
  assert (Forall is_finite series) as Hfin.
  { apply Forall_forall. intros x Hx.
    apply list_elem_of_fmap in Hx as (r & -> & Hr).
    apply list_elem_of_fmap in Hr as (i & -> & _). exact I. }
  assert (1 ≤ 14) as Hp by lia.
  assert (12 < length series) as H12 by (vm_compute; lia).
  assert (13 < length series) as H13 by (vm_compute; lia).
  split; [exact Hfin|]. split; [exact Hp|]. split; [exact H13|]. split.
  - apply (proj1 (rsi_warmup_and_bounds series 14 12 Hfin Hp H12)). lia.
  - destruct (proj2 (rsi_warmup_and_bounds series 14 13 Hfin Hp H13))
      as (g & l & _ & Hl & _ & _ & Hpos & _); [lia|].
    apply Hpos. vm_compute in Hl. injection Hl as <-. reflexivity.
Defined.

(** ** Dataset Finalizer *)

(** C4: a row whose RSI was in its warm-up has no market position; the
    finalizer fills its RSI from the next day, keeps the row, and the
    market_position column of the final table has a missing value. *)
Lemma finalize_dataset_keeps_missing_market_position :
  (λ out, (bool_decide ("market_position" ∈ columns out),
           (λ r, (date r, cellof "rsi" r, cellof "market_position" r))
             <$> rows out))
    <$> (finalize_dataset <$> market_position rsi_warmup_frame)
  = Some (true, [(timedelta 0, Num (Fin 55), NA);
                 (timedelta 1, Num (Fin 55), Str "neutral")]).
Proof. vm_compute. reflexivity. Qed.

Lemma finalize_dataset_complete_and_sorted_witness :
  NoDup (key <$> rows rsi_warmup_frame)
  ∧ NoDup (key <$> rows (finalize_dataset rsi_warmup_frame))
  ∧ ∀ i j ri rj, i < j →
      rows (finalize_dataset rsi_warmup_frame) !! i = Some ri →
      rows (finalize_dataset rsi_warmup_frame) !! j = Some rj →
      asset ri = asset rj → (date ri < date rj)%Z.
Proof.
  assert (NoDup (key <$> rows rsi_warmup_frame)) as Hnd
    by (apply (bool_decide_unpack _); vm_compute; exact I).
  split; [exact Hnd|].
  exact (proj2 (proj2 (finalize_dataset_complete_and_sorted rsi_warmup_frame))
           Hnd).
Defined.

(** ** Further properties on concrete tables *)

Lemma finalize_dataset_only_sorts_complete_table_witness :
  complete_table complete_pair
  ∧ rows (finalize_dataset complete_pair) = sort_by key_le (rows complete_pair)
  ∧ rows (finalize_dataset complete_pair) ≡ₚ rows complete_pair.
Proof.
  assert (complete_table complete_pair) as Hc.
  { assert (Forall (λ r, Forall (λ c, is_na (cellof c r) = false)
                            (target_cols_of (columns complete_pair)
                             ++ feature_cols_of (columns complete_pair)))
              (rows complete_pair)) as HF
      by (vm_compute; repeat constructor).
    intros r c Hr Hcol. rewrite Forall_forall in HF.
    specialize (HF r Hr). rewrite Forall_forall in HF. exact (HF c Hcol). }
  split; [exact Hc|].
  exact (finalize_dataset_only_sorts_complete_table complete_pair Hc).
Defined.

Lemma target_return_uses_own_asset_series_witness :
  (3 ∈ FORWARD_PERIODS)%Z
  ∧ Forall (λ x, isnan x = false) (close <$> rows btc_rise)
  ∧ ∃ r, rows (create_targets btc_rise FORWARD_PERIODS) !! 0%nat = Some r
    ∧ let series :=
        group_of (asset r) (asset <$> rows btc_rise)
          (close <$> rows btc_rise) in
      let t := rank (asset r) (asset <$> rows btc_rise) 0 in
      series !! t = Some (close r)
      ∧ cellof (target_return_name 3) r
        = Num (fsub (fdiv (close r) (get series (Z.of_nat t + 3))) (Fin 1))
      ∧ ((Z.of_nat (length series) ≤ Z.of_nat t + 3)%Z →
         cellof (target_return_name 3) r = Num NaN).
Proof.
  assert (3 ∈ FORWARD_PERIODS)%Z as H3 by (apply elem_of_cons; by left).
  assert (Forall (λ x, isnan x = false) (close <$> rows btc_rise)) as Hc
    by (vm_compute; repeat constructor).
  split; [exact H3|]. split; [exact Hc|].
  eexists. split; [vm_compute; reflexivity|].
  apply (target_return_uses_own_asset_series btc_rise 3 0 _ H3 Hc).
  vm_compute; reflexivity.
Defined.

Lemma merges_ignore_later_data_witness :
  (∀ r s, r ∈ rows btc_rise → s ∈ distant_sentiment →
          (date r < ms_date s)%Z)
  ∧ (∀ r t, r ∈ rows btc_rise → t ∈ distant_trends → (date r < tr_date t)%Z)
  ∧ merge_sentiment_features btc_rise
      (Some (same_day_sentiment ++ distant_sentiment)) 7
    = merge_sentiment_features btc_rise (Some same_day_sentiment) 7
  ∧ merge_google_trends sqrt_approx btc_rise
      (Some (same_day_trends ++ distant_trends)) 7
    = merge_google_trends sqrt_approx btc_rise (Some same_day_trends) 7.
Proof.
  assert (∀ r s, r ∈ rows btc_rise → s ∈ distant_sentiment →
                 (date r < ms_date s)%Z) as Hms.
  { assert (Forall (λ r, Forall (λ s, (date r < ms_date s)%Z)
                            distant_sentiment) (rows btc_rise)) as HF
      by (vm_compute; repeat constructor).
    intros r s Hr Hs. rewrite Forall_forall in HF.
    specialize (HF r Hr). rewrite Forall_forall in HF. exact (HF s Hs). }
  assert (∀ r t, r ∈ rows btc_rise → t ∈ distant_trends →
                 (date r < tr_date t)%Z) as Htr.
  { assert (Forall (λ r, Forall (λ t, (date r < tr_date t)%Z)
                            distant_trends) (rows btc_rise)) as HF
      by (vm_compute; repeat constructor).
    intros r t Hr Ht. rewrite Forall_forall in HF.
    specialize (HF r Hr). rewrite Forall_forall in HF. exact (HF t Ht). }
  split; [exact Hms|]. split; [exact Htr|].
  exact (merges_ignore_later_data sqrt_approx btc_rise same_day_sentiment
           same_day_trends distant_sentiment distant_trends 7 Hms Htr).
Defined.

Lemma single_point_window_features_witness :
  rows btc_rise !! 0%nat = Some (price_row 0 "BTC" 100)
  ∧ (∃ r', rows (merge_sentiment_features btc_rise
                   (Some same_day_sentiment) 7) !! 0%nat = Some r'
       ∧ (∃ m', cellof "sentiment_mean_7d" r' = Num (Fin m')
                ∧ (m' == 1 # 2)%Q)
       ∧ cellof "sentiment_trend_7d" r' = Num (Fin 0)
       ∧ cellof "sentiment_std_7d" r' = Num NaN)
  ∧ (∃ r', rows (merge_google_trends sqrt_approx btc_rise
                   (Some same_day_trends) 7) !! 0%nat = Some r'
       ∧ (∃ m', cellof "trends_interest_mean_7d" r' = Num (Fin m')
                ∧ (m' == 80)%Q)
       ∧ cellof "trends_interest_max_7d" r' = Num (Fin 80)
       ∧ cellof "trends_interest_min_7d" r' = Num (Fin 80)
       ∧ cellof "trends_interest_current" r' = Num (Fin 80)
       ∧ cellof "trends_interest_std_7d" r' = Num NaN
       ∧ cellof "trends_interest_trend_7d" r' = Num (Fin 0)).
Proof.
  assert (rows btc_rise !! 0%nat = Some (price_row 0 "BTC" 100)) as Hr
    by reflexivity.
  destruct (single_point_window_features sqrt_approx btc_rise
              same_day_sentiment same_day_trends 7 0 _ Hr) as [Hs Ht].
  split; [exact Hr|]. split.
  - destruct (Hs (mkDailySentiment (timedelta 0) (Fin (1 # 2)) NaN
                    (Fin (1 # 2)) (Fin (1 # 2)) 1 (Fin 0)) (1 # 2)%Q
                 eq_refl eq_refl) as (r' & Hr' & Hm & Htrend & Hstd).
    exists r'. split; [exact Hr'|]. split; [exact Hm|].
    split; [exact Htrend|]. exact (Hstd eq_refl).
  - exact (Ht (mkTrendRow (timedelta 0) "BTC" (Fin 80)) 80%Q eq_refl eq_refl).
Defined.

Lemma technical_features_layout_witness :
  NoDup (key <$> rows two_assets)
  ∧ ∃ out,
      calculate_technical_features sqrt_approx insertion_sort two_assets
      = Some out
      ∧ fields <$> rows out
        = mjoin ((λ a, fields <$> asset_rows_by_date a two_assets)
                   <$> kept_assets two_assets)
      ∧ (∀ c, c ∈ columns out ↔ c ∈ columns two_assets ∨ c ∈ indicator_names)
      ∧ NoDup (columns out).
Proof.
  assert (NoDup (key <$> rows two_assets)) as Hnd
    by (apply (bool_decide_unpack _); by vm_compute).
  assert (100 ≤ n_obs "ETH" two_assets) as Heth by (vm_compute; lia).
  destruct (calculate_technical_features_is_Some sqrt_approx insertion_sort
              two_assets "ETH" Heth) as [out Hout].
  split; [exact Hnd|]. exists out. split; [exact Hout|].
  destruct (technical_features_layout sqrt_approx insertion_sort two_assets
              out Hout) as (Hrows & Hcols & Hnodup).
  split; [exact (Hrows Hnd)|]. split; [exact Hcols|exact Hnodup].
Defined.

Lemma moving_average_warmup_and_bounds_witness :
  2 ∈ [2; 3] ∧ 1 ≤ 2 ∧ Forall (within 100 104) mixed_closes
  ∧ 1 < length mixed_closes
  ∧ ∃ ma, (ma_name 2, ma) ∈ calculate_moving_averages mixed_closes [2; 3]
          ∧ length ma = length mixed_closes
          ∧ (1 + 1 < 2 → ma !! 1%nat = Some NaN)
          ∧ (2 ≤ 1 + 1 →
             ∃ m, ma !! 1%nat = Some (Fin m) ∧ (100 <= m)%Q ∧ (m <= 104)%Q).
Proof.
  assert (2 ∈ [2; 3]) as Hin by (apply elem_of_cons; by left).
  assert (1 ≤ 2) as Hp by lia.
  assert (Forall (within 100 104) mixed_closes) as Hs.
  { unfold mixed_closes. repeat apply Forall_cons_2; try apply Forall_nil_2;
      simpl; lra. }
  assert (1 < length mixed_closes) as Ht by (simpl; lia).
  split; [exact Hin|]. split; [exact Hp|]. split; [exact Hs|].
  split; [exact Ht|].
  exact (moving_average_warmup_and_bounds mixed_closes [2; 3] 2 100%Q 104%Q 1
           Hin Hp Hs Ht).
Defined.

Lemma rsi_of_monotone_series_witness :
  Forall is_finite rising_closes ∧ Forall is_finite falling_closes
  ∧ rising rising_closes ∧ falling falling_closes
  ∧ calculate_rsi rising_closes 2 !! 2%nat = Some (Fin 100)
  ∧ calculate_rsi falling_closes 2 !! 2%nat = Some (Fin 0)
  ∧ pd_cut (Fin 0) = NA ∧ lt_c 25 (Fin 0) = true.
Proof.
  assert (Forall is_finite rising_closes) as Hfr by (repeat constructor).
  assert (Forall is_finite falling_closes) as Hff by (repeat constructor).
  assert (rising rising_closes) as Hr.
  { intros i x y Hx Hy. do 4 (destruct i as [|i]; [simpl in *; simplify_eq;
      reflexivity|]). done. }
  assert (falling falling_closes) as Hf.
  { intros i x y Hx Hy. do 4 (destruct i as [|i]; [simpl in *; simplify_eq;
      reflexivity|]). done. }
  split; [exact Hfr|]. split; [exact Hff|]. split; [exact Hr|].
  split; [exact Hf|]. split.
  - apply (proj1 (rsi_of_monotone_series rising_closes 2 2 Hfr
                    ltac:(lia) ltac:(lia) ltac:(lia) ltac:(simpl; lia))).
    exact Hr.
  - apply (proj2 (rsi_of_monotone_series falling_closes 2 2 Hff
                    ltac:(lia) ltac:(lia) ltac:(lia) ltac:(simpl; lia))).
    exact Hf.
Defined.

Lemma obv_follows_price_direction_witness :
  mixed_closes !! 0%nat = Some (Fin 100)
  ∧ mixed_closes !! 1%nat = Some (Fin 102)
  ∧ some_volumes !! 1%nat = Some (Fin 20)
  ∧ ∃ obv, ("obv", obv)
             ∈ calculate_volume_indicators some_volumes mixed_closes 20
      ∧ obv !! 0%nat = Some (Fin 0)
      ∧ ∀ o, obv !! 0%nat = Some (Fin o) →
          ∃ o', obv !! 1%nat = Some (Fin o')
                ∧ ((100 < 102)%Q → (o' == o + 20)%Q)
                ∧ ((100 == 102)%Q → (o' == o)%Q)
                ∧ ((102 < 100)%Q → (o' == o - 20)%Q).
Proof.
  split; [reflexivity|]. split; [reflexivity|]. split; [reflexivity|].
  exact (obv_follows_price_direction some_volumes mixed_closes 20 0 100%Q
           102%Q 20%Q eq_refl eq_refl eq_refl).
Defined.

Lemma sentiment_joined_on_index_labels_witness :
  (∀ i a, two_articles !! i = Some a → art_index a = i)
  ∧ length two_sentiments = length two_articles
  ∧ df_with_sentiment two_articles two_sentiments
    = zip_with (λ a s, mkEvent (art_date a) (sentiment_score s)
                               (Some (sentiment_label s)))
        two_articles two_sentiments.
Proof.
  assert (∀ i a, two_articles !! i = Some a → art_index a = i) as Hl.
  { intros i a Ha. do 2 (destruct i as [|i]; [simpl in Ha; by simplify_eq|]).
    done. }
  split; [exact Hl|]. split; [reflexivity|].
  exact (sentiment_joined_on_index_labels two_articles two_sentiments Hl
           eq_refl).
Defined.

Lemma daily_sentiment_sorted_and_bounded_witness :
  (∀ i a, two_articles !! i = Some a → art_index a = i)
  ∧ length two_sentiments = length two_articles
  ∧ ∀ row,
      row ∈ calculate_market_sentiment sqrt_approx two_articles two_sentiments →
      ∃ mn m mx,
        sentiment_min row = Fin mn ∧ sentiment_mean row = Fin m
        ∧ sentiment_max row = Fin mx
        ∧ (-1 <= mn)%Q ∧ (mn <= m)%Q ∧ (m <= mx)%Q ∧ (mx <= 1)%Q.
Proof.
  assert (∀ i a, two_articles !! i = Some a → art_index a = i) as Hl.
  { intros i a Ha. do 2 (destruct i as [|i]; [simpl in Ha; by simplify_eq|]).
    done. }
  split; [exact Hl|]. split; [reflexivity|]. intros row Hrow.
  destruct (daily_sentiment_sorted_and_bounded sqrt_approx two_articles
              two_sentiments) as [_ Hb].
  destruct (Hb Hl eq_refl row Hrow) as (_ & _ & Hrange).
  apply Hrange. apply Forall_forall. intros e [_ He]%list_elem_of_filter.
  revert e He. apply Forall_forall.
  repeat apply Forall_cons_2; try apply Forall_nil_2; simpl; lra.
Defined.

Lemma daily_row_of_own_scores_witness :
  (∀ i a, two_articles !! i = Some a → art_index a = i)
  ∧ length two_sentiments = length two_articles
  ∧ events_on (timedelta 0) (own_events two_articles two_sentiments) ≠ []
  ∧ ∃ row,
      filter (λ r, ms_date r = timedelta 0)
        (calculate_market_sentiment sqrt_approx two_articles two_sentiments)
      = [row]
      ∧ sentiment_mean row = Fin (-1 # 4)
      ∧ sentiment_min row = Fin (-1)
      ∧ sentiment_max row = Fin (1 # 2)
      ∧ sentiment_balance row = 0%Z.
Proof.
  assert (∀ i a, two_articles !! i = Some a → art_index a = i) as Hl.
  { intros i a Ha. do 2 (destruct i as [|i]; [simpl in Ha; by simplify_eq|]).
    done. }
  assert (events_on (timedelta 0) (own_events two_articles two_sentiments)
          ≠ []) as Hne by (by vm_compute).
  split; [exact Hl|]. split; [reflexivity|]. split; [exact Hne|].
  destruct (daily_row_of_own_scores sqrt_approx two_articles two_sentiments
              (timedelta 0) Hl eq_refl) as [Hrow _].
  destruct (Hrow Hne) as (row & Hrows & Hmean & _ & Hmin & Hmax & Hbal & _).
  exists row. split; [exact Hrows|].
  rewrite Hmean, Hmin, Hmax, Hbal. by vm_compute.
Defined.

Lemma pipeline_runs_and_has_schema_witness :
  columns two_assets = meta_cols ++ price_cols
  ∧ ∃ technical,
      calculate_technical_features sqrt_approx insertion_sort two_assets
      = Some technical
      ∧ ∃ out, main sqrt_approx technical (Some distant_sentiment) None
               = Some out
               ∧ columns out = final_columns true false.
Proof.
  assert (columns two_assets = meta_cols ++ price_cols) as Hc by reflexivity.
  assert (100 ≤ n_obs "ETH" two_assets) as Heth by (vm_compute; lia).
  destruct (calculate_technical_features_is_Some sqrt_approx insertion_sort
              two_assets "ETH" Heth) as [technical Htech].
  split; [exact Hc|]. exists technical. split; [exact Htech|].
  exact (pipeline_runs_and_has_schema sqrt_approx insertion_sort two_assets
           technical
           (Some distant_sentiment) None Hc Htech).
Defined.

(** The engineered features on the four days of [btc_rise]. *)

Lemma engineer_keeps_rows_and_other_columns_witness :
  ∃ d', engineer_additional_features sqrt_approx
          (asset_indicators sqrt_approx btc_rise) = Some d'
    ∧ fields <$> rows d'
      = fields <$> rows (asset_indicators sqrt_approx btc_rise)
    ∧ (∀ c, c ∈ indicator_names ++ target_names ++ sentiment_names
                ++ trends_names →
            column c d' = column c (asset_indicators sqrt_approx btc_rise)).
Proof.
  destruct (engineer_is_Some_on_indicators sqrt_approx btc_rise eq_refl)
    as [d' Hd].
  exists d'. split; [exact Hd|].
  destruct (engineer_keeps_rows_and_other_columns sqrt_approx _ d' Hd)
    as (F & _ & C & _).
  split; [exact F|exact C].
Defined.



Lemma momentum_score_counts_three_signals_witness :
  ∃ d' r', engineer_additional_features sqrt_approx
             (asset_indicators sqrt_approx btc_rise) = Some d'
    ∧ rows d' !! 3%nat = Some r'
    ∧ cellof "momentum_score" r'
      ∈ [Num (Fin 0); Num (Fin (1 # 3)); Num (Fin (2 # 3)); Num (Fin 1)].
Proof.
  destruct (engineer_is_Some_on_indicators sqrt_approx btc_rise eq_refl)
    as [d' Hd].
  destruct (engineer_row_exists sqrt_approx _ d' 3 Hd) as [r' Hr'];
    [vm_compute; lia|].
  exists d', r'. split; [exact Hd|]. split; [exact Hr'|].
  exact (proj1 (momentum_score_counts_three_signals sqrt_approx _ d' 3 r'
                  Hd Hr')).
Defined.



Lemma volatility_warmup_witness :
  Forall positive rising_closes ∧ 2 ≤ 2 ∧ 3 < length rising_closes
  ∧ ∃ v, calculate_volatility sqrt_approx rising_closes 2 !! 3%nat
         = Some (Fin v).
Proof.
  assert (Forall positive rising_closes) as Hs.
  { unfold rising_closes. repeat apply Forall_cons_2; try apply Forall_nil_2;
      reflexivity. }
  assert (2 ≤ 2) as Hp by lia.
  assert (3 < length rising_closes) as Ht by (simpl; lia).
  assert (2 ≤ 3) as Hge by lia.
  split; [exact Hs|]. split; [exact Hp|]. split; [exact Ht|].
  exact (proj2 (volatility_warmup sqrt_approx rising_closes 2 3 Hs Hp Ht) Hge).
Defined.

(** A text in lower case without any keyword. *)
Lemma keyword_score_range_and_label_witness :
  (count_keywords POSITIVE_KEYWORDS "la bourse de paris ouvre stable"
   + count_keywords NEGATIVE_KEYWORDS "la bourse de paris ouvre stable" = 0)%Z
  ∧ analyze_sentiment_simple (λ s, s) "la bourse de paris ouvre stable"
    = Fin 0.
Proof.
  assert (count_keywords POSITIVE_KEYWORDS "la bourse de paris ouvre stable"
          + count_keywords NEGATIVE_KEYWORDS "la bourse de paris ouvre stable"
          = 0)%Z as H0 by reflexivity.
  split; [exact H0|].
  pose proof (keyword_score_range_and_label (λ s, s)
                "la bourse de paris ouvre stable") as H.
  cbv zeta in H. destruct H as (_ & _ & Hz & _). exact (Hz H0).
Defined.
